(** * security-sentinel: banner inference, severity bucketing and service checks

    A shallow embedding of the network scanner's pure and event-driven code
    ([bin/network.js] in its two revisions, [bin/vulners-api.js], [wrapText]
    of [bin/common.js], the header, cookie and redirect checks of
    [bin/security.js] and the loops of the main script) together with the
    properties its specification states about them and further properties
    of the code. *)

From Stdlib Require Import Ascii String DecimalString NArith ZArith QArith Qround List Bool
  Lia Lqa.
From stdpp Require Import gmap strings list.
Import ListNotations.

#[local] Set Warnings "-register-all".
#[local] Arguments String.append !s1 s2 : simpl nomatch.

(** ** JavaScript strings

    A JavaScript string whose code units all lie below 256 is represented by
    the Rocq [string] of those units (read as Latin-1 code points).  Strings
    with larger code units are outside the model. *)

Module JsString.

Definition between (lo hi n : N) : bool := (lo <=? n)%N && (n <=? hi)%N.

(** [String.prototype.toLowerCase] on one code unit: [A-Z] and the Latin-1
    capitals U+00C0..U+00DE (without the multiplication sign U+00D7) move up
    by 32, every other unit is kept. *)
Definition toLowerChar (c : ascii) : ascii :=
  let n := N_of_ascii c in
  if between 65 90 n || (between 192 222 n && negb (n =? 215)%N)
  then ascii_of_N (n + 32) else c.

Fixpoint toLowerCase (s : string) : string :=
  match s with
  | EmptyString => EmptyString
  | String c s' => String (toLowerChar c) (toLowerCase s')
  end.

(** [startsWith s p]: [p] is a prefix of [s]. *)
Fixpoint startsWith (s p : string) {struct p} : bool :=
  match p, s with
  | EmptyString, _ => true
  | String _ _, EmptyString => false
  | String a p', String b s' => Ascii.eqb a b && startsWith s' p'
  end.

(** [s.includes(sub)]: [sub] occurs at some index of [s]. *)
Fixpoint includes (s sub : string) : bool :=
  startsWith s sub ||
  match s with
  | EmptyString => false
  | String _ s' => includes s' sub
  end.

(** [s.split(sep)] for a one-character separator: the pieces between the
    separators, always at least one piece. *)
Fixpoint split (sep : ascii) (s : string) : list string :=
  match s with
  | EmptyString => [EmptyString]
  | String c s' =>
      if Ascii.eqb c sep then EmptyString :: split sep s'
      else match split sep s' with
           | piece :: pieces => String c piece :: pieces
           | [] => [String c EmptyString]
           end
  end.

(** The first character exists and lies in the class [p]. *)
Definition head_in (p : ascii -> bool) (s : string) : bool :=
  match s with
  | EmptyString => false
  | String c _ => p c
  end.

Fixpoint all_chars (p : ascii -> bool) (s : string) : bool :=
  match s with
  | EmptyString => true
  | String c s' => p c && all_chars p s'
  end.

End JsString.

(** ** Regular expressions

    The fragment of ECMAScript regular expressions that the scanner uses:
    literal characters, an optional character class, a greedy repetition of a
    character class, and a capturing group around such a repetition.  Matching
    is the backtracking, leftmost search of [RegExp.prototype.exec] without
    the global flag. *)

Module Regex.

Inductive Atom : Type :=
| Chr (c : ascii)                 (* a literal character *)
| Opt (cls : ascii -> bool)       (* [cls]?   *)
| Plus (cls : ascii -> bool)      (* [cls]+   *)
| Group (cls : ascii -> bool).    (* ([cls]+) *)

Definition t := list Atom.

(** Character classes. *)
Definition digit (c : ascii) : bool :=                       (* \d *)
  JsString.between 48 57 (N_of_ascii c).
Definition space (c : ascii) : bool :=                       (* \s *)
  let n := N_of_ascii c in
  JsString.between 9 13 n || (n =? 32)%N || (n =? 160)%N.
Definition non_space (c : ascii) : bool := negb (space c).   (* \S *)
Definition digit_or_dot (c : ascii) : bool :=                (* [\d.] *)
  digit c || Ascii.eqb c "."%char.
Definition dash_or_space (c : ascii) : bool :=               (* [-\s] *)
  Ascii.eqb c "-"%char || space c.

(** A pattern text without metacharacters. *)
Fixpoint literal (s : string) : t :=
  match s with
  | EmptyString => []
  | String c s' => Chr c :: literal s'
  end.

(** Canonicalize of the [i] flag (non-Unicode mode): the upper-case
    counterpart when it is a single unit of the same range. *)
Definition canonicalize (c : ascii) : ascii :=
  let n := N_of_ascii c in
  if JsString.between 97 122 n
     || (JsString.between 224 254 n && negb (n =? 247)%N)
  then ascii_of_N (n - 32) else c.

Section Matcher.
Variable ignoreCase : bool.

Definition char_eq (a b : ascii) : bool :=
  if ignoreCase then Ascii.eqb (canonicalize a) (canonicalize b)
  else Ascii.eqb a b.

(** [cls]+ in front of the continuation [k]: one character is required,
    more are taken first, and the shorter run is tried when the
    continuation fails on the longer one. *)
Fixpoint plus {R : Type} (cls : ascii -> bool)
    (k : string -> string -> option R) (taken s : string) : option R :=
  match s with
  | EmptyString => None
  | String c s' =>
      if cls c then
        let taken' := taken +:+ String c EmptyString in
        match plus cls k taken' s' with
        | Some r => Some r
        | None => k taken' s'
        end
      else None
  end.

(** Match [r] at the start of [s]; the result lists the captures. *)
Fixpoint exec (r : t) (caps : list string) (s : string)
    : option (list string) :=
  match r with
  | [] => Some caps
  | Chr c :: r' =>
      match s with
      | String d s' => if char_eq c d then exec r' caps s' else None
      | EmptyString => None
      end
  | Opt cls :: r' =>
      match s with
      | String d s' =>
          if cls d then
            match exec r' caps s' with
            | Some m => Some m
            | None => exec r' caps s
            end
          else exec r' caps s
      | EmptyString => exec r' caps s
      end
  | Plus cls :: r' => plus cls (fun _ rest => exec r' caps rest) EmptyString s
  | Group cls :: r' =>
      plus cls (fun taken rest => exec r' (caps ++ [taken]) rest) EmptyString s
  end.

(** [s.match(r)]: the match at the least index; [None] is [null].  The
    list holds the groups 1, 2, ... of the match array. *)
Fixpoint search (r : t) (s : string) : option (list string) :=
  match exec r [] s with
  | Some m => Some m
  | None =>
      match s with
      | EmptyString => None
      | String _ s' => search r s'
      end
  end.
End Matcher.

End Regex.

(** ** Banner inference ([inferSystemDetails]) *)

(** The objects of [operating_system] and [software].  [version] is [None]
    where the JavaScript property holds [undefined]. *)
Record Cpe : Type := mkCpe {
  part : string;
  vendor : string;
  product : string;
  version : option string
}.

Record SystemDetails : Type := mkSystemDetails {
  operating_system : Cpe;
  software : list Cpe
}.

(** The [vendor] object, in the order [Object.entries] lists it. *)
Definition vendor_table : list (string * string) :=
  [ ("ubuntu", "canonical");
    ("debian", "debian");
    ("centos", "centos");
    ("enterprise_linux", "redhat");
    ("fedora", "fedora");
    ("alpine_linux", "alpine");
    ("amazon_linux", "amazon") ].

Definition unknown_os : Cpe :=
  {| part := "o"; vendor := "unknown"; product := "unknown";
     version := Some "unknown" |}.

(** [new RegExp(`${product}[-\\s]?([\\d.]+)`, "i")]; the keywords of the table
    consist of letters and underscores, which stand for themselves. *)
Definition os_version_regex (product : string) : Regex.t :=
  Regex.literal product ++ [Regex.Opt Regex.dash_or_space; Regex.Group Regex.digit_or_dot].

(** [/SSH-\d+\.\d+-(\S+)/] *)
Definition ssh_regex : Regex.t :=
  Regex.literal "SSH-" ++
  [Regex.Plus Regex.digit; Regex.Chr "."; Regex.Plus Regex.digit; Regex.Chr "-";
   Regex.Group Regex.non_space].

(** [versionMatch ? versionMatch[1] : "unknown"] *)
Definition os_version (product banner : string) : option string :=
  match Regex.search true (os_version_regex product) banner with
  | Some groups => groups !! 0
  | None => Some "unknown"
  end.

(** The [for ... of Object.entries(vendor)] loop with its [break]. *)
Fixpoint infer_os (table : list (string * string)) (banner : string) : Cpe :=
  match table with
  | [] => unknown_os
  | (product, vendorName) :: rest =>
      if JsString.includes (JsString.toLowerCase banner) product then
        {| part := "o"; vendor := vendorName; product := product;
           version := os_version product banner |}
      else infer_os rest banner
  end.

(** [banner.match(/SSH-\d+\.\d+-(\S+)/)]: the captured token. *)
Definition sshSoftwareMatch (banner : string) : option (list string) :=
  Regex.search false ssh_regex banner.

(** The body of [if (sshSoftwareMatch) { ... }]: [softwareDetails] is group 1,
    [product] and [version] are the first two pieces of
    [softwareDetails.split('_')].  The pattern has one group and [split]
    yields at least one piece, so the two [None] branches are never taken. *)
Definition infer_software (banner : string) : list Cpe :=
  match sshSoftwareMatch banner with
  | Some groups =>
      match groups !! 0 with
      | Some softwareDetails =>
          let pieces := JsString.split "_" softwareDetails in
          match pieces !! 0 with
          | Some product =>
              [ {| part := "a"; vendor := "openbsd";
                   product := JsString.toLowerCase product;
                   version := pieces !! 1 |} ]
          | None => []
          end
      | None => []
      end
  | None => []
  end.

Definition inferSystemDetails (banner : string) : SystemDetails :=
  {| operating_system := infer_os vendor_table banner;
     software := infer_software banner |}.

(** ** JavaScript values and exceptions *)

(** The values a parsed JSON document is made of, with [undefined] for an
    absent property. *)
Inductive JsValue : Type :=
| JsUndefined
| JsNull
| JsBool (b : bool)
| JsNaN
| JsNumber (q : Q)
| JsStr (s : string)
| JsArray (items : list JsValue)
| JsObject (props : list (string * JsValue)).

(** An [Error] object as Node's [dns], [net] and [tls] modules raise it. *)
Record JsError : Type := mkError {
  code : option string;
  message : string
}.

Definition TypeError (msg : string) : JsError :=
  {| code := None; message := msg |}.

(** A computation that returns a value or throws. *)
Inductive Result (A : Type) : Type :=
| Ok (a : A)
| Throw (e : JsError).
Arguments Ok {A} a.
Arguments Throw {A} e.

Definition bind {A B : Type} (m : Result A) (f : A -> Result B) : Result B :=
  match m with
  | Ok a => f a
  | Throw e => Throw e
  end.

Notation "'let*' x ':=' m 'in' k" := (bind m (fun x => k))
  (at level 10, x name, m at level 100, k at level 200).

Definition throws {A : Type} (m : Result A) : Prop :=
  exists e, m = Throw e.

(** [ToBoolean]. *)
Definition truthy (v : JsValue) : bool :=
  match v with
  | JsUndefined | JsNull | JsNaN => false
  | JsBool b => b
  | JsNumber q => negb (Qnum q =? 0)%Z
  | JsStr s => negb (String.eqb s "")
  | JsArray _ | JsObject _ => true
  end.

Fixpoint assoc (name : string) (props : list (string * JsValue)) : JsValue :=
  match props with
  | [] => JsUndefined
  | (k, v) :: rest => if String.eqb k name then v else assoc name rest
  end.

(** [v.name] for the property names this program reads from API responses
    ([result], [vulnerabilities], [metrics], [cvss], [severity], [score],
    [title], [short_description], [ai_score]), none of which a built-in
    prototype defines: reading from [undefined] or [null] throws, a primitive
    or an array has no such property. *)
Definition get (name : string) (v : JsValue) : Result JsValue :=
  match v with
  | JsUndefined | JsNull =>
      Throw (TypeError ("Cannot read properties of undefined (reading '" +:+ name +:+ "')"))
  | JsObject props => Ok (assoc name props)
  | _ => Ok JsUndefined
  end.

(** [v.toLowerCase()]: only a string has the method. *)
Definition call_toLowerCase (v : JsValue) : Result string :=
  match v with
  | JsStr s => Ok (JsString.toLowerCase s)
  | JsUndefined | JsNull =>
      Throw (TypeError "Cannot read properties of undefined (reading 'toLowerCase')")
  | _ => Throw (TypeError "toLowerCase is not a function")
  end.

(** [xs.forEach(f)] with the accumulator the callback updates: only an array
    has the method, and an exception of the callback ends the loop. *)
Fixpoint forEach_items {S : Type} (f : S -> JsValue -> Result S)
    (items : list JsValue) (acc : S) : Result S :=
  match items with
  | [] => Ok acc
  | x :: rest => let* acc' := f acc x in forEach_items f rest acc'
  end.

Definition forEach {S : Type} (f : S -> JsValue -> Result S)
    (v : JsValue) (acc : S) : Result S :=
  match v with
  | JsArray items => forEach_items f items acc
  | JsUndefined | JsNull =>
      Throw (TypeError "Cannot read properties of undefined (reading 'forEach')")
  | _ => Throw (TypeError "forEach is not a function")
  end.

(** ** Severity bucketing ([parseVulnerabilities], bin/vulners-api.js) *)

Record Finding : Type := mkFinding {
  title : JsValue;
  description : JsValue;
  ai_score : JsValue;
  cvss_score : JsValue;
  cvss_severity : JsValue
}.

(** The [vulnerabilities] object literal. *)
Definition empty_buckets : gmap string (list Finding) :=
  <["low" := []]> (<["medium" := []]> (<["high" := []]> (<["critical" := []]> ∅))).

(** [vulnerability.metrics.cvss.severity] *)
Definition severity_of (vulnerability : JsValue) : Result JsValue :=
  let* metrics := get "metrics" vulnerability in
  let* cvss := get "cvss" metrics in
  get "severity" cvss.

(** The object pushed onto a bucket. *)
Definition finding_of (vulnerability : JsValue) : Result Finding :=
  let* title := get "title" vulnerability in
  let* short_description := get "short_description" vulnerability in
  let* ai_score := get "ai_score" vulnerability in
  let* metrics := get "metrics" vulnerability in
  let* cvss := get "cvss" metrics in
  let* score := get "score" cvss in
  let* severity := get "severity" cvss in
  Ok {| title := title; description := short_description; ai_score := ai_score;
        cvss_score := score; cvss_severity := severity |}.

(** The inner callback.  [vulnerabilities[severity]] is [undefined] for a key
    other than the four own ones, or, for [constructor] and [__proto__], an
    inherited object without [push]; the call throws a [TypeError] in both
    cases. *)
Definition bucket_vulnerability (vulnerabilities : gmap string (list Finding))
    (vulnerability : JsValue) : Result (gmap string (list Finding)) :=
  let* raw := severity_of vulnerability in
  let* severity := call_toLowerCase raw in
  match vulnerabilities !! severity with
  | Some bucket =>
      let* finding := finding_of vulnerability in
      Ok (<[severity := bucket ++ [finding]]> vulnerabilities)
  | None => Throw (TypeError "Cannot read properties of undefined (reading 'push')")
  end.

(** The outer callback. *)
Definition bucket_result (vulnerabilities : gmap string (list Finding))
    (res : JsValue) : Result (gmap string (list Finding)) :=
  let* vulns := get "vulnerabilities" res in
  forEach bucket_vulnerability vulns vulnerabilities.

Definition parseVulnerabilities (result : JsValue)
    : Result (gmap string (list Finding)) :=
  if truthy result then
    let* results := get "result" result in
    if truthy results then forEach bucket_result results empty_buckets
    else Ok empty_buckets
  else Ok empty_buckets.

(** ** Console output

    One line per [console.log], [console.warn] or [console.error] call; the
    pictograph prefix and chalk's colouring are presentation and are left
    out. *)

Inductive Stream : Type := StdLog | StdWarn | StdError.

Record LogLine : Type := mkLine {
  stream : Stream;
  text : string
}.

(** [`${host}:${port}`] *)
Definition endpoint (host : string) (port : N) : string :=
  host +:+ ":" +:+ NilEmpty.string_of_uint (N.to_uint port).

(** ** Address resolution ([getIpAddresses], the same in both revisions)

    [resolve4] is what [await dnsPromises.resolve4(hostname)] produces: the
    A records, or the error the resolver rejects with. *)
Definition getIpAddresses (hostname : string) (resolve4 : Result (list string))
    : list LogLine * Result (list string) :=
  match resolve4 with
  | Ok addressesV4 => ([], Ok addressesV4)
  | Throw error =>
      (mkLine StdError ("Error resolving hostname " +:+ hostname +:+ ": " +:+ message error)
       :: (if decide (code error = Some "ENOTFOUND") then
             [mkLine StdError ("Could not find DNS records for " +:+ hostname +:+ ".")]
           else if decide (code error = Some "ENODATA") then
             [mkLine StdError ("DNS server responded, but no A records found for "
                               +:+ hostname +:+ ".")]
           else []),
       Ok [])
  end.

(** ** Sockets and promises

    The part of Node's [net.Socket] that the probes rely on.  A socket has an
    inactivity timer only after [setTimeout(ms)]: ['timeout'] is emitted when
    [ms] milliseconds pass without activity, and connecting or reading counts
    as activity.  An error destroys the socket before ['error'] is emitted,
    and a destroyed socket emits nothing further. *)

Inductive Promise (A : Type) : Type :=
| Pending
| Fulfilled (a : A)
| Rejected (e : JsError).
Arguments Pending {A}.
Arguments Fulfilled {A} a.
Arguments Rejected {A} e.

Inductive SocketEvent : Type :=
| Connect                  (* the connection, or the TLS session, is established *)
| Data (chunk : string)    (* a chunk arrives; [chunk] is [data.toString()] *)
| Error (err : JsError)    (* the socket fails *)
| Idle (ms : N).           (* [ms] milliseconds pass without activity *)

Record Socket : Type := mkSocket {
  timeout : option N;      (* the argument of [setTimeout], if it was called *)
  idle : N;
  destroyed : bool;        (* [socket.destroy()] *)
  ended : bool             (* [socket.end()] *)
}.

(** One [new Promise((resolve, reject) => ...)] around one socket. *)
Record Probe (A : Type) : Type := mkProbe {
  socket : Socket;
  settled : Promise A;
  console : list LogLine;
  once_data : bool         (* a [once('data')] listener is registered *)
}.
Arguments mkProbe {A}.
Arguments socket {A}.
Arguments settled {A}.
Arguments console {A}.
Arguments once_data {A}.

Module Socket.

Definition fresh (timeout : option N) : Socket :=
  {| timeout := timeout; idle := 0; destroyed := false; ended := false |}.

Definition start {A : Type} (timeout : option N) : Probe A :=
  {| socket := fresh timeout; settled := Pending; console := []; once_data := false |}.

Definition with_socket {A : Type} (f : Socket -> Socket) (p : Probe A) : Probe A :=
  mkProbe (f (socket p)) (settled p) (console p) (once_data p).

Definition destroy {A : Type} : Probe A -> Probe A :=
  with_socket (fun s => mkSocket (timeout s) (idle s) true (ended s)).

Definition end_ {A : Type} : Probe A -> Probe A :=
  with_socket (fun s => mkSocket (timeout s) (idle s) (destroyed s) true).

Definition set_idle {A : Type} (ms : N) : Probe A -> Probe A :=
  with_socket (fun s => mkSocket (timeout s) ms (destroyed s) (ended s)).

Definition once {A : Type} (on : bool) (p : Probe A) : Probe A :=
  mkProbe (socket p) (settled p) (console p) on.

(** Settling a promise a second time has no effect. *)
Definition settle {A : Type} (outcome : Promise A) (p : Probe A) : Probe A :=
  match settled p with
  | Pending => mkProbe (socket p) outcome (console p) (once_data p)
  | _ => p
  end.

Definition resolve {A : Type} (a : A) : Probe A -> Probe A := settle (Fulfilled a).
Definition reject {A : Type} (e : JsError) : Probe A -> Probe A := settle (Rejected e).

Definition print {A : Type} (to : Stream) (msg : string) (p : Probe A) : Probe A :=
  mkProbe (socket p) (settled p) (console p ++ [mkLine to msg]) (once_data p).

(** The listeners a probe registers; [on_timeout] is [None] when the probe
    registers none. *)
Record Listeners (A : Type) : Type := mkListeners {
  on_connect : Probe A -> Probe A;
  on_data : string -> Probe A -> Probe A;
  on_error : JsError -> Probe A -> Probe A;
  on_timeout : option (Probe A -> Probe A)
}.
Arguments on_connect {A}.
Arguments on_data {A}.
Arguments on_error {A}.
Arguments on_timeout {A}.

(** The runtime hands one event to the listeners. *)
Definition deliver {A : Type} (l : Listeners A) (p : Probe A) (ev : SocketEvent)
    : Probe A :=
  if destroyed (socket p) then p
  else
    match ev with
    | Connect => on_connect l (set_idle 0 p)
    | Data chunk =>
        if once_data p then on_data l chunk (once false (set_idle 0 p))
        else set_idle 0 p
    | Error err => on_error l err (destroy p)
    | Idle ms =>
        let before := idle (socket p) in
        let p' := set_idle (before + ms) p in
        match timeout (socket p), on_timeout l with
        | Some limit, Some listener =>
            if (before <? limit)%N && (limit <=? before + ms)%N then listener p' else p'
        | _, _ => p'
        end
    end.

Definition run {A : Type} (l : Listeners A) (init : Probe A)
    (events : list SocketEvent) : Probe A :=
  fold_left (deliver l) events init.

End Socket.

(** ** The banner prober and the service checks of the current network module *)

(** [getHostBanner(host, port)]: the state of its promise and socket after the
    given events. *)
Definition getHostBanner_listeners : Socket.Listeners string :=
  {| Socket.on_connect := Socket.once true;
     Socket.on_data := fun data p => Socket.resolve data (Socket.destroy p);
     Socket.on_error := fun err p => Socket.reject err (Socket.destroy p);
     Socket.on_timeout := Some (fun p =>
       Socket.reject (mkError None "Connection timed out") (Socket.destroy p)) |}.

Definition getHostBanner (host : string) (port : N) (events : list SocketEvent)
    : Probe string :=
  Socket.run getHostBanner_listeners (Socket.start (Some 5000%N)) events.

(** The [catch] test shared by the database and the mail check. *)
Definition timed_out_or_refused (error : JsError) : bool :=
  JsString.includes (message error) "Connection timed out"
  || JsString.includes (message error) "ECONNREFUSED".

(** [testMySQLService(host, port = 3306)]: console output and the promise the
    [async] function returns. *)
Definition testMySQLService (host : string) (port : N) (events : list SocketEvent)
    : list LogLine * Promise bool :=
  match settled (getHostBanner host port events) with
  | Pending => ([], Pending)
  | Fulfilled banner =>
      if truthy (JsStr banner) then
        ([mkLine StdWarn ("MySQL service is exposed on " +:+ endpoint host port)],
         Fulfilled false)
      else ([], Fulfilled false)
  | Rejected error =>
      if timed_out_or_refused error then
        ([mkLine StdLog ("MySQL service is not exposed on " +:+ endpoint host port)],
         Fulfilled true)
      else
        ([mkLine StdError ("Error connecting to " +:+ endpoint host port +:+ ": "
                           +:+ message error)],
         Fulfilled false)
  end.

(** [testEmailServiceWithoutTLS(host, port = 25)] *)
Definition testEmailServiceWithoutTLS (host : string) (port : N)
    (events : list SocketEvent) : list LogLine * Promise bool :=
  match settled (getHostBanner host port events) with
  | Pending => ([], Pending)
  | Fulfilled banner =>
      if JsString.includes banner "ESMTP" && negb (JsString.includes banner "STARTTLS") then
        ([mkLine StdWarn ("Email service on " +:+ endpoint host port
                          +:+ " does not support SSL/TLS")],
         Fulfilled false)
      else
        ([mkLine StdLog ("Email service on " +:+ endpoint host port
                         +:+ " supports SSL/TLS")],
         Fulfilled true)
  | Rejected error =>
      if timed_out_or_refused error then
        ([mkLine StdLog ("Email service is not exposed on " +:+ endpoint host port)],
         Fulfilled true)
      else
        ([mkLine StdError ("Error connecting to " +:+ endpoint host port +:+ ": "
                           +:+ message error)],
         Fulfilled false)
  end.

(** What [socket.getPeerCertificate()] returns: the empty object when the peer
    presented no certificate, otherwise an object whose [issuer] and [subject]
    carry a [CN] property. *)
Inductive PeerCertificate : Type :=
| NoCertificate
| Certificate (issuer_CN subject_CN : JsValue).

(** [===] on the values a [CN] can hold; two arrays or objects are never the
    same one here. *)
Definition strict_equals (a b : JsValue) : bool :=
  match a, b with
  | JsUndefined, JsUndefined => true
  | JsNull, JsNull => true
  | JsBool x, JsBool y => Bool.eqb x y
  | JsNumber x, JsNumber y => Qeq_bool x y
  | JsStr x, JsStr y => String.eqb x y
  | _, _ => false
  end.

(** [testSelfSignedCertificate(host, port = 443)]: [tls.connect] with a
    connect listener and an ['error'] listener; no [setTimeout], no
    ['timeout'] listener. *)
Definition testSelfSignedCertificate_listeners (host : string) (port : N)
    (cert : PeerCertificate) : Socket.Listeners bool :=
  {| Socket.on_connect := fun p =>
       let self_signed :=
         match cert with
         | NoCertificate => false
         | Certificate issuer_CN subject_CN => strict_equals issuer_CN subject_CN
         end in
       Socket.end_
         (if self_signed then
            Socket.resolve false
              (Socket.print StdWarn
                 ("Self-signed certificate detected on " +:+ endpoint host port) p)
          else
            Socket.resolve true
              (Socket.print StdLog
                 ("Valid certificate detected on " +:+ endpoint host port) p));
     Socket.on_data := fun _ p => p;
     Socket.on_error := fun err p =>
       Socket.resolve false
         (Socket.print StdError
            ("Error connecting to " +:+ endpoint host port +:+ ": " +:+ message err) p);
     Socket.on_timeout := None |}.

Definition testSelfSignedCertificate (host : string) (port : N)
    (cert : PeerCertificate) (events : list SocketEvent) : Probe bool :=
  Socket.run (testSelfSignedCertificate_listeners host port cert)
             (Socket.start None) events.

(** ** The database check of bin/network.js *)

Module BinNetwork.

(** [testMySQLService(host, port = 3306)] with its own socket. *)
Definition testMySQLService_listeners (host : string) (port : N)
    : Socket.Listeners bool :=
  {| Socket.on_connect := fun p =>
       Socket.resolve false
         (Socket.destroy
            (Socket.print StdWarn
               ("MySQL service is exposed on " +:+ endpoint host port) p));
     Socket.on_data := fun _ p => p;
     Socket.on_error := fun _ p =>
       Socket.resolve true
         (Socket.print StdLog
            ("MySQL service is not exposed on " +:+ endpoint host port) p);
     Socket.on_timeout := Some (fun p =>
       Socket.resolve true
         (Socket.destroy
            (Socket.print StdLog
               ("MySQL service is not exposed on " +:+ endpoint host port) p))) |}.

Definition testMySQLService (host : string) (port : N)
    (events : list SocketEvent) : Probe bool :=
  Socket.run (testMySQLService_listeners host port) (Socket.start (Some 5000%N)) events.

(** [/OpenSSH_([\d.]+)/] *)
Definition openssh_regex : Regex.t :=
  Regex.literal "OpenSSH_" ++ [Regex.Group Regex.digit_or_dot].

(** [testEmailServiceWithoutTLS(host, port = 25)] with its own socket. *)
Definition testEmailServiceWithoutTLS_listeners (host : string) (port : N)
    : Socket.Listeners bool :=
  {| Socket.on_connect := Socket.once true;
     Socket.on_data := fun banner p =>
       Socket.destroy
         (if JsString.includes banner "ESMTP" && negb (JsString.includes banner "STARTTLS")
          then
            Socket.resolve false
              (Socket.print StdWarn
                 ("Email service on " +:+ endpoint host port
                  +:+ " does not support SSL/TLS") p)
          else
            Socket.resolve true
              (Socket.print StdLog
                 ("Email service on " +:+ endpoint host port +:+ " supports SSL/TLS") p));
     Socket.on_error := fun _ p =>
       Socket.resolve true
         (Socket.print StdLog
            ("Email service is not exposed on " +:+ endpoint host port) p);
     Socket.on_timeout := Some (fun p =>
       Socket.resolve true
         (Socket.destroy
            (Socket.print StdLog
               ("Email service is not exposed on " +:+ endpoint host port) p))) |}.

Definition testEmailServiceWithoutTLS (host : string) (port : N)
    (events : list SocketEvent) : Probe bool :=
  Socket.run (testEmailServiceWithoutTLS_listeners host port)
             (Socket.start (Some 5000%N)) events.

(** [testOpenSSHVersion(host, port = 22)] of bin/network.js: the version is
    group 1 of the match and is compared with ['8.9p1'];
    [undefined === '8.9p1'] is false. *)
Definition testOpenSSHVersion_listeners (host : string) (port : N)
    : Socket.Listeners bool :=
  {| Socket.on_connect := Socket.once true;
     Socket.on_data := fun banner p =>
       Socket.destroy
         (match Regex.search false openssh_regex banner with
          | Some versionMatch =>
              let version := versionMatch !! 0 in
              if decide (version = Some "8.9p1") then
                Socket.resolve false
                  (Socket.print StdWarn
                     ("Vulnerable OpenSSH version detected on " +:+ endpoint host port
                      +:+ ": " +:+ default "undefined" version) p)
              else
                Socket.resolve true
                  (Socket.print StdLog
                     ("OpenSSH version on " +:+ endpoint host port +:+ " is secure: "
                      +:+ default "undefined" version) p)
          | None =>
              Socket.resolve false
                (Socket.print StdWarn
                   ("Unable to determine OpenSSH version on " +:+ endpoint host port) p)
          end);
     Socket.on_error := fun _ p =>
       Socket.resolve true
         (Socket.print StdLog
            ("SSH service is not exposed on " +:+ endpoint host port) p);
     Socket.on_timeout := Some (fun p =>
       Socket.resolve true
         (Socket.destroy
            (Socket.print StdLog
               ("SSH service is not exposed on " +:+ endpoint host port) p))) |}.

Definition testOpenSSHVersion (host : string) (port : N)
    (events : list SocketEvent) : Probe bool :=
  Socket.run (testOpenSSHVersion_listeners host port) (Socket.start (Some 5000%N)) events.

End BinNetwork.

(** ** Notions used to state the properties *)

(** The longest run of [cls] characters at the start of a string. *)
Fixpoint take_while (cls : ascii -> bool) (s : string) : string :=
  match s with
  | EmptyString => EmptyString
  | String c s' => if cls c then String c (take_while cls s') else EmptyString
  end.

(** The number of capturing groups of a pattern. *)
Fixpoint groups_of (r : Regex.t) : nat :=
  match r with
  | [] => 0
  | Regex.Group _ :: r' => S (groups_of r')
  | _ :: r' => groups_of r'
  end.

(** Splitting a token at its first separator, in the words of the
    specification of software inference: the text before the separator and
    all the text after it. *)
Fixpoint split_first (sep : ascii) (s : string) : string * string :=
  match s with
  | EmptyString => (EmptyString, EmptyString)
  | String c s' =>
      if Ascii.eqb c sep then (EmptyString, s')
      else let (before, after) := split_first sep s' in (String c before, after)
  end.

Definition no_underscore (s : string) : bool :=
  JsString.all_chars (fun c => negb (Ascii.eqb c "_")) s.

(** The four severities, the keys of the result of [parseVulnerabilities]. *)
Definition severities : list string := ["low"; "medium"; "high"; "critical"].

Definition is_severity (key : string) : bool :=
  existsb (String.eqb key) severities.

(** The findings of a response in response order: the [vulnerabilities]
    arrays of the entries of the result list, one after the other. *)
Definition vulnerabilities_of (res : JsValue) : list JsValue :=
  match get "vulnerabilities" res with
  | Ok (JsArray vulns) => vulns
  | _ => []
  end.

Definition findings_of_response (results : list JsValue) : list JsValue :=
  flat_map vulnerabilities_of results.

(** The bucket key of a finding: its severity in lower case. *)
Definition severity_key (vulnerability : JsValue) : option string :=
  match severity_of vulnerability with
  | Ok (JsStr s) => Some (JsString.toLowerCase s)
  | _ => None
  end.

(** The findings with the given key, in the order of the list. *)
Fixpoint expected_bucket (key : string) (vulns : list JsValue) : list Finding :=
  match vulns with
  | [] => []
  | v :: rest =>
      match severity_key v, finding_of v with
      | Some k, Ok finding =>
          if String.eqb k key then finding :: expected_bucket key rest
          else expected_bucket key rest
      | _, _ => expected_bucket key rest
      end
  end.

(** A finding as the audit API sends it. *)
Definition api_finding (title severity : string) (score : Q) : JsValue :=
  JsObject [ ("title", JsStr title);
             ("short_description", JsStr (title +:+ " (summary)"));
             ("ai_score", JsObject [("value", JsNumber score)]);
             ("metrics", JsObject [("cvss", JsObject [("score", JsNumber score);
                                                        ("severity", JsStr severity)])]) ].

Definition api_response (entries : list (list JsValue)) : JsValue :=
  JsObject [ ("result",
              JsArray (map (fun vulns => JsObject [("vulnerabilities", JsArray vulns)])
                           entries)) ].

Definition sample_response : JsValue :=
  api_response [ [ api_finding "CVE-A" "HIGH" (7 # 1); api_finding "CVE-B" "low" (2 # 1) ];
                 [];
                 [ api_finding "CVE-C" "High" (8 # 1) ] ].

(** Errors as Node words them for a failed [connect] and a failed read. *)
Definition connection_refused : JsError :=
  {| code := Some "ECONNREFUSED"; message := "connect ECONNREFUSED 203.0.113.7:3306" |}.

Definition host_unreachable : JsError :=
  {| code := Some "EHOSTUNREACH"; message := "connect EHOSTUNREACH 203.0.113.7:3306" |}.

Definition connection_reset : JsError :=
  {| code := Some "ECONNRESET"; message := "read ECONNRESET" |}.

(** What the buckets hold while the response is walked: exactly the four
    keys, with the lists [f] names. *)
Definition buckets_are (acc : gmap string (list Finding))
    (f : string -> list Finding) : Prop :=
  forall key, acc !! key = if is_severity key then Some (f key) else None.

(** A finding whose severity is one of the four, up to case. *)
Definition recognized (vulnerability : JsValue) : Prop :=
  exists s, severity_of vulnerability = Ok (JsStr s)
            /\ is_severity (JsString.toLowerCase s) = true.

(** The buckets keep their four keys along the walk, whatever the response
    holds. *)
Definition has_severity_keys (acc : gmap string (list Finding)) : Prop :=
  exists f, buckets_are acc f.

(** The banner prober destroys its socket exactly when it settles. *)
Definition closed_when_settled {A : Type} (p : Probe A) : Prop :=
  match settled p with
  | Pending => destroyed (socket p) = false
  | _ => destroyed (socket p) = true
  end.

(** ** Text wrapping ([wrapText] of the common module, in its revision with
    one prefix for every line)

    Indices and the width are integers; [substring], [lastIndexOf] and
    [trimStart] are the methods of [String.prototype] on the strings of the
    model. *)

Module Wrap.

(** [s.substring(0, n)] and [s.substring(n)] for [n >= 0]. *)
Fixpoint take (n : nat) (s : string) : string :=
  match n, s with
  | S n', String c s' => String c (take n' s')
  | _, _ => EmptyString
  end.

Fixpoint drop (n : nat) (s : string) : string :=
  match n, s with
  | S n', String _ s' => drop n' s'
  | _, _ => s
  end.

(** The index of the last occurrence of [c] in [s], or -1. *)
Fixpoint last_pos (c : ascii) (s : string) : Z :=
  match s with
  | EmptyString => (-1)%Z
  | String d s' =>
      let later := last_pos c s' in
      if (0 <=? later)%Z then (later + 1)%Z
      else if Ascii.eqb d c then 0%Z else (-1)%Z
  end.

(** [s.lastIndexOf(c, from)] for [from >= 0]: the last occurrence at an index
    not above [from]. *)
Definition lastIndexOf (c : ascii) (from : Z) (s : string) : Z :=
  last_pos c (take (S (Z.to_nat from)) s).

(** [s.trimStart()] *)
Fixpoint trimStart (s : string) : string :=
  match s with
  | EmptyString => EmptyString
  | String c s' => if Regex.space c then trimStart s' else s
  end.

(** [lines.join('\n')] *)
Fixpoint join (lines : list string) : string :=
  match lines with
  | [] => EmptyString
  | [line] => line
  | line :: rest => line +:+ String "010" (join rest)
  end.

Definition len (s : string) : Z := Z.of_nat (String.length s).

(** [ToIntegerOrInfinity] of a finite number: the fraction is dropped.
    [substring] and [lastIndexOf] apply it to a position and then take a
    negative result for 0. *)
Definition ToInteger (position : Q) : Z := (Qnum position ÷ Zpos (Qden position))%Z.

Definition index (position : Q) : nat := Z.to_nat (ToInteger position).

(** [0 < x] *)
Definition positive (x : Q) : bool := negb (Qle_bool x 0).

(** Where the current text is cut: the last space at an index up to the
    available width, else the available width itself, and one character when
    the prefix leaves no room.  The cut is a number like the width: an
    available width between 0 and 1 passes both [<= 0] tests as it is. *)
Definition wrapPoint (availableWidth : Q) (currentText : string) : Q :=
  let wrapPointInCurrent :=
    if positive availableWidth
    then lastIndexOf " " (ToInteger availableWidth) currentText
    else (-1)%Z in
  if (wrapPointInCurrent <=? 0)%Z then
    let hard := if positive availableWidth then availableWidth else 0%Q in
    if Qle_bool hard 0 then 1%Q else hard
  else inject_Z wrapPointInCurrent.

(** The [while (currentText.length > 0)] loop; [fuel] bounds the number of
    rounds and [None] means that it ran out.  The width is a number and
    need not be whole: it ranges over the rationals, which hold every finite
    number ([NaN] and [-Infinity] act like a negative width, [Infinity] like
    a width that the text fits). *)
Fixpoint loop (fuel : nat) (width : Q) (linePrefix currentText : string)
    (lines : list string) : option (list string) :=
  match currentText with
  | EmptyString => Some lines
  | String _ _ =>
      if Qle_bool (inject_Z (len (linePrefix +:+ currentText))) width then
        Some (lines ++ [linePrefix +:+ currentText])
      else
        match fuel with
        | O => None
        | S fuel' =>
            let cut := index (wrapPoint (width - inject_Z (len linePrefix)) currentText) in
            loop fuel' width linePrefix (trimStart (drop cut currentText))
                 (lines ++ [linePrefix +:+ take cut currentText])
        end
  end.

(** The array [lines] when the loop is left, with one round for every
    character of the text: enough whenever the loop ends at all (see
    [wrapLines_total]). *)
Definition wrapLines (text : string) (width : Q) (linePrefix : string)
    : option (list string) :=
  loop (String.length text) width linePrefix text [].

(** [wrapText(text, width, linePrefix)] *)
Definition wrapText (text : string) (width : Q) (linePrefix : string) : option string :=
  match text with
  | EmptyString => Some EmptyString
  | _ => option_map join (wrapLines text width linePrefix)
  end.

(** The available width of a line is no fraction between 0 and 1: so it is
    for every whole width. *)
Definition room (width : Q) (linePrefix : string) : Prop :=
  (width - inject_Z (len linePrefix) <= 0 \/ 1 <= width - inject_Z (len linePrefix))%Q.

(** The text without its white space. *)
Fixpoint squeeze (s : string) : string :=
  match s with
  | EmptyString => EmptyString
  | String c s' => if Regex.space c then squeeze s' else String c (squeeze s')
  end.

(** The text of the lines without the prefix each of them starts with. *)
Fixpoint bodies (linePrefix : string) (lines : list string) : string :=
  match lines with
  | [] => EmptyString
  | line :: rest => drop (String.length linePrefix) line +:+ bodies linePrefix rest
  end.

End Wrap.

(** The classes of the capturing groups of a pattern, in order. *)
Fixpoint group_classes (r : Regex.t) : list (ascii -> bool) :=
  match r with
  | [] => []
  | Regex.Group cls :: r' => cls :: group_classes r'
  | _ :: r' => group_classes r'
  end.

(** A capture of a group: not empty, and all of its characters in the class. *)
Definition captured_by (cls : ascii -> bool) (capture : string) : Prop :=
  capture <> "" /\ JsString.all_chars cls capture = true.

(** A pattern whose classes do not look at the case of a letter. *)
Fixpoint case_blind (r : Regex.t) : Prop :=
  match r with
  | [] => True
  | Regex.Chr _ :: r' => case_blind r'
  | Regex.Opt cls :: r' | Regex.Plus cls :: r' | Regex.Group cls :: r' =>
      (forall c, cls (JsString.toLowerChar c) = cls c) /\ case_blind r'
  end.

(** A character that may stand in a piece of the software token: no white
    space and no underscore. *)
Definition token_char (c : ascii) : bool :=
  Regex.non_space c && negb (Ascii.eqb c "_").

(** The verdict of the mail check on a banner. *)
Definition mail_verdict (banner : string) : bool :=
  negb (JsString.includes banner "ESMTP" && negb (JsString.includes banner "STARTTLS")).

(** A warning that reports a vulnerable OpenSSH version. *)
Definition reports_vulnerable (line : LogLine) : bool :=
  match stream line with
  | StdWarn => JsString.startsWith (text line) "Vulnerable OpenSSH version detected"
  | _ => false
  end.

(** The verdict of the certificate check once the session is established. *)
Definition certificate_verdict (cert : PeerCertificate) : bool :=
  match cert with
  | NoCertificate => true
  | Certificate issuer_CN subject_CN => negb (strict_equals issuer_CN subject_CN)
  end.

(** What the mail check of bin/network.js makes of the outcome of a banner
    probe. *)
Definition mail_outcome (outcome : Promise string) : Promise bool :=
  match outcome with
  | Pending => Pending
  | Fulfilled banner => Fulfilled (mail_verdict banner)
  | Rejected _ => Fulfilled true
  end.

(** ** Text wrapping, the revision of [wrapText] that indents only the lines
    after the first *)

Module WrapIndent.

(** The [if (wrapPointInCurrent <= 0) { ... }] block: the lines after it and
    the cut.  With no room behind the indent a line that holds the indent cut
    to the width is pushed first (except on the first line), and one
    character is taken. *)
Definition wrapPoint (width : Q) (linePrefix currentText : string) (isFirstLine : bool)
    (lines : list string) : list string * Q :=
  let availableWidth := (width - inject_Z (Wrap.len linePrefix))%Q in
  let wrapPointInCurrent :=
    if Wrap.positive availableWidth
    then Wrap.lastIndexOf " " (Wrap.ToInteger availableWidth) currentText
    else (-1)%Z in
  if (wrapPointInCurrent <=? 0)%Z then
    let hard := if Wrap.positive availableWidth then availableWidth else 0%Q in
    if Qle_bool hard 0 && negb isFirstLine then
      (lines ++ [Wrap.take (Wrap.index width) linePrefix],
       if Qeq_bool hard 0 then 1%Q else hard)
    else if Qle_bool hard 0 && isFirstLine then (lines, 1%Q)
    else (lines, hard)
  else (lines, inject_Z wrapPointInCurrent).

Definition is_empty {A : Type} (l : list A) : bool :=
  match l with
  | [] => true
  | _ => false
  end.

Fixpoint loop (fuel : nat) (width : Q) (subsequentIndent currentText : string)
    (lines : list string) : option (list string) :=
  match currentText with
  | EmptyString => Some lines
  | String _ _ =>
      let isFirstLine := is_empty lines in
      let linePrefix := if isFirstLine then EmptyString else subsequentIndent in
      if Qle_bool (inject_Z (Wrap.len (linePrefix +:+ currentText))) width then
        Some (lines ++ [linePrefix +:+ currentText])
      else
        match fuel with
        | O => None
        | S fuel' =>
            let (lines', point) := wrapPoint width linePrefix currentText isFirstLine lines in
            let cut := Wrap.index point in
            loop fuel' width subsequentIndent (Wrap.trimStart (Wrap.drop cut currentText))
                 (lines' ++ [linePrefix +:+ Wrap.take cut currentText])
        end
  end.

Definition wrapLines (text : string) (width : Q) (subsequentIndent : string)
    : option (list string) :=
  loop (String.length text) width subsequentIndent text [].

(** [wrapText(text, width, subsequentIndent)] *)
Definition wrapText (text : string) (width : Q) (subsequentIndent : string)
    : option string :=
  match text with
  | EmptyString => Some EmptyString
  | _ => option_map Wrap.join (wrapLines text width subsequentIndent)
  end.

End WrapIndent.

(** ** The vulnerability lookup ([queryVulnersAPI], bin/vulners-api.js) *)

(** The body of the request: [{ software, operating_system, fields }]. *)
Record VulnerabilityQuery : Type := mkQuery {
  query_software : list Cpe;
  query_operating_system : Cpe;
  query_fields : list string
}.

(** What [await fetch(...)] and [await response.json()] come to: no answer
    yet, a rejected [fetch], or a response with its [ok] flag, its status and
    the outcome of parsing its body. *)
Inductive Fetched : Type :=
| NoAnswer
| FetchFailed (error : JsError)
| Answered (ok : bool) (status : N) (json : Result JsValue).

Definition show_N (n : N) : string := NilEmpty.string_of_uint (N.to_uint n).

(** [queryVulnersAPI(query)]: [None] while the request is pending, else the
    console output and the result or the exception. *)
Definition queryVulnersAPI (fetched : Fetched) : option (list LogLine * Result JsValue) :=
  let rethrow (error : JsError) :=
    Some ([mkLine StdError ("Error querying Vulners API: " +:+ message error)],
          Throw error) in
  match fetched with
  | NoAnswer => None
  | FetchFailed error => rethrow error
  | Answered false status _ =>
      rethrow (mkError None ("Vulners API request failed with status " +:+ show_N status))
  | Answered true _ (Throw error) => rethrow error
  | Answered true _ (Ok result) => Some ([], Ok result)
  end.

(** ** The SSH check of the current network module ([testOpenSSHVersion]) *)

(** What the check leaves behind: the console lines, the queries sent to the
    audit service, and its promise. *)
Record Scan : Type := mkScan {
  output : list LogLine;
  requests : list VulnerabilityQuery;
  finished : Promise unit
}.

Definition trimEnd_step (c : ascii) (rest : string) : string :=
  match rest with
  | EmptyString => if Regex.space c then EmptyString else String c EmptyString
  | _ => String c rest
  end.

(** [s.trimEnd()] and [s.trim()] *)
Fixpoint trimEnd (s : string) : string :=
  match s with
  | EmptyString => EmptyString
  | String c s' => trimEnd_step c (trimEnd s')
  end.

Definition trim (s : string) : string := trimEnd (Wrap.trimStart s).

(** [x || 'N/A'] *)
Definition or_NA (x : JsValue) : JsValue := if truthy x then x else JsStr "N/A".

(** [vuln.ai_score?.value]: [undefined] for [null] and [undefined], and for a
    value that is no object. *)
Definition ai_score_value (ai_score : JsValue) : JsValue :=
  match ai_score with
  | JsObject props => assoc "value" props
  | _ => JsUndefined
  end.

(** ** Conversion to a string

    [ToString] as a template literal applies it, on the values a parsed JSON
    document is made of.  An array is joined with commas, with nothing for a
    [null] or [undefined] element.  An object without a property [toString]
    of its own inherits the one of [Object.prototype]; with an own
    [toString], which is never a function in parsed JSON, the conversion
    falls back on [valueOf], which gives no primitive either, and throws. *)

Definition has_own (name : string) (props : list (string * JsValue)) : bool :=
  existsb (fun prop => String.eqb (fst prop) name) props.

Section Conversion.

(** [Number::toString] of a finite number. *)
Variable NumberToString : Q -> string.

Fixpoint ToString (v : JsValue) : Result string :=
  match v with
  | JsUndefined => Ok "undefined"
  | JsNull => Ok "null"
  | JsBool true => Ok "true"
  | JsBool false => Ok "false"
  | JsNaN => Ok "NaN"
  | JsNumber q => Ok (NumberToString q)
  | JsStr s => Ok s
  | JsArray items =>
      (fix join (items : list JsValue) : Result string :=
         let element (item : JsValue) : Result string :=
           match item with
           | JsUndefined | JsNull => Ok EmptyString
           | _ => ToString item
           end in
         match items with
         | [] => Ok EmptyString
         | [item] => element item
         | item :: rest =>
             let* first := element item in
             let* others := join rest in
             Ok (first +:+ "," +:+ others)
         end) items
  | JsObject props =>
      if has_own "toString" props
      then Throw (TypeError "Cannot convert object to primitive value")
      else Ok "[object Object]"
  end.

End Conversion.

(** ** Console output of statements that may throw

    What a run of statements leaves behind: the lines it wrote, and its value
    or the exception that ended it. *)

Definition Printed (A : Type) : Type := (list LogLine * Result A)%type.

Definition emit (s : Stream) (text : string) : Printed unit := ([mkLine s text], Ok tt).

Definition evaluate {A : Type} (m : Result A) : Printed A := ([], m).

Definition and_then_print {A B : Type} (m : Printed A) (k : A -> Printed B) : Printed B :=
  match m with
  | (lines, Ok a) => let (more, outcome) := k a in (lines ++ more, outcome)
  | (lines, Throw e) => (lines, Throw e)
  end.

Notation "'do*' x ':=' m 'in' k" := (and_then_print m (fun x => k))
  (at level 10, x name, m at level 100, k at level 200).

(** A loop over a list whose body prints and may throw. *)
Fixpoint for_each {A : Type} (body : A -> Printed unit) (xs : list A) : Printed unit :=
  match xs with
  | [] => ([], Ok tt)
  | x :: rest => do* _ := body x in for_each body rest
  end.

(** [xs.map(f)] with a callback that may throw. *)
Fixpoint map_result {A B : Type} (f : A -> Result B) (xs : list A) : Result (list B) :=
  match xs with
  | [] => Ok []
  | x :: rest =>
      let* y := f x in
      let* ys := map_result f rest in
      Ok (y :: ys)
  end.

Section Presentation.

(** [table(data, config)] of the table package, which may throw, and
    [Number::toString]. *)
Variable table : list (list JsValue) -> Result string.
Variable NumberToString : Q -> string.

(** One row of the table; the label is the severity as chalk converts it to
    a string. *)
Definition table_row (vuln : Finding) : Result (list JsValue) :=
  let* label := ToString NumberToString (cvss_severity vuln) in
  Ok [ title vuln;
       or_NA (ai_score_value (ai_score vuln));
       or_NA (cvss_score vuln);
       JsStr label ].

Definition table_headers : list JsValue :=
  [JsStr "Title"; JsStr "AI Score"; JsStr "CVSS Score"; JsStr "CVSS Severity"].

(** [Object.entries(vulnerabilities)]: the four keys in the order of the
    object literal. *)
Definition entries (vulnerabilities : gmap string (list Finding))
    : list (string * list Finding) :=
  map (fun severity => (severity, default [] (vulnerabilities !! severity))) severities.

(** The first loop over the entries: the header row and one row for every
    finding. *)
Definition table_data (vulnerabilities : gmap string (list Finding))
    : Result (list (list JsValue)) :=
  let* rows := map_result table_row (flat_map snd (entries vulnerabilities)) in
  Ok (table_headers :: rows).

(** [`- ${vuln.title}: ${vuln.description} (CVSS: ${vuln.cvss_score})`] *)
Definition finding_text (vuln : Finding) : Result string :=
  let* title := ToString NumberToString (title vuln) in
  let* description := ToString NumberToString (description vuln) in
  let* cvss_score := ToString NumberToString (cvss_score vuln) in
  Ok ("- " +:+ title +:+ ": " +:+ description +:+ " (CVSS: " +:+ cvss_score +:+ ")").

(** The body of the second loop over the entries: a heading and one wrapped
    line for every finding, or the line that nothing was found. *)
Definition severity_lines (host : string) (port : N) (entry : string * list Finding)
    : Printed unit :=
  let (severity, vulns) := entry in
  match vulns with
  | [] =>
      emit StdLog ("No " +:+ severity +:+ " severity vulnerabilities found for "
                   +:+ endpoint host port)
  | _ =>
      do* _ := emit StdLog (String "010" ("Found " +:+ show_N (N.of_nat (length vulns))
                                          +:+ " " +:+ severity
                                          +:+ " severity vulnerabilities:")) in
      for_each (fun vuln =>
                  do* text := evaluate (finding_text vuln) in
                  emit StdLog (default "" (Wrap.wrapText text 100%Q "")))
               vulns
  end.

(** The [try] block from the answer of the audit service on: the console
    lines it wrote, and whether it came to its end or which exception
    reached the [catch]. *)
Definition report (host : string) (port : N) (result : JsValue) : Printed unit :=
  let valid :=
    if truthy result then
      match get "result" result with
      | Ok r => truthy r
      | Throw _ => false
      end
    else false in
  if valid then
    do* vulnerabilities := evaluate (parseVulnerabilities result) in
    do* data := evaluate (table_data vulnerabilities) in
    do* rendered := evaluate (table data) in
    do* _ := emit StdLog (trim rendered) in
    for_each (severity_lines host port) (entries vulnerabilities)
  else emit StdError "No valid response from Vulners API.".

(** The line of the [catch] block. *)
Definition processing_error (host : string) (port : N) (error : JsError) : LogLine :=
  mkLine StdError ("Error processing OpenSSH version for " +:+ endpoint host port
                   +:+ ": " +:+ message error).

Definition ssh_query (banner : string) : VulnerabilityQuery :=
  let systemDetails := inferSystemDetails banner in
  {| query_software := software systemDetails;
     query_operating_system := operating_system systemDetails;
     query_fields := ["title"; "short_description"; "cvelist"; "ai_score"; "metrics"] |}.

(** [testOpenSSHVersion(host, port = 22)]; [api] is the audit service. *)
Definition testOpenSSHVersion (host : string) (port : N) (events : list SocketEvent)
    (api : VulnerabilityQuery -> Fetched) : Scan :=
  match settled (getHostBanner host port events) with
  | Pending => mkScan [] [] Pending
  | Rejected error => mkScan [processing_error host port error] [] (Fulfilled tt)
  | Fulfilled banner =>
      let query := ssh_query banner in
      match queryVulnersAPI (api query) with
      | None => mkScan [] [query] Pending
      | Some (lines, Throw error) =>
          mkScan (lines ++ [processing_error host port error]) [query] (Fulfilled tt)
      | Some (lines, Ok result) =>
          match report host port result with
          | (reported, Ok _) => mkScan (lines ++ reported) [query] (Fulfilled tt)
          | (reported, Throw error) =>
              mkScan (lines ++ reported ++ [processing_error host port error]) [query]
                     (Fulfilled tt)
          end
      end
  end.



End Presentation.

(** A number printer and a table printer to run the SSH check with: the
    whole part of a number, and one line per row. *)
Definition plain_number (q : Q) : string := show_N (Z.to_N (Qfloor q)).

Definition plain_cell (v : JsValue) : string :=
  match ToString plain_number v with
  | Ok s => s
  | Throw _ => EmptyString
  end.

Definition plain_table (rows : list (list JsValue)) : Result string :=
  Ok (Wrap.join (map (fun row => Wrap.join (map plain_cell row)) rows)).

(** An audit service that answers every query with the same response. *)
Definition answering (response : JsValue) (query : VulnerabilityQuery) : Fetched :=
  Answered true 200 (Ok response).

(** A finding whose title, description and score all convert to a string. *)
Definition printable (NumberToString : Q -> string) (vuln : Finding) : bool :=
  match finding_text NumberToString vuln with
  | Ok _ => true
  | Throw _ => false
  end.

(** The findings in the order of the report. *)
Definition listed (vulnerabilities : gmap string (list Finding)) : list Finding :=
  flat_map snd (entries vulnerabilities).

(** A response with one finding whose description is an object with a
    property [toString]. *)
Definition odd_response : JsValue :=
  api_response
    [ [ JsObject [ ("title", JsStr "CVE-E");
                   ("short_description", JsObject [("toString", JsNumber 1)]);
                   ("ai_score", JsNull);
                   ("metrics", JsObject [("cvss", JsObject [("score", JsNumber 7);
                                                              ("severity", JsStr "high")])]) ] ] ].

(** ** The network tests of one address (the loop body of the main script) *)

(** What the four services of an address do when they are probed. *)
Record Traffic : Type := mkTraffic {
  database_events : list SocketEvent;
  peer_certificate : PeerCertificate;
  certificate_events : list SocketEvent;
  mail_events : list SocketEvent;
  ssh_events : list SocketEvent
}.

Section NetworkTests.

Variable table : list (list JsValue) -> Result string.
Variable NumberToString : Q -> string.

(** [await] of a check whose value is dropped: the rest runs once the promise
    is fulfilled. *)
Definition and_then {A : Type} (lines : list LogLine) (promise : Promise A)
    (rest : Scan) : Scan :=
  match promise with
  | Fulfilled _ => mkScan (lines ++ output rest) (requests rest) (finished rest)
  | Pending => mkScan lines [] Pending
  | Rejected error => mkScan lines [] (Rejected error)
  end.

(** [console.group(...)], then the database, the certificate, the mail and
    the SSH check of the current network module, one [await] after the
    other. *)
Definition network_tests (ipAddress : string) (traffic : Traffic)
    (api : VulnerabilityQuery -> Fetched) : Scan :=
  let database := testMySQLService ipAddress 3306 (database_events traffic) in
  let certificate :=
    testSelfSignedCertificate ipAddress 443 (peer_certificate traffic)
                              (certificate_events traffic) in
  let mail := testEmailServiceWithoutTLS ipAddress 25 (mail_events traffic) in
  let ssh := testOpenSSHVersion table NumberToString ipAddress 22 (ssh_events traffic) api in
  and_then (mkLine StdLog (String "010" ("Network Tests for " +:+ ipAddress +:+ "..."))
            :: fst database) (snd database)
    (and_then (console certificate) (settled certificate)
       (and_then (fst mail) (snd mail) ssh)).

End NetworkTests.

(** ** The checks of the security module (bin/security.js)

    The checks read a response through [headers.get(name)], which is [null]
    for an absent header, and through [headers.raw()['set-cookie']].  A
    [console.group(label)] prints its label; [console.groupEnd()] prints
    nothing. *)

Module Security.

Record Response : Type := mkResponse {
  status : N;
  header : string -> option string;   (* [headers.get(name)] *)
  set_cookie : list string            (* [headers.raw()['set-cookie'] || []] *)
}.

(** [String.prototype.toUpperCase] on one code unit below 256, as the code
    units it becomes: [a-z] and U+00E0..U+00FE (without the division sign
    U+00F7) move down by 32, the sharp s becomes [SS], the micro sign and
    the y with diaeresis leave the Latin-1 range. *)
Definition toUpperUnits (c : ascii) : list N :=
  let n := N_of_ascii c in
  if JsString.between 97 122 n || (JsString.between 224 254 n && negb (n =? 247)%N)
  then [(n - 32)%N]
  else if (n =? 223)%N then [83%N; 83%N]
  else if (n =? 181)%N then [924%N]
  else if (n =? 255)%N then [376%N]
  else [n].

Fixpoint toUpperCase (s : string) : list N :=
  match s with
  | EmptyString => []
  | String c s' => toUpperUnits c ++ toUpperCase s'
  end.

(** The code units of a string literal. *)
Fixpoint units (s : string) : list N :=
  match s with
  | EmptyString => []
  | String c s' => N_of_ascii c :: units s'
  end.

(** [values.includes(v)] on an array of string literals. *)
Definition one_of (values : list string) (v : string) : bool :=
  existsb (String.eqb v) values.

(** [values.includes(v.toUpperCase())] *)
Definition upper_one_of (values : list string) (v : string) : bool :=
  existsb (fun value => bool_decide (toUpperCase v = units value)) values.

Definition group (label : string) : LogLine := mkLine StdLog (String "010" label).

(** ["${value}"] *)
Definition quoted (value : string) : string :=
  String "034" (value +:+ String "034" EmptyString).

(** [testSecurityHeaders(response)] *)
Definition testSecurityHeaders (response : Response) : list LogLine :=
  [ group "Security Headers";
    match header response "referrer-policy" with
    | None | Some EmptyString => mkLine StdWarn "Missing Referrer-Policy header"
    | Some referrerPolicy =>
        if negb (one_of ["strict-origin-when-cross-origin"; "same-origin"; "no-referrer"]
                        referrerPolicy)
        then mkLine StdWarn ("Referrer-Policy is set to a less secure value: "
                             +:+ quoted referrerPolicy)
        else mkLine StdLog "Referrer-Policy is secure"
    end;
    match header response "x-frame-options" with
    | None | Some EmptyString => mkLine StdWarn "Missing X-Frame-Options header"
    | Some xFrameOptions =>
        if negb (upper_one_of ["SAMEORIGIN"; "DENY"] xFrameOptions)
        then mkLine StdWarn ("X-Frame-Options is set to an insecure value: "
                             +:+ quoted xFrameOptions)
        else mkLine StdLog "X-Frame-Options is secure"
    end;
    match header response "x-content-type-options" with
    | None | Some EmptyString => mkLine StdWarn "Missing X-Content-Type-Options header"
    | Some xContentTypeOptions =>
        if negb (String.eqb (JsString.toLowerCase xContentTypeOptions) "nosniff")
        then mkLine StdWarn ("X-Content-Type-Options is set to an insecure value: "
                             +:+ quoted xContentTypeOptions)
        else mkLine StdLog "X-Content-Type-Options is secure"
    end;
    match header response "strict-transport-security" with
    | None | Some EmptyString =>
        mkLine StdWarn "Missing Strict-Transport-Security (HSTS) header"
    | Some hsts =>
        if negb (JsString.includes hsts "max-age=31536000")
           || negb (JsString.includes hsts "includeSubDomains")
        then mkLine StdWarn ("HSTS header is not configured securely: " +:+ quoted hsts)
        else mkLine StdLog "HSTS header is secure"
    end ].

(** [testCSP(response)] *)
Definition testCSP (response : Response) : list LogLine :=
  group "Content Security Policy (CSP)" ::
  match header response "content-security-policy" with
  | None | Some EmptyString => [mkLine StdWarn "Missing Content-Security-Policy header"]
  | Some csp =>
      let hasBroadScriptSrc :=
        negb (JsString.includes csp "script-src 'self'")
        && negb (JsString.includes csp "script-src") in
      let hasBroadObjectSrc :=
        negb (JsString.includes csp "object-src 'self'")
        && negb (JsString.includes csp "object-src") in
      let hasUnsafeInline := JsString.includes csp "'unsafe-inline'" in
      let hasUnsafeEval := JsString.includes csp "'unsafe-eval'" in
      [ if negb (JsString.includes csp "frame-ancestors 'self'")
           && negb (JsString.includes csp "frame-ancestors 'none'")
        then mkLine StdWarn
               "Content-Security-Policy does not include a secure frame-ancestors directive"
        else mkLine StdLog "Content-Security-Policy frame-ancestors directive is secure" ]
      ++ (if hasBroadScriptSrc
          then [mkLine StdWarn "Content-Security-Policy contains broad script-src directive"]
          else [])
      ++ (if hasBroadObjectSrc
          then [mkLine StdWarn "Content-Security-Policy contains broad object-src directive"]
          else [])
      ++ (if negb hasBroadScriptSrc && negb hasBroadObjectSrc
          then [mkLine StdLog
                  "Content-Security-Policy script-src and object-src directives are secure"]
          else [])
      ++ (if hasUnsafeInline
          then [mkLine StdWarn ("Content-Security-Policy contains "
                                +:+ quoted "unsafe-inline" +:+ " directive")]
          else [])
      ++ (if hasUnsafeEval
          then [mkLine StdWarn ("Content-Security-Policy contains "
                                +:+ quoted "unsafe-eval" +:+ " directive")]
          else [])
      ++ (if negb hasUnsafeInline && negb hasUnsafeEval
          then [mkLine StdLog "Content-Security-Policy does not contain unsafe directives"]
          else [])
  end.

Section Cookies.

(** [Object.keys(cookie.parse(header))] of the cookie package. *)
Variable parsed_keys : string -> list string.

(** [Object.keys(parsed)[0] || `Cookie ${index + 1}`] *)
Definition cookie_name (header : string) (index : nat) : string :=
  match parsed_keys header with
  | [] | EmptyString :: _ => "Cookie " +:+ show_N (N.of_nat (index + 1))
  | name :: _ => name
  end.

(** The callback of [rawSetCookies.forEach], with the console lines and the
    [issues] flag it updates. *)
Definition check_cookie (state : list LogLine * bool) (header : string) (index : nat)
    : list LogLine * bool :=
  let (lines, issues) := state in
  let flags := JsString.toLowerCase header in
  let name := cookie_name header index in
  let isHttpOnly := JsString.includes flags "httponly" in
  let isSecure := JsString.includes flags "secure" in
  let (lines, issues) :=
    if negb isHttpOnly
    then (lines ++ [mkLine StdWarn ("Cookie " +:+ quoted name
                                    +:+ " is missing HttpOnly flag")], true)
    else (lines, issues) in
  if negb isSecure
  then (lines ++ [mkLine StdWarn ("Cookie " +:+ quoted name
                                  +:+ " is missing Secure flag")], true)
  else (lines, issues).

Fixpoint forEach_cookie (headers : list string) (index : nat)
    (state : list LogLine * bool) : list LogLine * bool :=
  match headers with
  | [] => state
  | header :: rest => forEach_cookie rest (S index) (check_cookie state header index)
  end.

(** [testCookies(response)] *)
Definition testCookies (response : Response) : list LogLine :=
  group "Cookies" ::
  match set_cookie response with
  | [] => [mkLine StdWarn "No Set-Cookie headers found"]
  | rawSetCookies =>
      let (lines, issues) := forEach_cookie rawSetCookies 0 ([], false) in
      lines ++ (if negb issues
                then [mkLine StdLog "All session cookies have HttpOnly and Secure flags"]
                else [])
  end.

End Cookies.

(** What [testRedirectChainAndHTTPS] leaves behind: its console lines, the
    addresses it fetched, and its promise. *)
Record Run : Type := mkRun {
  printed : list LogLine;
  fetches : list string;
  done : Promise unit
}.

Section Redirects.

(** [new URL(location, base).href] and [new URL(url).hostname]; both throw on
    a text that is no URL. *)
Variable href : string -> string -> Result string.
Variable hostname : string -> Result string.

(** The [do ... while] loop.  The i-th [fetch(currentUrl, { redirect:
    'manual' })] is answered by the i-th element of [responses], which is a
    response or the error [fetch] rejects with; the loop waits when the
    responses run out.  It yields [redirectChain] and [currentUrl]. *)
Fixpoint follow (responses : list (Result Response)) (currentUrl : string)
    (redirectChain fetched : list string)
    : list string * Promise (list string * string) :=
  match responses with
  | [] => (fetched ++ [currentUrl], Pending)
  | Throw error :: _ => (fetched ++ [currentUrl], Rejected error)
  | Ok response :: rest =>
      match header response "location" with
      | None | Some EmptyString =>
          (fetched ++ [currentUrl], Fulfilled (redirectChain, currentUrl))
      | Some location =>
          match href location currentUrl with
          | Throw error => (fetched ++ [currentUrl], Rejected error)
          | Ok next =>
              if (300 <=? status response)%N && (status response <? 400)%N
              then follow rest next (redirectChain ++ [location]) (fetched ++ [currentUrl])
              else (fetched ++ [currentUrl], Fulfilled (redirectChain ++ [location], next))
          end
      end
  end.

(** The lines on the chain and on the final address. *)
Definition chain_lines (redirectChain : list string) (currentUrl : string)
    : list LogLine :=
  (if existsb (fun redirectUrl => JsString.startsWith redirectUrl "http://") redirectChain
   then mkLine StdWarn "Redirect chain contains HTTP URLs:"
        :: map (fun redirectUrl => mkLine StdWarn (String "009" redirectUrl)) redirectChain
   else [mkLine StdLog "All redirects use HTTPS"])
  ++ [ if negb (JsString.startsWith currentUrl "https://")
       then mkLine StdWarn ("Final URL is not served over HTTPS: " +:+ currentUrl)
       else mkLine StdLog "Final URL is served over HTTPS" ].

(** The line on the first redirect; [new URL(url)] is evaluated only behind
    the [&&]. *)
Definition pattern_line (url : string) (redirectChain : list string)
    : Result (list LogLine) :=
  match redirectChain with
  | [] => Ok []
  | firstRedirect :: _ =>
      if JsString.startsWith firstRedirect "https://" then
        let* host := hostname url in
        if negb (JsString.includes firstRedirect host)
        then Ok [mkLine StdWarn "Insecure HTTPS redirect pattern detected"]
        else Ok [mkLine StdLog "HTTPS redirect pattern is secure"]
      else Ok [mkLine StdLog "HTTPS redirect pattern is secure"]
  end.

(** [testRedirectChainAndHTTPS(url)] *)
Definition testRedirectChainAndHTTPS (url : string) (responses : list (Result Response))
    : Run :=
  let heading := group "Redirect Chain and HTTPS Tests" in
  let (fetched, walked) := follow responses url [] [] in
  match walked with
  | Pending => mkRun [heading] fetched Pending
  | Rejected error => mkRun [heading] fetched (Rejected error)
  | Fulfilled (redirectChain, currentUrl) =>
      let lines := heading :: chain_lines redirectChain currentUrl in
      match pattern_line url redirectChain with
      | Ok line => mkRun (lines ++ line) fetched (Fulfilled tt)
      | Throw error => mkRun lines fetched (Rejected error)
      end
  end.

End Redirects.

End Security.

(** ** Notions used to state the properties of the security module *)

Definition on_stream (s : Stream) (line : LogLine) : bool :=
  match s, stream line with
  | StdLog, StdLog | StdWarn, StdWarn | StdError, StdError => true
  | _, _ => false
  end.

(** How many lines went to a stream. *)
Definition count_stream (s : Stream) (lines : list LogLine) : nat :=
  length (List.filter (on_stream s) lines).

(** Nothing was written with [console.warn] or [console.error]. *)
Definition clean (lines : list LogLine) : bool :=
  forallb (on_stream StdLog) lines.

(** How many of the two flag names occur nowhere in a [Set-Cookie] header,
    in whatever case. *)
Definition missing_flags (header : string) : nat :=
  (if JsString.includes (JsString.toLowerCase header) "httponly" then 0 else 1)
  + (if JsString.includes (JsString.toLowerCase header) "secure" then 0 else 1).

Definition total_missing_flags (headers : list string) : nat :=
  list_sum (map missing_flags headers).

(** A response that keeps the redirect loop going: a non-empty [Location]
    and a status from 300 to 399. *)
Definition redirecting (answer : Result Security.Response) : bool :=
  match answer with
  | Ok response =>
      match Security.header response "location" with
      | None | Some EmptyString => false
      | Some _ => (300 <=? Security.status response)%N && (Security.status response <? 400)%N
      end
  | Throw _ => false
  end.

(** A response that sends the named headers and no cookie. *)
Definition response_with (status : N) (headers : list (string * string))
    : Security.Response :=
  {| Security.status := status;
     Security.header := fun name =>
       match list_find (fun entry => String.eqb (fst entry) name) headers with
       | Some (_, entry) => Some (snd entry)
       | None => None
       end;
     Security.set_cookie := [] |}.

(** Text in the capitals [A-Z] without a double [S], the one pair that the
    sharp s upper-cases to. *)
Fixpoint plain_capitals (target : string) : bool :=
  match target with
  | EmptyString => true
  | String c rest =>
      JsString.between 65 90 (N_of_ascii c)
      && negb ((N_of_ascii c =? 83)%N
               && JsString.head_in (fun d => (N_of_ascii d =? 83)%N) rest)
      && plain_capitals rest
  end.

(** A response with three cookies: one with both flags, one without
    [HttpOnly], one without any flag. *)
Definition cookies_response : Security.Response :=
  {| Security.status := 200;
     Security.header := fun _ => None;
     Security.set_cookie := ["session=abc; HttpOnly; Secure"; "theme=dark; Secure";
                             "lang=en"] |}.

(** * Properties *)

Example infer_openssh_ubuntu :
  inferSystemDetails "SSH-2.0-OpenSSH_8.9p1 Ubuntu-3ubuntu0.1" =
  {| operating_system :=
       {| part := "o"; vendor := "canonical"; product := "ubuntu";
          version := Some "3" |};
     software :=
       [ {| part := "a"; vendor := "openbsd"; product := "openssh";
            version := Some "8.9p1" |} ] |}.
Proof. reflexivity. Qed.

(** The matcher and the string functions on inputs whose results in Node are
    known. *)
Example version_after_space : os_version "ubuntu" "Ubuntu 22.04.3 LTS" = Some "22.04.3".
Proof. reflexivity. Qed.

Example version_needs_digits : os_version "ubuntu" "ubuntu--1 UBUNTU" = Some "unknown".
Proof. reflexivity. Qed.

Example version_may_start_with_dot : os_version "debian" "DEBIAN.5" = Some ".5".
Proof. reflexivity. Qed.

Example ssh_token_ends_at_white_space :
  sshSoftwareMatch "SSH-2.0-OpenSSH_9.6p1 Debian-4" = Some ["OpenSSH_9.6p1"].
Proof. reflexivity. Qed.

Example ssh_needs_two_numbers : sshSoftwareMatch "SSH-2-x SSH-2.0.1-y" = None.
Proof. reflexivity. Qed.

Example ssh_leftmost_match : sshSoftwareMatch "SSH-1.99-Cisco-1.25 SSH-2.0-b_1" = Some ["Cisco-1.25"].
Proof. reflexivity. Qed.

Example split_keeps_empty_pieces : JsString.split "_" "a__b_" = ["a"; ""; "b"; ""].
Proof. reflexivity. Qed.

Example split_of_empty : JsString.split "_" "" = [""].
Proof. reflexivity. Qed.

(** ** Strings *)

Lemma append_nil_r (s : string) : s +:+ "" = s.
Proof. induction s as [|c s IH]; simpl; [reflexivity | now rewrite IH]. Qed.

Lemma append_assoc (a b c : string) : (a +:+ b) +:+ c = a +:+ (b +:+ c).
Proof. induction a as [|x a IH]; simpl; [reflexivity | now rewrite IH]. Qed.

Lemma toLowerCase_app (a b : string) :
  JsString.toLowerCase (a +:+ b) = JsString.toLowerCase a +:+ JsString.toLowerCase b.
Proof. induction a as [|x a IH]; simpl; [reflexivity | now rewrite IH]. Qed.

Lemma startsWith_app (p rest : string) : JsString.startsWith (p +:+ rest) p = true.
Proof.
  induction p as [|c p IH]; simpl; [reflexivity|].
  rewrite Ascii.eqb_refl. exact IH.
Qed.

Lemma includes_app (pre s sub : string) :
  JsString.includes s sub = true -> JsString.includes (pre +:+ s) sub = true.
Proof.
  intros H. induction pre as [|c pre IH]; simpl; [exact H|].
  rewrite IH. apply orb_true_r.
Qed.

Lemma includes_occurrence (pre sub post : string) :
  JsString.includes (pre +:+ sub +:+ post) sub = true.
Proof.
  apply includes_app. destruct sub; simpl.
  - destruct post; reflexivity.
  - rewrite Ascii.eqb_refl, startsWith_app. reflexivity.
Qed.

(** The keyword test of the table walk does not look at the case of the
    banner. *)
Lemma includes_ignores_case (pre mid post keyword : string) :
  JsString.toLowerCase mid = keyword ->
  JsString.includes (JsString.toLowerCase (pre +:+ mid +:+ post)) keyword = true.
Proof.
  intros <-. rewrite !toLowerCase_app. apply includes_occurrence.
Qed.

Lemma startsWith_split (s p : string) :
  JsString.startsWith s p = true -> exists rest, s = p +:+ rest.
Proof.
  revert s. induction p as [|a p IH]; intros s; simpl.
  - intros _. now exists s.
  - destruct s as [|b s]; [discriminate|]. intros H.
    apply andb_true_iff in H as [Hab Hp]. apply Ascii.eqb_eq in Hab as ->.
    destruct (IH s Hp) as [rest ->]. now exists rest.
Qed.

(** [includes] finds an occurrence, and only an occurrence. *)
Lemma includes_spec (s sub : string) :
  JsString.includes s sub = true <-> exists pre post, s = pre +:+ sub +:+ post.
Proof.
  split.
  - induction s as [|c s IH]; simpl.
    + rewrite orb_false_r. intros H. apply startsWith_split in H as [rest ->].
      now exists "", rest.
    + intros H. apply orb_true_iff in H as [H | H].
      * apply startsWith_split in H as [rest ->]. now exists "", rest.
      * destruct (IH H) as (pre & post & ->). now exists (String c pre), post.
  - intros (pre & post & ->). apply includes_occurrence.
Qed.

Lemma includes_tail (c : ascii) (s sub : string) :
  JsString.includes (String c s) sub = false -> JsString.includes s sub = false.
Proof. simpl. intros H. apply orb_false_iff in H. tauto. Qed.

(** [split] on text without the separator, and across a separator. *)
Lemma split_no_sep (sep : ascii) (s : string) :
  JsString.all_chars (fun c => negb (Ascii.eqb c sep)) s = true ->
  JsString.split sep s = [s].
Proof.
  induction s as [|c s IH]; simpl; [reflexivity|].
  intros H. apply andb_true_iff in H as [Hc Hs].
  apply negb_true_iff in Hc. rewrite Hc, (IH Hs). reflexivity.
Qed.

Lemma split_at_sep (sep : ascii) (p rest : string) :
  JsString.all_chars (fun c => negb (Ascii.eqb c sep)) p = true ->
  JsString.split sep (p +:+ String sep rest) = p :: JsString.split sep rest.
Proof.
  induction p as [|c p IH]; simpl.
  - intros _. rewrite Ascii.eqb_refl. reflexivity.
  - intros H. apply andb_true_iff in H as [Hc Hp].
    apply negb_true_iff in Hc. rewrite Hc, (IH Hp). reflexivity.
Qed.

Lemma split_nonempty (sep : ascii) (s : string) : JsString.split sep s <> [].
Proof.
  induction s as [|c s IH]; simpl; [discriminate|].
  destruct (Ascii.eqb c sep); [discriminate|].
  destruct (JsString.split sep s); discriminate.
Qed.

(** ** The matcher *)

(** A group that ends the pattern captures the longest run. *)
Lemma plus_last (cls : ascii -> bool) (caps : list string) (taken s : string) :
  Regex.plus cls (fun t _ => Some (caps ++ [t])) taken s =
  match s with
  | EmptyString => None
  | String c s' =>
      if cls c then Some (caps ++ [taken +:+ String c (take_while cls s')]) else None
  end.
Proof.
  revert taken. induction s as [|c s IH]; intros taken; simpl; [reflexivity|].
  destruct (cls c); [|reflexivity].
  rewrite IH. destruct s as [|d s]; simpl.
  - reflexivity.
  - destruct (cls d); simpl; [|reflexivity].
    rewrite append_assoc. reflexivity.
Qed.

Lemma exec_group_last (i : bool) (cls : ascii -> bool) (caps : list string) (s : string) :
  Regex.exec i [Regex.Group cls] caps s =
  match s with
  | EmptyString => None
  | String c s' => if cls c then Some (caps ++ [String c (take_while cls s')]) else None
  end.
Proof. simpl. rewrite plus_last. reflexivity. Qed.

(** Whatever [plus] returns was returned by its continuation. *)
Lemma plus_some {R : Type} (cls : ascii -> bool) (k : string -> string -> option R)
    (taken s : string) (r : R) :
  Regex.plus cls k taken s = Some r ->
  exists run rest, run <> "" /\ JsString.all_chars cls run = true
                   /\ s = run +:+ rest /\ k (taken +:+ run) rest = Some r.
Proof.
  revert taken. induction s as [|c s IH]; intros taken; simpl; [discriminate|].
  destruct (cls c) eqn:Hc; [|discriminate].
  destruct (Regex.plus cls k (taken +:+ String c "") s) eqn:Hp.
  - intros [= <-]. destruct (IH _ Hp) as (run & rest & _ & Hall & -> & Hk).
    exists (String c run), rest. split; [discriminate|]. split; [simpl; now rewrite Hc|].
    split; [reflexivity|]. rewrite append_assoc in Hk. exact Hk.
  - intros Hk. exists (String c ""), s. split; [discriminate|].
    split; [simpl; now rewrite Hc|]. split; [reflexivity | exact Hk].
Qed.

(** A match holds one capture for every group of the pattern. *)
Lemma exec_captures (i : bool) (r : Regex.t) :
  forall caps s m, Regex.exec i r caps s = Some m ->
  exists captured, m = caps ++ captured /\ length captured = groups_of r.
Proof.
  induction r as [|a r IH]; intros caps s m; simpl.
  - intros [= <-]. exists []. now rewrite app_nil_r.
  - destruct a as [c|cls|cls|cls].
    + destruct s as [|d s]; [discriminate|]. destruct (Regex.char_eq i c d); [apply IH | discriminate].
    + destruct s as [|d s]; [apply IH|]. destruct (cls d); [|apply IH].
      destruct (Regex.exec i r caps s) eqn:E; [intros [= <-]; eapply IH; eassumption | apply IH].
    + intros H. apply plus_some in H as (run & rest & _ & _ & _ & Hk). eapply IH; eassumption.
    + intros H. apply plus_some in H as (run & rest & _ & _ & _ & Hk).
      destruct (IH _ _ _ Hk) as (captured & -> & Hlen).
      exists (run :: captured). rewrite <- app_assoc. simpl. split; [reflexivity | now rewrite Hlen].
Qed.

Lemma search_captures (i : bool) (r : Regex.t) (s : string) (m : list string) :
  Regex.search i r s = Some m -> length m = groups_of r.
Proof.
  induction s as [|c s IH]; simpl.
  - destruct (Regex.exec i r [] "") eqn:E; [|discriminate].
    intros [= <-]. apply exec_captures in E as (captured & -> & Hlen). exact Hlen.
  - destruct (Regex.exec i r [] (String c s)) eqn:E; [|exact IH].
    intros [= <-]. apply exec_captures in E as (captured & -> & Hlen). exact Hlen.
Qed.

Lemma groups_of_app (r1 r2 : Regex.t) : groups_of (r1 ++ r2) = groups_of r1 + groups_of r2.
Proof. induction r1 as [|[] r1 IH]; simpl; auto. Qed.

Lemma groups_of_literal (s : string) : groups_of (Regex.literal s) = 0.
Proof. induction s as [|c s IH]; [reflexivity | exact IH]. Qed.

Lemma search_app_none (i : bool) (r : Regex.t) (pre s : string) :
  (forall a b, pre = a +:+ b -> b <> "" -> Regex.exec i r [] (b +:+ s) = None) ->
  Regex.search i r (pre +:+ s) = Regex.search i r s.
Proof.
  induction pre as [|c pre IH]; intros H; [reflexivity|].
  change (String c pre +:+ s) with (String c (pre +:+ s)).
  cbn [Regex.search].
  change (String c (pre +:+ s)) with (String c pre +:+ s).
  rewrite (H "" (String c pre) eq_refl); [|discriminate].
  apply IH. intros a b -> Hb. apply (H (String c a) b); [reflexivity | exact Hb].
Qed.

Lemma search_none_suffix (i : bool) (r : Regex.t) (a b : string) :
  Regex.search i r (a +:+ b) = None -> Regex.exec i r [] b = None.
Proof.
  induction a as [|c a IH]; simpl.
  - destruct b; simpl; destruct (Regex.exec i r [] _); congruence.
  - destruct (Regex.exec i r [] (String c (a +:+ b))); [discriminate | exact IH].
Qed.

(** ** Operating-system inference *)

Lemma exec_opt (i : bool) (cls : ascii -> bool) (r : Regex.t) (caps : list string) (s : string) :
  Regex.exec i (Regex.Opt cls :: r) caps s =
  match s with
  | String d s' =>
      if cls d then
        match Regex.exec i r caps s' with
        | Some m => Some m
        | None => Regex.exec i r caps s
        end
      else Regex.exec i r caps s
  | EmptyString => Regex.exec i r caps s
  end.
Proof. destruct s; reflexivity. Qed.

Lemma exec_chr (i : bool) (c : ascii) (r : Regex.t) (caps : list string) (d : ascii) (s : string) :
  Regex.exec i (Regex.Chr c :: r) caps (String d s) =
  if Regex.char_eq i c d then Regex.exec i r caps s else None.
Proof. reflexivity. Qed.

(** The version is always a string: the capture, or "unknown". *)
Lemma os_version_string (product banner : string) :
  exists v, os_version product banner = Some v /\
            match Regex.search true (os_version_regex product) banner with
            | Some groups => groups = [v]
            | None => v = "unknown"
            end.
Proof.
  unfold os_version.
  destruct (Regex.search true (os_version_regex product) banner) as [groups|] eqn:E.
  - apply search_captures in E. unfold os_version_regex in E.
    rewrite groups_of_app, groups_of_literal in E. simpl in E.
    destruct groups as [|v [|w groups]]; try discriminate.
    exists v. split; reflexivity.
  - exists "unknown". split; reflexivity.
Qed.

Lemma infer_os_first (banner : string) (table before after : list (string * string))
    (product vendorName : string) :
  table = before ++ (product, vendorName) :: after ->
  JsString.includes (JsString.toLowerCase banner) product = true ->
  Forall (fun entry => JsString.includes (JsString.toLowerCase banner) (fst entry) = false) before ->
  infer_os table banner =
  {| part := "o"; vendor := vendorName; product := product;
     version := os_version product banner |}.
Proof.
  intros -> Hin Hbefore. induction Hbefore as [|[p v] before Hp _ IH]; simpl.
  - rewrite Hin. reflexivity.
  - simpl in Hp. rewrite Hp. exact IH.
Qed.

Lemma infer_os_none (banner : string) (table : list (string * string)) :
  Forall (fun entry => JsString.includes (JsString.toLowerCase banner) (fst entry) = false) table ->
  infer_os table banner = unknown_os.
Proof.
  induction 1 as [|[p v] table Hp _ IH]; simpl; [reflexivity|].
  simpl in Hp. rewrite Hp. exact IH.
Qed.

(** The tail [[-\s]?([\d.]+)] cannot start to match because of text that
    begins with a letter. *)
Lemma version_tail_extend (caps : list string) (s : string) (x : ascii) (rest : string) :
  Regex.dash_or_space x = false -> Regex.digit_or_dot x = false ->
  Regex.exec true [Regex.Opt Regex.dash_or_space; Regex.Group Regex.digit_or_dot] caps s = None ->
  Regex.exec true [Regex.Opt Regex.dash_or_space; Regex.Group Regex.digit_or_dot] caps
    (s +:+ String x rest) = None.
Proof.
  intros Hsep Hdig.
  assert (Hgroup : forall t,
    Regex.exec true [Regex.Group Regex.digit_or_dot] caps t = None ->
    Regex.exec true [Regex.Group Regex.digit_or_dot] caps (t +:+ String x rest) = None).
  { intros t. rewrite !exec_group_last. destruct t as [|c t]; simpl.
    - now rewrite Hdig.
    - destruct (Regex.digit_or_dot c); [discriminate | reflexivity]. }
  rewrite !exec_opt. destruct s as [|c s]; cbn [append].
  - rewrite Hsep. apply (Hgroup "").
  - destruct (Regex.dash_or_space c); [|apply (Hgroup (String c s))].
    destruct (Regex.exec true [Regex.Group Regex.digit_or_dot] caps s) eqn:E; [discriminate|].
    rewrite (Hgroup _ E). apply (Hgroup (String c s)).
Qed.

Lemma ubuntu_version_extend (b post : string) :
  b <> "" ->
  Regex.exec true (os_version_regex "ubuntu") [] b = None ->
  Regex.exec true (os_version_regex "ubuntu") [] (b +:+ "ubuntu-22.04" +:+ post) = None.
Proof.
  unfold os_version_regex. cbn [Regex.literal app].
  destruct b as [|c b]; [congruence|]. intros _.
  cbn [append]. rewrite !exec_chr. destruct (Regex.char_eq true _ _); [|reflexivity].
  do 5 (destruct b as [|? b]; [intros _; reflexivity|];
        cbn [append]; rewrite !exec_chr;
        destruct (Regex.char_eq true _ _); [|reflexivity]).
  apply version_tail_extend; reflexivity.
Qed.

Lemma ubuntu_version_here (post : string) :
  JsString.head_in Regex.digit_or_dot post = false ->
  Regex.exec true (os_version_regex "ubuntu") [] ("ubuntu-22.04" +:+ post) = Some ["22.04"].
Proof.
  intros Hpost. unfold os_version_regex. cbn [Regex.literal app append].
  rewrite !exec_chr. change (Regex.char_eq true "u" "u") with true.
  change (Regex.char_eq true "b" "b") with true.
  change (Regex.char_eq true "n" "n") with true.
  change (Regex.char_eq true "t" "t") with true.
  cbv iota. rewrite exec_opt. change (Regex.dash_or_space "-") with true. cbv iota.
  rewrite exec_group_last. change (Regex.digit_or_dot "2") with true. cbv iota.
  cbn [take_while]. change (Regex.digit_or_dot "2") with true.
  change (Regex.digit_or_dot ".") with true. change (Regex.digit_or_dot "0") with true.
  change (Regex.digit_or_dot "4") with true. cbv iota.
  destruct post as [|c post]; [reflexivity|].
  simpl in Hpost. cbn [take_while]. rewrite Hpost. reflexivity.
Qed.

Lemma ubuntu_version_search (pre post : string) :
  Regex.search true (os_version_regex "ubuntu") pre = None ->
  JsString.head_in Regex.digit_or_dot post = false ->
  Regex.search true (os_version_regex "ubuntu") (pre +:+ "ubuntu-22.04" +:+ post)
  = Some ["22.04"].
Proof.
  intros Hpre Hpost. rewrite search_app_none.
  - cbn [append Regex.search].
    change (String "u" (String "b" (String "u" (String "n" (String "t" (String "u"
             (String "-" (String "2" (String "2" (String "." (String "0" (String "4" post))))))))))))
      with ("ubuntu-22.04" +:+ post).
    now rewrite (ubuntu_version_here post Hpost).
  - intros a b -> Hb. apply ubuntu_version_extend; [exact Hb|].
    apply (search_none_suffix _ _ a b Hpre).
Qed.

(** C1, as stated, fails: a banner may contain [ubuntu-22.04] and still be
    given another version, because the capture runs on over digits and dots. *)
Lemma ubuntu_22_04_substring_counterexample :
  JsString.includes "ubuntu-22.04.1" "ubuntu-22.04" = true
  /\ operating_system (inferSystemDetails "ubuntu-22.04.1")
     = {| part := "o"; vendor := "canonical"; product := "ubuntu";
          version := Some "22.04.1" |}
  /\ ~ (forall banner,
          JsString.includes banner "ubuntu-22.04" = true ->
          operating_system (inferSystemDetails banner)
          = {| part := "o"; vendor := "canonical"; product := "ubuntu";
               version := Some "22.04" |}).
Proof.
  split; [reflexivity|]. split; [reflexivity|].
  intros H. specialize (H "ubuntu-22.04.1" eq_refl).
  vm_compute in H. discriminate H.
Qed.

(** C1 (amended).  Operating-system inference walks the vendor table in its
    order and the first keyword that the lower-cased banner contains decides
    vendor and product; the version is then the capture of
    [<product>[-\s]?([\d.]+)] (case-insensitive, leftmost match) or "unknown"
    when the pattern does not match; when no keyword occurs the identity is
    all "unknown".  A banner that contains [ubuntu-22.04] is given vendor
    "canonical" and product "ubuntu", and version "22.04" when the pattern
    matches nowhere in the text before that occurrence and the occurrence is
    not followed by a digit or a dot. *)
Theorem infer_os_first_match_wins :
  (forall banner before product vendorName after,
     vendor_table = before ++ (product, vendorName) :: after ->
     JsString.includes (JsString.toLowerCase banner) product = true ->
     Forall (fun entry =>
               JsString.includes (JsString.toLowerCase banner) (fst entry) = false) before ->
     exists v,
       operating_system (inferSystemDetails banner)
       = {| part := "o"; vendor := vendorName; product := product; version := Some v |}
       /\ match Regex.search true (os_version_regex product) banner with
          | Some groups => groups = [v]
          | None => v = "unknown"
          end)
  /\ (forall banner,
        Forall (fun entry =>
                  JsString.includes (JsString.toLowerCase banner) (fst entry) = false)
               vendor_table ->
        operating_system (inferSystemDetails banner)
        = {| part := "o"; vendor := "unknown"; product := "unknown";
             version := Some "unknown" |})
  /\ (forall pre post,
        let os := operating_system (inferSystemDetails (pre +:+ "ubuntu-22.04" +:+ post)) in
        part os = "o" /\ vendor os = "canonical" /\ product os = "ubuntu"
        /\ (Regex.search true (os_version_regex "ubuntu") pre = None ->
            JsString.head_in Regex.digit_or_dot post = false ->
            version os = Some "22.04")).
Proof.
  split; [|split].
  - intros banner before product vendorName after Htable Hin Hbefore.
    destruct (os_version_string product banner) as (v & Hv & Hcapture).
    exists v. split; [|exact Hcapture].
    change (operating_system (inferSystemDetails banner)) with (infer_os vendor_table banner).
    rewrite (infer_os_first banner _ _ _ _ _ Htable Hin Hbefore), Hv. reflexivity.
  - intros banner Hnone.
    change (operating_system (inferSystemDetails banner)) with (infer_os vendor_table banner).
    apply infer_os_none, Hnone.
  - intros pre post os.
    assert (Hos : os = {| part := "o"; vendor := "canonical"; product := "ubuntu";
                          version := os_version "ubuntu" (pre +:+ "ubuntu-22.04" +:+ post) |}).
    { subst os.
      change (operating_system (inferSystemDetails ?b)) with (infer_os vendor_table b).
      apply (infer_os_first _ vendor_table [] (tl vendor_table)).
      - reflexivity.
      - rewrite !toLowerCase_app.
        change (JsString.toLowerCase "ubuntu-22.04") with ("ubuntu" +:+ "-22.04").
        rewrite append_assoc. apply includes_occurrence.
      - constructor. }
    rewrite Hos. cbn [part vendor product version]. repeat split.
    intros Hpre Hpost. unfold os_version.
    rewrite (ubuntu_version_search pre post Hpre Hpost). reflexivity.
Qed.

Lemma infer_os_first_match_wins_witness :
  (exists v,
     operating_system (inferSystemDetails "Welcome to CentOS-7.9 (not Fedora)")
     = {| part := "o"; vendor := "centos"; product := "centos"; version := Some v |}
     /\ v = "7.9")
  /\ operating_system (inferSystemDetails "220 mail.example.org ESMTP")
     = {| part := "o"; vendor := "unknown"; product := "unknown"; version := Some "unknown" |}
  /\ version (operating_system
                (inferSystemDetails ("SSH-2.0-OpenSSH_9.6 " +:+ "ubuntu-22.04" +:+ " LTS")))
     = Some "22.04".
Proof.
  destruct infer_os_first_match_wins as (Hfirst & Hnone & Hubuntu).
  split; [|split].
  - destruct (Hfirst "Welcome to CentOS-7.9 (not Fedora)"
                [("ubuntu", "canonical"); ("debian", "debian")] "centos" "centos"
                [("enterprise_linux", "redhat"); ("fedora", "fedora");
                 ("alpine_linux", "alpine"); ("amazon_linux", "amazon")]
                eq_refl eq_refl) as (v & Hos & Hv).
    + repeat constructor.
    + exists v. split; [exact Hos|]. vm_compute in Hv. congruence.
  - apply Hnone. repeat constructor.
  - apply (Hubuntu "SSH-2.0-OpenSSH_9.6 " " LTS"); reflexivity.
Defined.

(** ** Software inference *)

Lemma includes_suffix (a b sub : string) :
  JsString.startsWith b sub = true -> JsString.includes (a +:+ b) sub = true.
Proof.
  intros H. apply includes_app. destruct b; simpl; rewrite H; reflexivity.
Qed.

(** A match of the SSH pattern starts with the text [SSH-]. *)
Lemma ssh_extend (b post : string) (m : list string) :
  b <> "" ->
  Regex.exec false ssh_regex [] (b +:+ "SSH-2.0-OpenSSH_9.6" +:+ post) = Some m ->
  JsString.startsWith b "SSH-" = true.
Proof.
  unfold ssh_regex. cbn [Regex.literal app].
  destruct b as [|c1 b]; [congruence|]. intros _.
  cbn [append]. rewrite exec_chr. unfold Regex.char_eq at 1.
  destruct (Ascii.eqb "S" c1) eqn:E1; [|discriminate].
  destruct b as [|c2 b]; [discriminate|].
  cbn [append]. rewrite exec_chr. unfold Regex.char_eq at 1.
  destruct (Ascii.eqb "S" c2) eqn:E2; [|discriminate].
  destruct b as [|c3 b]; [discriminate|].
  cbn [append]. rewrite exec_chr. unfold Regex.char_eq at 1.
  destruct (Ascii.eqb "H" c3) eqn:E3; [|discriminate].
  destruct b as [|c4 b]; [discriminate|].
  cbn [append]. rewrite exec_chr. unfold Regex.char_eq at 1.
  destruct (Ascii.eqb "-" c4) eqn:E4; [|discriminate].
  intros _. cbn [JsString.startsWith]. rewrite E1, E2, E3, E4. reflexivity.
Qed.

Lemma take_while_app (cls : ascii -> bool) (a b : string) :
  JsString.all_chars cls a = true ->
  take_while cls (a +:+ b) = a +:+ take_while cls b.
Proof.
  induction a as [|c a IH]; simpl; [reflexivity|].
  intros H. apply andb_true_iff in H as [Hc Ha]. rewrite Hc, (IH Ha). reflexivity.
Qed.

Lemma take_while_stop (cls : ascii -> bool) (s : string) :
  JsString.head_in cls s = false -> take_while cls s = "".
Proof. destruct s as [|c s]; simpl; [reflexivity | now intros ->]. Qed.

(** After [SSH-2.0-] only the token is left to match. *)
Lemma ssh_2_0_prefix (s : string) :
  Regex.exec false ssh_regex [] ("SSH-2.0-" +:+ s)
  = Regex.exec false [Regex.Group Regex.non_space] [] s.
Proof. reflexivity. Qed.

Lemma ssh_here (post : string) :
  JsString.head_in Regex.non_space post = false ->
  Regex.exec false ssh_regex [] ("SSH-2.0-OpenSSH_9.6" +:+ post) = Some ["OpenSSH_9.6"].
Proof.
  intros Hpost.
  change ("SSH-2.0-OpenSSH_9.6" +:+ post) with ("SSH-2.0-" +:+ String "O" ("penSSH_9.6" +:+ post)).
  rewrite ssh_2_0_prefix, exec_group_last.
  change (Regex.non_space "O") with true. cbv iota.
  rewrite take_while_app by reflexivity.
  rewrite (take_while_stop _ _ Hpost). reflexivity.
Qed.

Lemma ssh_search (pre post : string) :
  JsString.includes pre "SSH-" = false ->
  JsString.head_in Regex.non_space post = false ->
  sshSoftwareMatch (pre +:+ "SSH-2.0-OpenSSH_9.6" +:+ post) = Some ["OpenSSH_9.6"].
Proof.
  intros Hpre Hpost. unfold sshSoftwareMatch. rewrite search_app_none.
  - cbn [append Regex.search].
    change (String "S" (String "S" (String "H" (String "-" (String "2" (String "."
             (String "0" (String "-" (String "O" (String "p" (String "e" (String "n"
             (String "S" (String "S" (String "H" (String "_" (String "9" (String "."
             (String "6" post)))))))))))))))))))
      with ("SSH-2.0-OpenSSH_9.6" +:+ post).
    now rewrite (ssh_here post Hpost).
  - intros a b -> Hb.
    destruct (Regex.exec false ssh_regex [] (b +:+ "SSH-2.0-OpenSSH_9.6" +:+ post)) eqn:E;
      [|reflexivity].
    apply ssh_extend in E; [|exact Hb].
    rewrite (includes_suffix a b _ E) in Hpre. discriminate Hpre.
Qed.

Lemma split_product_version (p v rest : string) :
  no_underscore p = true -> no_underscore v = true ->
  rest = "" \/ (exists rest', rest = String "_" rest') ->
  exists more, JsString.split "_" (p +:+ "_" +:+ v +:+ rest) = p :: v :: more.
Proof.
  intros Hp Hv Hrest. change (p +:+ "_" +:+ v +:+ rest) with (p +:+ String "_" (v +:+ rest)).
  rewrite (split_at_sep "_" p _ Hp).
  destruct Hrest as [-> | [rest' ->]].
  - rewrite append_nil_r, (split_no_sep "_" v Hv). now exists [].
  - rewrite (split_at_sep "_" v _ Hv). now eexists.
Qed.

Lemma infer_software_match (banner token : string) :
  sshSoftwareMatch banner = Some [token] ->
  exists first more,
    JsString.split "_" token = first :: more /\
    infer_software banner =
    [ {| part := "a"; vendor := "openbsd"; product := JsString.toLowerCase first;
         version := more !! 0 |} ].
Proof.
  intros H. unfold infer_software. rewrite H. cbn [lookup list_lookup].
  destruct (JsString.split "_" token) as [|first more] eqn:E.
  - now apply split_nonempty in E.
  - exists first, more. split; reflexivity.
Qed.

Lemma ssh_match_token (banner : string) (groups : list string) :
  sshSoftwareMatch banner = Some groups -> exists token, groups = [token].
Proof.
  intros H. apply search_captures in H. change (groups_of ssh_regex) with 1 in H.
  destruct groups as [|token [|other groups]]; try discriminate. now exists token.
Qed.

(** C2, as stated, fails: [split('_')] cuts at every underscore and the
    version is the second piece, not the text after the first underscore. *)
Lemma software_split_first_counterexample :
  sshSoftwareMatch "SSH-2.0-OpenSSH_for_Windows_8.1" = Some ["OpenSSH_for_Windows_8.1"]
  /\ split_first "_" "OpenSSH_for_Windows_8.1" = ("OpenSSH", "for_Windows_8.1")
  /\ software (inferSystemDetails "SSH-2.0-OpenSSH_for_Windows_8.1")
     = [ {| part := "a"; vendor := "openbsd"; product := "openssh";
            version := Some "for" |} ]
  /\ ~ (forall banner token,
          sshSoftwareMatch banner = Some [token] ->
          JsString.includes token "_" = true ->
          software (inferSystemDetails banner)
          = [ {| part := "a"; vendor := "openbsd";
                 product := JsString.toLowerCase (fst (split_first "_" token));
                 version := Some (snd (split_first "_" token)) |} ]).
Proof.
  split; [reflexivity|]. split; [reflexivity|]. split; [reflexivity|].
  intros H.
  specialize (H "SSH-2.0-OpenSSH_for_Windows_8.1" "OpenSSH_for_Windows_8.1" eq_refl eq_refl).
  vm_compute in H. discriminate H.
Qed.

(** C2 (amended).  A banner without a match of [SSH-\d+\.\d+-(\S+)] gives an
    empty software sequence.  A banner with a match gives exactly one entry
    with part "a" and vendor "openbsd" whatever the product; when the captured
    token reads [<product>_<version>], possibly followed by further
    underscore-separated pieces, the entry's product is the lower-cased text
    before the first underscore and its version is the text between the first
    and the second underscore (up to the end of the token when there is only
    one).  In particular a banner in which [SSH-2.0-OpenSSH_9.6] is preceded
    by no other [SSH-] and is followed by white space or by nothing gives
    exactly the entry openbsd / openssh / 9.6. *)
Theorem infer_software_ssh_banner :
  (forall banner,
     match sshSoftwareMatch banner with
     | None => software (inferSystemDetails banner) = []
     | Some groups =>
         exists token entry,
           groups = [token]
           /\ software (inferSystemDetails banner) = [entry]
           /\ part entry = "a" /\ vendor entry = "openbsd"
           /\ (forall p v rest,
                 token = p +:+ "_" +:+ v +:+ rest ->
                 no_underscore p = true -> no_underscore v = true ->
                 rest = "" \/ (exists rest', rest = String "_" rest') ->
                 product entry = JsString.toLowerCase p /\ version entry = Some v)
     end)
  /\ (forall pre post,
        JsString.includes pre "SSH-" = false ->
        JsString.head_in Regex.non_space post = false ->
        software (inferSystemDetails (pre +:+ "SSH-2.0-OpenSSH_9.6" +:+ post))
        = [ {| part := "a"; vendor := "openbsd"; product := "openssh";
               version := Some "9.6" |} ]).
Proof.
  split.
  - intros banner.
    change (software (inferSystemDetails banner)) with (infer_software banner).
    destruct (sshSoftwareMatch banner) as [groups|] eqn:E.
    + destruct (ssh_match_token _ _ E) as [token ->].
      destruct (infer_software_match _ _ E) as (first & more & Hsplit & ->).
      eexists token, _. split; [reflexivity|]. split; [reflexivity|].
      cbn [part vendor product version]. split; [reflexivity|]. split; [reflexivity|].
      intros p v rest -> Hp Hv Hrest.
      destruct (split_product_version p v rest Hp Hv Hrest) as [more' Hpieces].
      rewrite Hpieces in Hsplit. injection Hsplit as <- <-. split; reflexivity.
    + unfold infer_software. rewrite E. reflexivity.
  - intros pre post Hpre Hpost.
    change (software (inferSystemDetails ?b)) with (infer_software b).
    unfold infer_software. rewrite (ssh_search pre post Hpre Hpost). reflexivity.
Qed.

Lemma infer_software_ssh_banner_witness :
  software (inferSystemDetails "SSH-2.0-OpenSSH_for_Windows_8.1 x")
  = [ {| part := "a"; vendor := "openbsd"; product := "openssh"; version := Some "for" |} ]
  /\ software (inferSystemDetails ("220 ready " +:+ "SSH-2.0-OpenSSH_9.6" +:+ " Debian-5"))
     = [ {| part := "a"; vendor := "openbsd"; product := "openssh"; version := Some "9.6" |} ].
Proof.
  destruct infer_software_ssh_banner as [Hshape Hparticular]. split.
  - specialize (Hshape "SSH-2.0-OpenSSH_for_Windows_8.1 x").
    change (sshSoftwareMatch "SSH-2.0-OpenSSH_for_Windows_8.1 x")
      with (Some ["OpenSSH_for_Windows_8.1"]) in Hshape.
    destruct Hshape as (token & entry & Htoken & -> & Hpart & Hvendor & Hfields).
    injection Htoken as <-.
    destruct (Hfields "OpenSSH" "for" "_Windows_8.1" eq_refl eq_refl eq_refl) as [Hp Hv].
    + right. now eexists.
    + destruct entry as [pt vd pr vs]. simpl in *. subst. reflexivity.
  - apply (Hparticular "220 ready " " Debian-5"); reflexivity.
Defined.

(** C3: at the banner of an SSH server whose software token has no
    underscore the [version] of the software entry is [undefined]; no
    "unknown" is put in its place. *)
Theorem software_version_undefined_without_underscore :
  software (inferSystemDetails "SSH-2.0-dropbear")
  = [ {| part := "a"; vendor := "openbsd"; product := "dropbear"; version := None |} ].
Proof. reflexivity. Qed.

(** The rest of the invariant holds: the operating-system fields are always
    strings, and a software entry lacks a version exactly when its token has
    no underscore. *)
Lemma identity_fields_populated (banner : string) :
  (exists v, version (operating_system (inferSystemDetails banner)) = Some v)
  /\ (forall token entry,
        sshSoftwareMatch banner = Some [token] ->
        In entry (software (inferSystemDetails banner)) ->
        version entry = None <-> no_underscore token = true).
Proof.
  split.
  - change (operating_system (inferSystemDetails banner)) with (infer_os vendor_table banner).
    generalize vendor_table. intros table. induction table as [|[p v] table IH]; simpl.
    + now exists "unknown".
    + destruct (JsString.includes (JsString.toLowerCase banner) p); [|exact IH].
      destruct (os_version_string p banner) as (w & Hw & _). now exists w.
  - intros token entry Hmatch.
    change (software (inferSystemDetails banner)) with (infer_software banner).
    destruct (infer_software_match _ _ Hmatch) as (first & more & Hsplit & ->).
    intros [<- | []]. cbn [version]. clear Hmatch. revert first more Hsplit.
    unfold no_underscore.
    induction token as [|c token IH]; intros first more; simpl.
    + intros [= <- <-]. split; reflexivity.
    + destruct (Ascii.eqb c "_") eqn:Ec; simpl.
      * intros [= <- <-]. split; [|discriminate].
        destruct (JsString.split "_" token) eqn:E; [now apply split_nonempty in E | discriminate].
      * destruct (JsString.split "_" token) as [|piece pieces] eqn:E;
          [now apply split_nonempty in E|].
        intros [= <- <-]. apply (IH piece pieces eq_refl).
Qed.

(** ** Severity bucketing *)

Lemma empty_buckets_are : buckets_are empty_buckets (fun _ => []).
Proof.
  intros key. unfold empty_buckets.
  rewrite !lookup_insert, lookup_empty.
  unfold is_severity, severities. cbn [existsb].
  repeat case_decide; subst; try reflexivity;
    repeat match goal with
           | H : ?a <> ?b |- _ =>
               apply String.eqb_neq in H; rewrite String.eqb_sym in H; rewrite H; clear H
           end; reflexivity.
Qed.

Lemma buckets_dom (acc : gmap string (list Finding)) (f : string -> list Finding) :
  buckets_are acc f ->
  dom acc = ({[ "low"; "medium"; "high"; "critical" ]} : gset string).
Proof.
  intros H. apply set_eq. intros key. rewrite elem_of_dom, H.
  unfold is_severity, severities. cbn [existsb].
  rewrite !elem_of_union, !elem_of_singleton.
  destruct (String.eqb_spec key "low"); [subst; simpl; split; eauto|].
  destruct (String.eqb_spec key "medium"); [subst; simpl; split; eauto|].
  destruct (String.eqb_spec key "high"); [subst; simpl; split; eauto|].
  destruct (String.eqb_spec key "critical"); [subst; simpl; split; eauto|].
  simpl. split; [intros [? [=]] | tauto].
Qed.

(** A finding whose severity can be read has all its other fields read
    without an exception. *)
Lemma finding_of_ok (vulnerability raw : JsValue) :
  severity_of vulnerability = Ok raw ->
  exists finding, finding_of vulnerability = Ok finding /\ cvss_severity finding = raw.
Proof.
  unfold severity_of, finding_of.
  destruct vulnerability; try discriminate; cbn [get bind];
    match goal with
    | |- context [assoc "metrics" ?p] => destruct (assoc "metrics" p); try discriminate
    | _ => idtac
    end; cbn [get bind];
    match goal with
    | |- context [assoc "cvss" ?p] => destruct (assoc "cvss" p); try discriminate
    | _ => idtac
    end; cbn [get bind];
    intros [= <-]; eexists; split; reflexivity.
Qed.

Lemma bucket_vulnerability_recognized (acc : gmap string (list Finding))
    (f : string -> list Finding) (vulnerability : JsValue) (s : string) :
  buckets_are acc f ->
  severity_of vulnerability = Ok (JsStr s) ->
  is_severity (JsString.toLowerCase s) = true ->
  exists acc',
    bucket_vulnerability acc vulnerability = Ok acc'
    /\ buckets_are acc' (fun key => f key ++ expected_bucket key [vulnerability]).
Proof.
  intros Hacc Hsev Hrec. unfold bucket_vulnerability.
  rewrite Hsev. cbn [bind call_toLowerCase].
  rewrite Hacc, Hrec.
  destruct (finding_of_ok _ _ Hsev) as (finding & Hfinding & _).
  rewrite Hfinding. cbn [bind]. eexists. split; [reflexivity|].
  intros key. rewrite lookup_insert.
  unfold expected_bucket, severity_key. rewrite Hsev, Hfinding.
  case_decide as Hkey.
  - subst key. rewrite Hrec, String.eqb_refl. reflexivity.
  - apply String.eqb_neq in Hkey. rewrite Hkey, app_nil_r. apply Hacc.
Qed.

Lemma expected_bucket_app (key : string) (a b : list JsValue) :
  expected_bucket key (a ++ b) = expected_bucket key a ++ expected_bucket key b.
Proof.
  induction a as [|v a IH]; simpl; [reflexivity|].
  destruct (severity_key v), (finding_of v); try exact IH.
  destruct (String.eqb _ key); simpl; now rewrite IH.
Qed.

Lemma forEach_vulnerabilities_recognized (vulns : list JsValue) :
  forall acc f,
    buckets_are acc f ->
    Forall recognized vulns ->
    exists acc',
      forEach_items bucket_vulnerability vulns acc = Ok acc'
      /\ buckets_are acc' (fun key => f key ++ expected_bucket key vulns).
Proof.
  induction vulns as [|v vulns IH]; intros acc f Hacc Hall.
  - exists acc. split; [reflexivity|]. intros key. cbn [expected_bucket].
    rewrite app_nil_r. apply Hacc.
  - inversion Hall as [|? ? (s & Hsev & Hrec) Hrest]; subst.
    destruct (bucket_vulnerability_recognized acc f v s Hacc Hsev Hrec) as (acc1 & Hstep & Hacc1).
    destruct (IH acc1 _ Hacc1 Hrest) as (acc2 & Hloop & Hacc2).
    exists acc2. cbn [forEach_items]. rewrite Hstep. cbn [bind]. split; [exact Hloop|].
    intros key. rewrite Hacc2. destruct (is_severity key); [|reflexivity].
    rewrite <- app_assoc, <- expected_bucket_app. reflexivity.
Qed.

Lemma forEach_results_recognized (results : list JsValue) :
  forall acc f,
    buckets_are acc f ->
    Forall (fun res => exists vulns, get "vulnerabilities" res = Ok (JsArray vulns)) results ->
    Forall recognized (findings_of_response results) ->
    exists acc',
      forEach_items bucket_result results acc = Ok acc'
      /\ buckets_are acc' (fun key => f key ++ expected_bucket key (findings_of_response results)).
Proof.
  induction results as [|res results IH]; intros acc f Hacc Hshape Hall.
  - exists acc. split; [reflexivity|]. intros key. cbn. rewrite app_nil_r. apply Hacc.
  - inversion Hshape as [|? ? [vulns Hvulns] Hshape']; subst.
    unfold findings_of_response in Hall. cbn [flat_map] in Hall.
    apply Forall_app in Hall as [Hhere Hrest].
    assert (Hof : vulnerabilities_of res = vulns) by (unfold vulnerabilities_of; now rewrite Hvulns).
    rewrite Hof in Hhere.
    destruct (forEach_vulnerabilities_recognized vulns acc f Hacc Hhere) as (acc1 & Hstep & Hacc1).
    destruct (IH acc1 _ Hacc1 Hshape' Hrest) as (acc2 & Hloop & Hacc2).
    exists acc2. cbn [forEach_items]. unfold bucket_result at 1.
    rewrite Hvulns. cbn [bind forEach]. rewrite Hstep. cbn [bind]. split; [exact Hloop|].
    intros key. rewrite Hacc2. destruct (is_severity key); [|reflexivity].
    unfold findings_of_response. cbn [flat_map]. rewrite Hof.
    rewrite <- app_assoc, <- expected_bucket_app. reflexivity.
Qed.

(** Every recognized finding lies in exactly one of the four buckets. *)
Lemma expected_buckets_total (vulns : list JsValue) :
  Forall recognized vulns ->
  length (expected_bucket "low" vulns) + length (expected_bucket "medium" vulns)
  + length (expected_bucket "high" vulns) + length (expected_bucket "critical" vulns)
  = length vulns.
Proof.
  induction 1 as [|v vulns (s & Hsev & Hrec) _ IH]; [reflexivity|].
  destruct (finding_of_ok _ _ Hsev) as (finding & Hfinding & _).
  cbn [expected_bucket]. unfold severity_key. rewrite Hsev, Hfinding.
  unfold is_severity, severities in Hrec. cbn [existsb] in Hrec.
  destruct (String.eqb_spec (JsString.toLowerCase s) "low") as [Heq|];
    [rewrite ?Heq; cbn [String.eqb Ascii.eqb Bool.eqb andb length]; lia|].
  destruct (String.eqb_spec (JsString.toLowerCase s) "medium") as [Heq|];
    [rewrite ?Heq; cbn [String.eqb Ascii.eqb Bool.eqb andb length]; lia|].
  destruct (String.eqb_spec (JsString.toLowerCase s) "high") as [Heq|];
    [rewrite ?Heq; cbn [String.eqb Ascii.eqb Bool.eqb andb length]; lia|].
  destruct (String.eqb_spec (JsString.toLowerCase s) "critical") as [Heq|];
    [rewrite ?Heq; cbn [String.eqb Ascii.eqb Bool.eqb andb length]; lia|].
  discriminate Hrec.
Qed.

Lemma get_array_truthy (name : string) (v : JsValue) (items : list JsValue) :
  get name v = Ok (JsArray items) -> truthy v = true.
Proof. destruct v; simpl; congruence. Qed.

(** C4.  For a response whose findings all carry a severity that lower-cases
    to low, medium, high or critical, [parseVulnerabilities] returns an object
    with exactly these four keys; every bucket holds the findings of its
    severity in response order (result list first, nested list second), and
    the four buckets together hold as many findings as the response. *)
Theorem parseVulnerabilities_buckets (response : JsValue) (results : list JsValue) :
  get "result" response = Ok (JsArray results) ->
  Forall (fun res => exists vulns, get "vulnerabilities" res = Ok (JsArray vulns)) results ->
  Forall recognized (findings_of_response results) ->
  exists buckets,
    parseVulnerabilities response = Ok buckets
    /\ dom buckets = ({[ "low"; "medium"; "high"; "critical" ]} : gset string)
    /\ (forall key, In key severities ->
          buckets !! key = Some (expected_bucket key (findings_of_response results)))
    /\ length (default [] (buckets !! "low")) + length (default [] (buckets !! "medium"))
       + length (default [] (buckets !! "high")) + length (default [] (buckets !! "critical"))
       = length (findings_of_response results).
Proof.
  intros Hresult Hshape Hall.
  destruct (forEach_results_recognized results empty_buckets _ empty_buckets_are Hshape Hall)
    as (buckets & Hrun & Hbuckets).
  exists buckets. split; [|split; [|split]].
  - unfold parseVulnerabilities.
    rewrite (get_array_truthy _ _ _ Hresult), Hresult. cbn [bind truthy forEach]. exact Hrun.
  - exact (buckets_dom _ _ Hbuckets).
  - intros key Hkey. rewrite Hbuckets.
    assert (is_severity key = true) as ->.
    { unfold is_severity. apply existsb_exists. exists key. split; [exact Hkey|].
      apply String.eqb_refl. }
    reflexivity.
  - rewrite !Hbuckets. cbn [is_severity severities existsb String.eqb Ascii.eqb Bool.eqb
                            andb orb default app].
    apply expected_buckets_total, Hall.
Qed.

Lemma parseVulnerabilities_buckets_witness :
  exists buckets,
    parseVulnerabilities sample_response = Ok buckets
    /\ (map title <$> buckets !! "high") = Some [JsStr "CVE-A"; JsStr "CVE-C"]
    /\ (map title <$> buckets !! "low") = Some [JsStr "CVE-B"]
    /\ buckets !! "medium" = Some [] /\ buckets !! "critical" = Some [].
Proof.
  destruct (parseVulnerabilities_buckets sample_response
              [ JsObject [("vulnerabilities",
                           JsArray [api_finding "CVE-A" "HIGH" (7 # 1);
                                    api_finding "CVE-B" "low" (2 # 1)])];
                JsObject [("vulnerabilities", JsArray [])];
                JsObject [("vulnerabilities", JsArray [api_finding "CVE-C" "High" (8 # 1)])] ])
    as (buckets & Hparse & _ & Hkeys & _).
  - reflexivity.
  - repeat constructor; eexists; reflexivity.
  - repeat constructor; eexists; split; reflexivity.
  - exists buckets. split; [exact Hparse|].
    rewrite (Hkeys "high"), (Hkeys "low"), (Hkeys "medium"), (Hkeys "critical")
      by (simpl; tauto).
    repeat split; reflexivity.
Defined.

Lemma bucket_vulnerability_keys (acc acc' : gmap string (list Finding)) (v : JsValue) :
  has_severity_keys acc -> bucket_vulnerability acc v = Ok acc' -> has_severity_keys acc'.
Proof.
  intros [f Hacc]. unfold bucket_vulnerability.
  destruct (severity_of v) as [raw|]; [|discriminate]. cbn [bind].
  destruct (call_toLowerCase raw) as [severity|]; [|discriminate]. cbn [bind].
  pose proof (Hacc severity) as Hlookup.
  destruct (acc !! severity) as [bucket|]; [|discriminate].
  destruct (finding_of v) as [finding|]; [|discriminate]. cbn [bind].
  intros [= <-].
  destruct (is_severity severity) eqn:Hsev; [|discriminate].
  exists (fun key => if decide (severity = key) then bucket ++ [finding] else f key).
  intros key. rewrite lookup_insert. case_decide as Hkey.
  - subst key. now rewrite Hsev.
  - apply Hacc.
Qed.

Lemma forEach_items_keeps {S : Type} (P : S -> Prop) (f : S -> JsValue -> Result S) :
  (forall a x a', P a -> f a x = Ok a' -> P a') ->
  forall items acc acc', P acc -> forEach_items f items acc = Ok acc' -> P acc'.
Proof.
  intros Hf. induction items as [|x items IH]; intros acc acc' Hacc; cbn [forEach_items].
  - now intros [= <-].
  - destruct (f acc x) as [a|] eqn:E; [|discriminate]. cbn [bind].
    apply IH. eapply Hf; eassumption.
Qed.

Lemma forEach_items_throws {S : Type} (P : S -> Prop) (f : S -> JsValue -> Result S)
    (bad : JsValue) :
  (forall a x a', P a -> f a x = Ok a' -> P a') ->
  (forall a, P a -> throws (f a bad)) ->
  forall items acc, P acc -> In bad items -> throws (forEach_items f items acc).
Proof.
  intros Hf Hbad. induction items as [|x items IH]; intros acc Hacc; [intros []|].
  intros [-> | Hin]; cbn [forEach_items].
  - destruct (Hbad acc Hacc) as [e ->]. now exists e.
  - destruct (f acc x) as [a|e] eqn:E; [|now exists e]. cbn [bind].
    apply IH; [|exact Hin]. eapply Hf; eassumption.
Qed.

Lemma bucket_result_keys (acc acc' : gmap string (list Finding)) (res : JsValue) :
  has_severity_keys acc -> bucket_result acc res = Ok acc' -> has_severity_keys acc'.
Proof.
  intros Hacc. unfold bucket_result.
  destruct (get "vulnerabilities" res) as [vulns|]; [|discriminate]. cbn [bind].
  destruct vulns; try discriminate. cbn [forEach].
  apply (forEach_items_keeps has_severity_keys bucket_vulnerability); [|exact Hacc].
  intros a x a'. apply bucket_vulnerability_keys.
Qed.

Lemma bucket_vulnerability_unrecognized (acc : gmap string (list Finding))
    (v : JsValue) (s : string) :
  has_severity_keys acc ->
  severity_of v = Ok (JsStr s) -> is_severity (JsString.toLowerCase s) = false ->
  throws (bucket_vulnerability acc v).
Proof.
  intros [f Hacc] Hsev Hrec. unfold bucket_vulnerability.
  rewrite Hsev. cbn [bind call_toLowerCase]. rewrite Hacc, Hrec. now eexists.
Qed.

(** C5.  A response with a finding whose severity string does not lower-case
    to low, medium, high or critical makes [parseVulnerabilities] throw; no
    result that leaves the finding out is returned. *)
Theorem parseVulnerabilities_unrecognized_throws
    (response : JsValue) (results vulns : list JsValue) (res v : JsValue) (s : string) :
  get "result" response = Ok (JsArray results) ->
  In res results ->
  get "vulnerabilities" res = Ok (JsArray vulns) ->
  In v vulns ->
  severity_of v = Ok (JsStr s) ->
  is_severity (JsString.toLowerCase s) = false ->
  throws (parseVulnerabilities response).
Proof.
  intros Hresult Hres Hvulns Hv Hsev Hrec. unfold parseVulnerabilities.
  rewrite (get_array_truthy _ _ _ Hresult), Hresult. cbn [bind truthy forEach].
  apply (forEach_items_throws has_severity_keys bucket_result res).
  - intros a x a'. apply bucket_result_keys.
  - intros a Ha. unfold bucket_result. rewrite Hvulns. cbn [bind forEach].
    apply (forEach_items_throws has_severity_keys bucket_vulnerability v).
    + intros b x b'. apply bucket_vulnerability_keys.
    + intros b Hb. exact (bucket_vulnerability_unrecognized b v s Hb Hsev Hrec).
    + exact Ha.
    + exact Hv.
  - exists (fun _ => []). apply empty_buckets_are.
  - exact Hres.
Qed.

Lemma parseVulnerabilities_unrecognized_throws_witness :
  throws (parseVulnerabilities
            (api_response [ [ api_finding "CVE-A" "high" (7 # 1);
                              api_finding "CVE-D" "None" (0 # 1) ] ])).
Proof.
  apply (parseVulnerabilities_unrecognized_throws _
           [ JsObject [("vulnerabilities",
                        JsArray [api_finding "CVE-A" "high" (7 # 1);
                                 api_finding "CVE-D" "None" (0 # 1)])] ]
           [api_finding "CVE-A" "high" (7 # 1); api_finding "CVE-D" "None" (0 # 1)]
           (JsObject [("vulnerabilities",
                       JsArray [api_finding "CVE-A" "high" (7 # 1);
                                api_finding "CVE-D" "None" (0 # 1)])])
           (api_finding "CVE-D" "None" (0 # 1)) "None").
  - reflexivity.
  - simpl. tauto.
  - reflexivity.
  - simpl. tauto.
  - reflexivity.
  - reflexivity.
Defined.

(** C9.  For [null], [undefined] and an object whose [result] property is
    missing or falsy, [parseVulnerabilities] returns without an exception the
    object with the four keys, each bound to the empty list. *)
Theorem parseVulnerabilities_without_result (response : JsValue) :
  response = JsNull \/ response = JsUndefined
  \/ (exists props, response = JsObject props /\ truthy (assoc "result" props) = false) ->
  parseVulnerabilities response = Ok empty_buckets
  /\ dom empty_buckets = ({[ "low"; "medium"; "high"; "critical" ]} : gset string)
  /\ forall key, In key severities -> empty_buckets !! key = Some [].
Proof.
  intros Hresponse. split; [|split].
  - destruct Hresponse as [-> | [-> | (props & -> & Hfalsy)]]; try reflexivity.
    unfold parseVulnerabilities. cbn [truthy get bind]. rewrite Hfalsy. reflexivity.
  - exact (buckets_dom _ _ empty_buckets_are).
  - intros key Hkey. rewrite empty_buckets_are.
    assert (is_severity key = true) as ->; [|reflexivity].
    unfold is_severity. apply existsb_exists. exists key. split; [exact Hkey|].
    apply String.eqb_refl.
Qed.

Lemma parseVulnerabilities_without_result_witness :
  parseVulnerabilities (JsObject [("error", JsStr "rate limited"); ("result", JsNull)])
  = Ok empty_buckets.
Proof.
  apply parseVulnerabilities_without_result. right. right.
  eexists. split; reflexivity.
Defined.

(** ** Address resolution *)


Example getIpAddresses_server_failure :
  getIpAddresses "example.org"
    (Throw {| code := Some "ESERVFAIL"; message := "queryA ESERVFAIL example.org" |})
  = ([mkLine StdError "Error resolving hostname example.org: queryA ESERVFAIL example.org"],
     Ok []).
Proof. reflexivity. Qed.

Example getIpAddresses_resolved :
  snd (getIpAddresses "example.org" (Ok ["192.0.2.10"; "192.0.2.11"]))
  = Ok ["192.0.2.10"; "192.0.2.11"].
Proof. reflexivity. Qed.

(** ** Sockets *)

Lemma run_destroyed {A : Type} (l : Socket.Listeners A) (p : Probe A)
    (events : list SocketEvent) :
  destroyed (socket p) = true -> Socket.run l p events = p.
Proof.
  intros Hp. unfold Socket.run. induction events as [|ev events IH]; [reflexivity|].
  cbn [fold_left]. unfold Socket.deliver at 2. rewrite Hp. exact IH.
Qed.

Lemma run_cons {A : Type} (l : Socket.Listeners A) (p : Probe A) (ev : SocketEvent)
    (events : list SocketEvent) :
  Socket.run l p (ev :: events) = Socket.run l (Socket.deliver l p ev) events.
Proof. reflexivity. Qed.

Lemma getHostBanner_deliver_closed (p : Probe string) (ev : SocketEvent) :
  closed_when_settled p ->
  closed_when_settled (Socket.deliver getHostBanner_listeners p ev).
Proof.
  unfold closed_when_settled, Socket.deliver. destruct p as [[t i d e] st out od].
  cbn [socket settled destroyed].
  destruct d; [auto|]. destruct st; try discriminate. intros _.
  destruct ev as [|chunk|err|ms]; cbn.
  - reflexivity.
  - destruct od; reflexivity.
  - reflexivity.
  - destruct t as [limit|]; [|reflexivity].
    destruct ((i <? limit)%N && (limit <=? i + ms)%N); reflexivity.
Qed.

Lemma getHostBanner_closed (host : string) (port : N) (events : list SocketEvent) :
  closed_when_settled (getHostBanner host port events).
Proof.
  unfold getHostBanner, Socket.run.
  assert (H : closed_when_settled (Socket.start (A := string) (Some 5000%N))) by reflexivity.
  revert H. generalize (Socket.start (A := string) (Some 5000%N)).
  induction events as [|ev events IH]; intros p Hp; [exact Hp|].
  cbn [fold_left]. apply IH, getHostBanner_deliver_closed, Hp.
Qed.

(** The scenarios of a banner probe. *)
Lemma getHostBanner_error (host : string) (port : N) (err : JsError)
    (rest : list SocketEvent) :
  settled (getHostBanner host port (Error err :: rest)) = Rejected err.
Proof. unfold getHostBanner. rewrite run_cons, run_destroyed; reflexivity. Qed.

Lemma getHostBanner_connect_error (host : string) (port : N) (err : JsError)
    (rest : list SocketEvent) :
  settled (getHostBanner host port (Connect :: Error err :: rest)) = Rejected err.
Proof. unfold getHostBanner. rewrite !run_cons, run_destroyed; reflexivity. Qed.

Lemma getHostBanner_banner (host : string) (port : N) (banner : string)
    (rest : list SocketEvent) :
  settled (getHostBanner host port (Connect :: Data banner :: rest)) = Fulfilled banner.
Proof. unfold getHostBanner. rewrite !run_cons, run_destroyed; reflexivity. Qed.

Lemma getHostBanner_idle (host : string) (port : N) (ms : N) (rest : list SocketEvent) :
  (5000 <= ms)%N ->
  settled (getHostBanner host port (Idle ms :: rest))
  = Rejected (mkError None "Connection timed out").
Proof.
  intros Hms. unfold getHostBanner. rewrite run_cons.
  assert (Socket.deliver getHostBanner_listeners (Socket.start (Some 5000%N)) (Idle ms)
          = mkProbe (mkSocket (Some 5000%N) ms true false)
                    (Rejected (mkError None "Connection timed out")) [] false) as ->.
  { unfold Socket.deliver, Socket.start, Socket.fresh.
    cbn [socket destroyed timeout idle getHostBanner_listeners Socket.on_timeout].
    replace ((0 <? 5000)%N && (5000 <=? 0 + ms)%N) with true; [reflexivity|].
    symmetry. apply andb_true_iff. split; [reflexivity | apply N.leb_le; lia]. }
  rewrite run_destroyed; reflexivity.
Qed.

Lemma getHostBanner_connect_idle (host : string) (port : N) (ms : N)
    (rest : list SocketEvent) :
  (5000 <= ms)%N ->
  settled (getHostBanner host port (Connect :: Idle ms :: rest))
  = Rejected (mkError None "Connection timed out").
Proof.
  intros Hms. unfold getHostBanner. rewrite !run_cons.
  assert (Socket.deliver getHostBanner_listeners
            (Socket.deliver getHostBanner_listeners (Socket.start (Some 5000%N)) Connect)
            (Idle ms)
          = mkProbe (mkSocket (Some 5000%N) ms true false)
                    (Rejected (mkError None "Connection timed out")) [] true) as ->.
  { unfold Socket.deliver, Socket.start, Socket.fresh.
    cbn [socket destroyed timeout idle getHostBanner_listeners Socket.on_timeout
         Socket.on_connect Socket.once Socket.set_idle Socket.with_socket].
    replace ((0 <? 5000)%N && (5000 <=? 0 + ms)%N) with true; [reflexivity|].
    symmetry. apply andb_true_iff. split; [reflexivity | apply N.leb_le; lia]. }
  rewrite run_destroyed; reflexivity.
Qed.

(** ** The database check *)

(** C6, as stated, fails: a connection that is established but stays silent
    for five seconds ends in the prober's timeout, and the check reports
    secure although the connect succeeded. *)
Lemma mysql_silent_connect_counterexample :
  testMySQLService "203.0.113.7" 3306 [Connect; Idle 5000]
  = ([mkLine StdLog "MySQL service is not exposed on 203.0.113.7:3306"], Fulfilled true)
  /\ ~ (forall host events secure,
          In Connect events ->
          snd (testMySQLService host 3306 events) = Fulfilled secure ->
          secure = false).
Proof.
  split; [reflexivity|].
  intros H.
  specialize (H "203.0.113.7" [Connect; Idle 5000] true (or_introl eq_refl) eq_refl).
  discriminate H.
Qed.

(** C6 (amended).  The database check of the current network module reports
    secure exactly when its banner probe is rejected with a message that
    contains "Connection timed out" or "ECONNREFUSED": on a refused
    connection, on five seconds without activity before the connection is
    established, and also on five seconds of silence after a successful
    connect.  It reports insecure when a banner is read and when the probe
    fails in another way.  The check of bin/network.js reports insecure as
    soon as the connection is established and secure on every socket error
    and on the timeout. *)
Theorem testMySQLService_outcomes (host : string) (port : N) :
  (forall events secure,
     snd (testMySQLService host port events) = Fulfilled secure ->
     (secure = true <->
      exists error, settled (getHostBanner host port events) = Rejected error
                    /\ timed_out_or_refused error = true))
  /\ (forall error rest,
        JsString.includes (message error) "ECONNREFUSED" = true ->
        snd (testMySQLService host port (Error error :: rest)) = Fulfilled true)
  /\ (forall ms rest,
        (5000 <= ms)%N ->
        snd (testMySQLService host port (Idle ms :: rest)) = Fulfilled true
        /\ snd (testMySQLService host port (Connect :: Idle ms :: rest)) = Fulfilled true)
  /\ (forall banner rest,
        snd (testMySQLService host port (Connect :: Data banner :: rest)) = Fulfilled false)
  /\ (forall error rest,
        timed_out_or_refused error = false ->
        snd (testMySQLService host port (Error error :: rest)) = Fulfilled false)
  /\ (forall rest,
        settled (BinNetwork.testMySQLService host port (Connect :: rest)) = Fulfilled false)
  /\ (forall error rest,
        settled (BinNetwork.testMySQLService host port (Error error :: rest)) = Fulfilled true)
  /\ (forall ms rest,
        (5000 <= ms)%N ->
        settled (BinNetwork.testMySQLService host port (Idle ms :: rest)) = Fulfilled true).
Proof.
  repeat apply conj.
  - intros events secure. unfold testMySQLService.
    destruct (settled (getHostBanner host port events)) as [|banner|error].
    + discriminate.
    + destruct (truthy (JsStr banner)); intros [= <-];
        (split; [discriminate | intros (e & [=] & _)]).
    + destruct (timed_out_or_refused error) eqn:E; intros [= <-].
      * split; [eauto | reflexivity].
      * split; [discriminate | intros (e & [= <-] & He); congruence].
  - intros error rest Hrefused. unfold testMySQLService.
    rewrite getHostBanner_error. unfold timed_out_or_refused.
    rewrite Hrefused, orb_true_r. reflexivity.
  - intros ms rest Hms. unfold testMySQLService.
    rewrite (getHostBanner_idle host port ms rest Hms).
    rewrite (getHostBanner_connect_idle host port ms rest Hms). split; reflexivity.
  - intros banner rest. unfold testMySQLService. rewrite getHostBanner_banner.
    destruct (truthy (JsStr banner)); reflexivity.
  - intros error rest Hother. unfold testMySQLService.
    rewrite getHostBanner_error, Hother. reflexivity.
  - intros rest. unfold BinNetwork.testMySQLService.
    rewrite run_cons, run_destroyed; reflexivity.
  - intros error rest. unfold BinNetwork.testMySQLService.
    rewrite run_cons, run_destroyed; reflexivity.
  - intros ms rest Hms. unfold BinNetwork.testMySQLService. rewrite run_cons.
    assert (Hfire : ((0 <? 5000)%N && (5000 <=? 0 + ms)%N) = true).
    { apply andb_true_iff. split; [reflexivity | apply N.leb_le; lia]. }
    rewrite run_destroyed;
      unfold Socket.deliver, Socket.start, Socket.fresh;
      cbn [socket destroyed timeout idle BinNetwork.testMySQLService_listeners
           Socket.on_timeout];
      rewrite Hfire; reflexivity.
Qed.

Lemma testMySQLService_outcomes_witness :
  snd (testMySQLService "203.0.113.7" 3306 [Error connection_refused]) = Fulfilled true
  /\ snd (testMySQLService "203.0.113.7" 3306 [Connect; Idle 5000]) = Fulfilled true
  /\ snd (testMySQLService "203.0.113.7" 3306 [Error host_unreachable]) = Fulfilled false
  /\ settled (BinNetwork.testMySQLService "203.0.113.7" 3306 [Idle 2500; Idle 2500])
     = Fulfilled true.
Proof.
  destruct (testMySQLService_outcomes "203.0.113.7" 3306)
    as (_ & Hrefused & Hidle & _ & Hother & _ & _ & _).
  split; [|split; [|split]].
  - apply Hrefused. reflexivity.
  - apply (Hidle 5000%N []). lia.
  - apply Hother. reflexivity.
  - reflexivity.
Defined.

(** ** Timeouts *)

(** What holds of the banner prober: five seconds without activity reject
    the probe with "Connection timed out", and a settled probe has destroyed
    its socket, whether it ended with a banner, an error or a timeout. *)
Lemma getHostBanner_bounded (host : string) (port : N) :
  (forall ms rest,
     (5000 <= ms)%N ->
     settled (getHostBanner host port (Idle ms :: rest))
     = Rejected (mkError None "Connection timed out"))
  /\ (forall events,
        settled (getHostBanner host port events) <> Pending ->
        destroyed (socket (getHostBanner host port events)) = true).
Proof.
  split.
  - intros ms rest. apply getHostBanner_idle.
  - intros events Hsettled. pose proof (getHostBanner_closed host port events) as H.
    unfold closed_when_settled in H.
    destruct (settled (getHostBanner host port events)); [congruence | exact H | exact H].
Qed.

Lemma testSelfSignedCertificate_waits (host : string) (port : N) (cert : PeerCertificate)
    (waits : list N) :
  forall p : Probe bool,
    timeout (socket p) = None ->
    Socket.run (testSelfSignedCertificate_listeners host port cert) p (map Idle waits)
    = Socket.set_idle (fold_left N.add waits (idle (socket p))) p
    \/ destroyed (socket p) = true.
Proof.
  induction waits as [|ms waits IH]; intros p Hp.
  - left. destruct p as [[t i d e] st out od]. reflexivity.
  - destruct (destroyed (socket p)) eqn:Hd; [now right | left].
    cbn [map]. rewrite run_cons.
    assert (Hstep : Socket.deliver (testSelfSignedCertificate_listeners host port cert) p (Idle ms)
                    = Socket.set_idle (idle (socket p) + ms) p).
    { unfold Socket.deliver. rewrite Hd, Hp. reflexivity. }
    rewrite Hstep.
    destruct (IH (Socket.set_idle (idle (socket p) + ms) p)) as [-> | Hbad].
    + destruct p as [[t i d e] st out od]. exact Hp.
    + destruct p as [[t i d e] st out od]. reflexivity.
    + destruct p as [[t i d e] st out od]. cbn in Hbad, Hd. congruence.
Qed.

(** C7: the certificate check arms no timer.  However long the peer stays
    silent, its promise stays pending and its socket stays open, where the
    banner prober gives up after five seconds. *)
Theorem testSelfSignedCertificate_never_times_out (host : string) (port : N)
    (cert : PeerCertificate) (waits : list N) :
  let probe := testSelfSignedCertificate host port cert (map Idle waits) in
  settled probe = Pending
  /\ destroyed (socket probe) = false
  /\ timeout (socket probe) = None
  /\ settled (getHostBanner host port [Idle 5000])
     = Rejected (mkError None "Connection timed out").
Proof.
  intros probe. subst probe. unfold testSelfSignedCertificate.
  destruct (testSelfSignedCertificate_waits host port cert waits (Socket.start None) eq_refl)
    as [-> | Hbad]; [|discriminate Hbad].
  repeat split.
Qed.

Example testSelfSignedCertificate_silent_peer :
  settled (testSelfSignedCertificate "203.0.113.7" 443 NoCertificate
             [Idle 5000; Idle 60000; Idle 600000]) = Pending.
Proof. reflexivity. Qed.

(** ** Text wrapping *)

Lemma take_drop (n : nat) (s : string) : Wrap.take n s +:+ Wrap.drop n s = s.
Proof.
  revert s. induction n as [|n IH]; intros [|c s]; simpl; try reflexivity.
  now rewrite IH.
Qed.

Lemma length_take (n : nat) (s : string) : String.length (Wrap.take n s) <= n.
Proof.
  revert s. induction n as [|n IH]; intros [|c s]; simpl; try lia.
  specialize (IH s). lia.
Qed.

Lemma length_drop (n : nat) (c : ascii) (s : string) :
  String.length (Wrap.drop (S n) (String c s)) <= String.length s.
Proof.
  simpl. revert s. induction n as [|n IH]; intros [|d s]; simpl; try lia.
  specialize (IH s). lia.
Qed.

Lemma length_trimStart (s : string) :
  String.length (Wrap.trimStart s) <= String.length s.
Proof.
  induction s as [|c s IH]; simpl; [lia|]. destruct (Regex.space c); simpl; lia.
Qed.

Lemma length_append (a b : string) :
  String.length (a +:+ b) = String.length a + String.length b.
Proof. induction a as [|c a IH]; simpl; [reflexivity | now rewrite IH]. Qed.

Lemma drop_prefix (a b : string) : Wrap.drop (String.length a) (a +:+ b) = b.
Proof. induction a as [|c a IH]; simpl; [now destruct b | exact IH]. Qed.

Lemma last_pos_bound (c : ascii) (s : string) :
  (-1 <= Wrap.last_pos c s < Z.of_nat (String.length s))%Z
  \/ (Wrap.last_pos c s = -1)%Z.
Proof.
  induction s as [|d s IH]; simpl; [now right|].
  destruct (0 <=? Wrap.last_pos c s)%Z eqn:E.
  - left. apply Z.leb_le in E. destruct IH as [IH | IH]; lia.
  - destruct (Ascii.eqb d c); [left; lia | now right].
Qed.

Lemma lastIndexOf_le (c : ascii) (from : Z) (s : string) :
  (0 <= from)%Z -> (Wrap.lastIndexOf c from s <= from)%Z.
Proof.
  intros Hfrom. unfold Wrap.lastIndexOf.
  pose proof (last_pos_bound c (Wrap.take (S (Z.to_nat from)) s)) as H.
  pose proof (length_take (S (Z.to_nat from)) s) as Hlen.
  destruct H as [H | H]; lia.
Qed.

(** Dropping the fraction of a number that is not negative goes down to the
    next whole number. *)
Lemma ToInteger_floor (q : Q) : (0 <= q)%Q -> Wrap.ToInteger q = Qfloor q.
Proof.
  destruct q as [n d]. unfold Qle, Wrap.ToInteger, Qfloor. cbn. intros H.
  apply Z.quot_div_nonneg; lia.
Qed.

Lemma ToInteger_bounds (q : Q) :
  (0 <= q)%Q ->
  (0 <= Wrap.ToInteger q)%Z
  /\ (inject_Z (Wrap.ToInteger q) <= q)%Q
  /\ (q < inject_Z (Wrap.ToInteger q + 1))%Q.
Proof.
  intros H. rewrite (ToInteger_floor q H).
  split; [|split; [apply Qfloor_le | apply Qlt_floor]].
  change 0%Z with (Qfloor 0). now apply Qfloor_resp_le.
Qed.

Lemma positive_spec (x : Q) : Wrap.positive x = true <-> (0 < x)%Q.
Proof.
  unfold Wrap.positive. rewrite negb_true_iff, <- not_true_iff_false, Qle_bool_iff.
  split; [apply Qnot_le_lt | apply Qlt_not_le].
Qed.

Lemma positive_false (x : Q) : Wrap.positive x = false <-> (x <= 0)%Q.
Proof.
  unfold Wrap.positive. rewrite negb_false_iff, Qle_bool_iff. reflexivity.
Qed.

Lemma Qle_bool_false (x y : Q) : Qle_bool x y = false <-> (y < x)%Q.
Proof.
  rewrite <- not_true_iff_false, Qle_bool_iff.
  split; [apply Qnot_le_lt | apply Qlt_not_le].
Qed.

(** The cut in whole characters: at least one when the available width is no
    fraction between 0 and 1, none when it is, and never beyond the
    available width when there is any. *)
Lemma wrapPoint_bounds (availableWidth : Q) (currentText : string) :
  let cut := Wrap.index (Wrap.wrapPoint availableWidth currentText) in
  ((availableWidth <= 0 \/ 1 <= availableWidth)%Q -> 1 <= cut)
  /\ ((0 < availableWidth < 1)%Q -> cut = 0)
  /\ ((0 < availableWidth)%Q -> (inject_Z (Z.of_nat cut) <= availableWidth)%Q).
Proof.
  unfold Wrap.index, Wrap.wrapPoint.
  destruct (Wrap.positive availableWidth) eqn:Eroom.
  - apply positive_spec in Eroom.
    destruct (ToInteger_bounds availableWidth ltac:(lra)) as (Hnonneg & Hfloor & Hnext).
    pose proof (lastIndexOf_le " " (Wrap.ToInteger availableWidth) currentText Hnonneg) as Hle.
    destruct (Wrap.lastIndexOf " " (Wrap.ToInteger availableWidth) currentText <=? 0)%Z
      eqn:Efound.
    + assert (Qle_bool availableWidth 0 = false) as -> by (apply Qle_bool_false; lra).
      split; [|split].
      * intros [H | H]; [lra|].
        assert (1 <= Wrap.ToInteger availableWidth)%Z; [|lia].
        rewrite (ToInteger_floor availableWidth) by lra.
        change 1%Z with (Qfloor 1). now apply Qfloor_resp_le.
      * intros [_ H].
        assert (Wrap.ToInteger availableWidth < 1)%Z; [|lia].
        rewrite Zlt_Qlt. change (inject_Z 1) with 1%Q. lra.
      * intros _. rewrite Z2Nat.id by lia. exact Hfloor.
    + apply Z.leb_gt in Efound.
      assert (Hint : Wrap.ToInteger
                       (inject_Z (Wrap.lastIndexOf " " (Wrap.ToInteger availableWidth)
                                                   currentText))
                     = Wrap.lastIndexOf " " (Wrap.ToInteger availableWidth) currentText).
      { rewrite ToInteger_floor; [apply Qfloor_Z|].
        change 0%Q with (inject_Z 0). rewrite <- Zle_Qle. lia. }
      rewrite Hint. split; [|split].
      * intros _. lia.
      * intros [_ H]. exfalso.
        assert (Wrap.ToInteger availableWidth < 1)%Z; [|lia].
        rewrite Zlt_Qlt. change (inject_Z 1) with 1%Q. lra.
      * intros _. rewrite Z2Nat.id by lia.
        apply Qle_trans with (inject_Z (Wrap.ToInteger availableWidth)); [|exact Hfloor].
        rewrite <- Zle_Qle. exact Hle.
  - apply positive_false in Eroom. cbn.
    split; [|split]; intros H; try lra.
    change (Z.to_nat (Wrap.ToInteger (if Qle_bool 0 0 then 1%Q else 0%Q))) with 1. lia.
Qed.

Lemma trimStart_idempotent (s : string) :
  Wrap.trimStart (Wrap.trimStart s) = Wrap.trimStart s.
Proof.
  induction s as [|c s IH]; simpl; [reflexivity|].
  destruct (Regex.space c) eqn:E; [exact IH|]. simpl. now rewrite E.
Qed.

Lemma len_append (a b : string) : Wrap.len (a +:+ b) = (Wrap.len a + Wrap.len b)%Z.
Proof. unfold Wrap.len. rewrite length_append. lia. Qed.

(** A text that is not empty does not fit behind the prefix when there is
    room for less than one character. *)
Lemma no_fit (width : Q) (linePrefix : string) (c : ascii) (rest : string) :
  (width - inject_Z (Wrap.len linePrefix) < 1)%Q ->
  Qle_bool (inject_Z (Wrap.len (linePrefix +:+ String c rest))) width = false.
Proof.
  intros H. apply Qle_bool_false. rewrite len_append, inject_Z_plus.
  assert (1 <= inject_Z (Wrap.len (String c rest)))%Q; [|lra].
  change 1%Q with (inject_Z 1). rewrite <- Zle_Qle. unfold Wrap.len. simpl. lia.
Qed.

Lemma loop_total (width : Q) (linePrefix : string) :
  Wrap.room width linePrefix ->
  forall fuel currentText lines,
    String.length currentText <= fuel ->
    exists out, Wrap.loop fuel width linePrefix currentText lines = Some out.
Proof.
  intros Hroom. induction fuel as [|fuel IH]; intros currentText lines Hfuel.
  - destruct currentText; [now eexists | simpl in Hfuel; lia].
  - destruct currentText as [|c rest]; [now eexists|].
    cbn [Wrap.loop].
    destruct (Qle_bool _ width); [now eexists|].
    apply IH.
    pose proof (wrapPoint_bounds (width - inject_Z (Wrap.len linePrefix)) (String c rest))
      as [Hcut _].
    specialize (Hcut Hroom). cbv zeta in Hcut.
    destruct (Wrap.index (Wrap.wrapPoint (width - inject_Z (Wrap.len linePrefix))
                                         (String c rest)))
      as [|n] eqn:En; [lia|].
    pose proof (length_drop n c rest).
    pose proof (length_trimStart (Wrap.drop (S n) (String c rest))).
    simpl in Hfuel. lia.
Qed.

(** With room for less than one character the loop cuts nothing off: it goes
    on for ever on a text that is not only white space. *)
Lemma loop_stuck (width : Q) (linePrefix : string) :
  (0 < width - inject_Z (Wrap.len linePrefix) < 1)%Q ->
  forall fuel currentText lines,
    Wrap.trimStart currentText <> "" ->
    Wrap.loop fuel width linePrefix currentText lines = None.
Proof.
  intros Hroom. induction fuel as [|fuel IH]; intros currentText lines Htext.
  - destruct currentText as [|c rest]; [now contradiction Htext|].
    cbn [Wrap.loop]. now rewrite no_fit by apply Hroom.
  - destruct currentText as [|c rest]; [now contradiction Htext|].
    cbn [Wrap.loop]. rewrite no_fit by apply Hroom.
    pose proof (wrapPoint_bounds (width - inject_Z (Wrap.len linePrefix)) (String c rest))
      as (_ & Hcut & _).
    cbv zeta in Hcut. rewrite (Hcut Hroom). cbn [Wrap.drop Wrap.take].
    apply IH. now rewrite trimStart_idempotent.
Qed.

Lemma integer_room (width : Z) (linePrefix : string) :
  Wrap.room (inject_Z width) linePrefix.
Proof.
  unfold Wrap.room.
  destruct (Z_le_gt_dec (width - Wrap.len linePrefix) 0) as [H | H]; [left | right].
  - unfold Z.sub in H. rewrite Zle_Qle, inject_Z_plus, inject_Z_opp in H. exact H.
  - assert (H1 : (1 <= width - Wrap.len linePrefix)%Z) by lia.
    unfold Z.sub in H1. rewrite Zle_Qle, inject_Z_plus, inject_Z_opp in H1. exact H1.
Qed.

(** X1.  [wrapText] terminates on every text and prefix whenever the room
    behind the prefix, [width - linePrefix.length], is no fraction between 0
    and 1: so for every whole width, also a zero or negative one and one that
    the prefix alone exceeds.  One round of its loop per character of the
    text is then enough.  A text that fits the width comes back on a single
    line behind the prefix.  With room for a fraction of a character the
    loop cuts nothing off and pushes one empty line after the other, so the
    call never returns unless the text is only white space. *)
Theorem wrapLines_total (text : string) (width : Q) (linePrefix : string) :
  (Wrap.room width linePrefix ->
   exists lines, Wrap.wrapLines text width linePrefix = Some lines
                 /\ Wrap.wrapText text width linePrefix
                    = Some (match text with EmptyString => "" | _ => Wrap.join lines end))
  /\ (forall whole : Z,
        exists lines, Wrap.wrapLines text (inject_Z whole) linePrefix = Some lines)
  /\ (text <> "" -> (inject_Z (Wrap.len (linePrefix +:+ text)) <= width)%Q ->
      Wrap.wrapText text width linePrefix = Some (linePrefix +:+ text))
  /\ ((0 < width - inject_Z (Wrap.len linePrefix) < 1)%Q ->
      Wrap.trimStart text <> "" ->
      forall fuel lines, Wrap.loop fuel width linePrefix text lines = None).
Proof.
  split; [|split; [|split]].
  - intros Hroom.
    destruct (loop_total width linePrefix Hroom (String.length text) text [] (le_n _))
      as [out Hout].
    exists out. split; [exact Hout|].
    unfold Wrap.wrapText. destruct text; [reflexivity|].
    unfold Wrap.wrapLines in *. now rewrite Hout.
  - intros whole.
    exact (loop_total (inject_Z whole) linePrefix (integer_room whole linePrefix)
                      (String.length text) text [] (le_n _)).
  - intros Htext Hfits. destruct text as [|c rest]; [congruence|].
    unfold Wrap.wrapText, Wrap.wrapLines. cbn [Wrap.loop String.length].
    apply Qle_bool_iff in Hfits. rewrite Hfits. reflexivity.
  - intros Hroom Htext fuel lines. now apply loop_stuck.
Qed.

Lemma wrapLines_total_witness :
  Wrap.wrapText "CVE-2024-6387: race in sshd" 100 "" = Some "CVE-2024-6387: race in sshd".
Proof.
  apply (wrapLines_total "CVE-2024-6387: race in sshd" 100 "");
    [discriminate | vm_compute; discriminate].
Defined.

Example wrapText_half_a_character :
  (forall fuel, Wrap.loop fuel (1 # 2) "" "abc" [] = None)
  /\ Wrap.wrapText " " (1 # 2) "" = Some "".
Proof.
  split; [|reflexivity].
  intros fuel. apply (wrapLines_total "abc" (1 # 2) ""); [split; reflexivity | discriminate].
Qed.

Lemma loop_width (width : Q) (linePrefix : string) :
  (inject_Z (Wrap.len linePrefix) < width)%Q ->
  forall fuel currentText lines out,
    Forall (fun line => (inject_Z (Wrap.len line) <= width)%Q) lines ->
    Wrap.loop fuel width linePrefix currentText lines = Some out ->
    Forall (fun line => (inject_Z (Wrap.len line) <= width)%Q) out.
Proof.
  intros Hroom. induction fuel as [|fuel IH]; intros currentText lines out Hlines.
  - destruct currentText as [|c rest]; cbn [Wrap.loop]; [now intros [= <-]|].
    destruct (Qle_bool _ width) eqn:E; [|discriminate].
    intros [= <-]. apply Forall_app. split; [exact Hlines|].
    constructor; [now apply Qle_bool_iff | constructor].
  - destruct currentText as [|c rest]; cbn [Wrap.loop]; [now intros [= <-]|].
    destruct (Qle_bool _ width) eqn:E.
    + intros [= <-]. apply Forall_app. split; [exact Hlines|].
      constructor; [now apply Qle_bool_iff | constructor].
    + apply IH. apply Forall_app. split; [exact Hlines|].
      constructor; [|constructor].
      pose proof (wrapPoint_bounds (width - inject_Z (Wrap.len linePrefix)) (String c rest))
        as (_ & _ & Hhi).
      cbv zeta in Hhi. specialize (Hhi ltac:(lra)).
      set (cut := Wrap.index _) in *.
      pose proof (length_take cut (String c rest)) as Htake.
      rewrite len_append, inject_Z_plus.
      assert (inject_Z (Wrap.len (Wrap.take cut (String c rest))) <= inject_Z (Z.of_nat cut))%Q.
      { rewrite <- Zle_Qle. unfold Wrap.len. lia. }
      lra.
Qed.

(** X2.  When the prefix is shorter than the width, no line that [wrapText]
    builds is longer than the width (prefix included). *)
Theorem wrapLines_width (text : string) (width : Q) (linePrefix : string)
    (lines : list string) :
  (inject_Z (Wrap.len linePrefix) < width)%Q ->
  Wrap.wrapLines text width linePrefix = Some lines ->
  Forall (fun line => (inject_Z (Wrap.len line) <= width)%Q) lines.
Proof.
  intros Hroom. apply (loop_width width linePrefix Hroom). constructor.
Qed.

Lemma wrapLines_width_witness :
  Forall (fun line => (inject_Z (Wrap.len line) <= 10)%Q)
         ["> the"; "> quick"; "> brown"; "> fox"; "> jumps"; "> over the"; "> lazy dog"].
Proof.
  apply (wrapLines_width "the quick brown fox jumps over the lazy dog" 10 "> ");
    [reflexivity | reflexivity].
Defined.

Lemma squeeze_app (a b : string) :
  Wrap.squeeze (a +:+ b) = Wrap.squeeze a +:+ Wrap.squeeze b.
Proof.
  induction a as [|c a IH]; simpl; [reflexivity|].
  destruct (Regex.space c); simpl; now rewrite IH.
Qed.

Lemma squeeze_trimStart (s : string) : Wrap.squeeze (Wrap.trimStart s) = Wrap.squeeze s.
Proof.
  induction s as [|c s IH]; simpl; [reflexivity|].
  destruct (Regex.space c) eqn:E; [exact IH|]. simpl. now rewrite E.
Qed.

Lemma bodies_app (linePrefix : string) (a b : list string) :
  Wrap.bodies linePrefix (a ++ b) = Wrap.bodies linePrefix a +:+ Wrap.bodies linePrefix b.
Proof.
  induction a as [|line a IH]; simpl; [reflexivity|].
  now rewrite IH, append_assoc.
Qed.

Lemma loop_content (width : Q) (linePrefix : string) :
  forall fuel currentText lines out,
    Wrap.loop fuel width linePrefix currentText lines = Some out ->
    Wrap.squeeze (Wrap.bodies linePrefix out)
    = Wrap.squeeze (Wrap.bodies linePrefix lines) +:+ Wrap.squeeze currentText.
Proof.
  assert (Hone : forall lines body,
    Wrap.squeeze (Wrap.bodies linePrefix (lines ++ [linePrefix +:+ body]))
    = Wrap.squeeze (Wrap.bodies linePrefix lines) +:+ Wrap.squeeze body).
  { intros lines body. rewrite bodies_app, squeeze_app. cbn [Wrap.bodies].
    now rewrite drop_prefix, append_nil_r. }
  induction fuel as [|fuel IH]; intros currentText lines out.
  - destruct currentText as [|c rest]; cbn [Wrap.loop].
    + intros [= <-]. now rewrite append_nil_r.
    + destruct (Qle_bool _ width); [|discriminate].
      intros [= <-]. apply Hone.
  - destruct currentText as [|c rest]; cbn [Wrap.loop].
    + intros [= <-]. now rewrite append_nil_r.
    + destruct (Qle_bool _ width).
      * intros [= <-]. apply Hone.
      * intros H. rewrite (IH _ _ _ H), Hone, squeeze_trimStart, append_assoc, <- squeeze_app.
        now rewrite take_drop.
Qed.

(** X3.  Wrapping loses and reorders nothing but white space: the lines that
    [wrapText] builds, taken without their prefix and without white space,
    spell the text without its white space. *)
Theorem wrapLines_content (text : string) (width : Q) (linePrefix : string)
    (lines : list string) :
  Wrap.wrapLines text width linePrefix = Some lines ->
  Wrap.squeeze (Wrap.bodies linePrefix lines) = Wrap.squeeze text.
Proof.
  intros H. apply loop_content in H. exact H.
Qed.

Lemma wrapLines_content_witness :
  Wrap.squeeze (Wrap.bodies "> " ["> the"; "> quick"; "> brown"; "> fox"; "> jumps";
                                  "> over the"; "> lazy dog"])
  = "thequickbrownfoxjumpsoverthelazydog".
Proof.
  apply (wrapLines_content "the quick brown fox jumps over the lazy dog" 10 "> ").
  reflexivity.
Defined.

Lemma trimStart_head (s : string) : JsString.head_in Regex.space (Wrap.trimStart s) = false.
Proof.
  induction s as [|c s IH]; simpl; [reflexivity|].
  destruct (Regex.space c) eqn:E; [exact IH | exact E].
Qed.

Lemma loop_nonempty (width : Q) (linePrefix : string) :
  Wrap.room width linePrefix ->
  forall fuel currentText lines out,
    Wrap.loop fuel width linePrefix currentText lines = Some out ->
    exists added,
      out = lines ++ added
      /\ Forall (fun line => String.length linePrefix < String.length line) added.
Proof.
  intros Hroom.
  assert (Hlast : forall c rest lines,
    exists added,
      lines ++ [linePrefix +:+ String c rest] = lines ++ added
      /\ Forall (fun line => String.length linePrefix < String.length line) added).
  { intros c rest lines. exists [linePrefix +:+ String c rest]. split; [reflexivity|].
    constructor; [|constructor]. rewrite length_append. simpl. lia. }
  induction fuel as [|fuel IH]; intros currentText lines out.
  - destruct currentText as [|c rest]; cbn [Wrap.loop].
    + intros [= <-]. exists []. rewrite app_nil_r. split; [reflexivity | constructor].
    + destruct (Qle_bool _ width); [|discriminate].
      intros [= <-]. apply Hlast.
  - destruct currentText as [|c rest]; cbn [Wrap.loop].
    + intros [= <-]. exists []. rewrite app_nil_r. split; [reflexivity | constructor].
    + destruct (Qle_bool _ width).
      * intros [= <-]. apply Hlast.
      * intros H. apply IH in H as (added & -> & Hlong).
        pose proof (wrapPoint_bounds (width - inject_Z (Wrap.len linePrefix)) (String c rest))
          as [Hcut _].
        specialize (Hcut Hroom). cbv zeta in Hcut.
        destruct (Wrap.index (Wrap.wrapPoint (width - inject_Z (Wrap.len linePrefix))
                                             (String c rest)))
          as [|n] eqn:En; [lia|].
        exists ((linePrefix +:+ Wrap.take (S n) (String c rest)) :: added).
        split; [now rewrite <- app_assoc|].
        constructor; [|exact Hlong]. rewrite length_append. simpl. lia.
Qed.

Lemma take_head (n : nat) (s : string) :
  JsString.head_in Regex.space s = false ->
  JsString.head_in Regex.space (Wrap.take n s) = false.
Proof. destruct n, s; simpl; auto. Qed.

Lemma loop_starts (width : Q) (linePrefix : string) :
  forall fuel currentText lines out,
    Wrap.loop fuel width linePrefix currentText lines = Some out ->
    exists added,
      out = lines ++ added
      /\ match added with
         | [] => True
         | line :: more =>
             (JsString.head_in Regex.space currentText = false ->
              JsString.head_in Regex.space (Wrap.drop (String.length linePrefix) line) = false)
             /\ Forall (fun l => JsString.head_in Regex.space
                                   (Wrap.drop (String.length linePrefix) l) = false) more
         end.
Proof.
  assert (Hlast : forall c rest lines,
    exists added,
      lines ++ [linePrefix +:+ String c rest] = lines ++ added
      /\ match added with
         | [] => True
         | line :: more =>
             (JsString.head_in Regex.space (String c rest) = false ->
              JsString.head_in Regex.space (Wrap.drop (String.length linePrefix) line) = false)
             /\ Forall (fun l => JsString.head_in Regex.space
                                   (Wrap.drop (String.length linePrefix) l) = false) more
         end).
  { intros c rest lines. exists [linePrefix +:+ String c rest]. split; [reflexivity|].
    split; [|constructor]. now rewrite drop_prefix. }
  induction fuel as [|fuel IH]; intros currentText lines out.
  - destruct currentText as [|c rest]; cbn [Wrap.loop].
    + intros [= <-]. exists []. rewrite app_nil_r. now split.
    + destruct (Qle_bool _ width); [|discriminate].
      intros [= <-]. apply Hlast.
  - destruct currentText as [|c rest]; cbn [Wrap.loop].
    + intros [= <-]. exists []. rewrite app_nil_r. now split.
    + destruct (Qle_bool _ width).
      * intros [= <-]. apply Hlast.
      * intros H. apply IH in H as (added & -> & Hstart).
        set (cut := Wrap.index _) in *.
        exists ((linePrefix +:+ Wrap.take cut (String c rest)) :: added).
        split; [now rewrite <- app_assoc|]. split.
        -- rewrite drop_prefix. apply take_head.
        -- destruct added as [|line more]; [constructor|].
           destruct Hstart as [Hline Hmore]. constructor; [|exact Hmore].
           apply Hline, trimStart_head.
Qed.

Lemma trimStart_empty (s : string) :
  Wrap.trimStart (Wrap.trimStart s) = "" -> Wrap.trimStart s = "".
Proof. now rewrite trimStart_idempotent. Qed.

Lemma loop_fraction (width : Q) (linePrefix : string) :
  (0 < width - inject_Z (Wrap.len linePrefix) < 1)%Q ->
  forall fuel currentText lines out,
    currentText <> "" ->
    Wrap.loop fuel width linePrefix currentText lines = Some out ->
    out = lines ++ [linePrefix].
Proof.
  intros Hroom fuel currentText lines out Htext.
  destruct currentText as [|c rest]; [congruence|].
  destruct fuel as [|fuel]; cbn [Wrap.loop]; rewrite no_fit by apply Hroom; [discriminate|].
  pose proof (wrapPoint_bounds (width - inject_Z (Wrap.len linePrefix)) (String c rest))
    as (_ & Hcut & _).
  cbv zeta in Hcut. rewrite (Hcut Hroom). cbn [Wrap.drop Wrap.take].
  rewrite append_nil_r.
  destruct (Wrap.trimStart (String c rest)) as [|d more] eqn:Htrim.
  - destruct fuel; cbn [Wrap.loop]; now intros [= <-].
  - rewrite (loop_stuck width linePrefix Hroom); [discriminate|].
    rewrite <- Htrim, trimStart_idempotent, Htrim. discriminate.
Qed.

(** X4.  When the room behind the prefix is no fraction between 0 and 1, as
    for every whole width, every line that [wrapText] builds carries at least
    one character of the text behind the prefix.  At every width no line
    after the first starts, behind the prefix, with white space.  With room
    for a fraction of a character a call that returns at all (the text is
    only white space) returns a single line that holds the prefix alone. *)
Theorem wrapLines_shape (text : string) (width : Q) (linePrefix : string)
    (lines : list string) :
  Wrap.wrapLines text width linePrefix = Some lines ->
  (Wrap.room width linePrefix ->
   Forall (fun line => String.length linePrefix < String.length line) lines)
  /\ Forall (fun line => JsString.head_in Regex.space
                           (Wrap.drop (String.length linePrefix) line) = false)
            (tl lines)
  /\ ((0 < width - inject_Z (Wrap.len linePrefix) < 1)%Q -> text <> "" ->
      lines = [linePrefix]).
Proof.
  intros H. split; [|split].
  - intros Hroom. apply (loop_nonempty width linePrefix Hroom) in H as (added & -> & Hlong).
    exact Hlong.
  - apply loop_starts in H as (added & -> & Hstart).
    cbn [app]. destruct added as [|line more]; [constructor | apply Hstart].
  - intros Hroom Htext. exact (loop_fraction width linePrefix Hroom _ _ _ _ Htext H).
Qed.

Lemma wrapLines_shape_witness :
  Forall (fun line => 0 < String.length line) ["ab"; "cd  "]
  /\ Forall (fun line => JsString.head_in Regex.space line = false) ["cd  "].
Proof.
  destruct (wrapLines_shape "ab cd      " 4 "" ["ab"; "cd  "] eq_refl) as (Hlong & Hstart & _).
  split; [apply Hlong; right; vm_compute; discriminate | exact Hstart].
Defined.

(** ** Severity bucketing: what a normal return implies *)

Lemma bucket_vulnerability_ok (acc acc' : gmap string (list Finding)) (v : JsValue) :
  has_severity_keys acc -> bucket_vulnerability acc v = Ok acc' -> recognized v.
Proof.
  intros [f Hacc]. unfold bucket_vulnerability, recognized.
  destruct (severity_of v) as [raw|]; [|discriminate]. cbn [bind].
  destruct raw; try discriminate. cbn [call_toLowerCase bind].
  rewrite Hacc. destruct (is_severity (JsString.toLowerCase s)) eqn:E; [|discriminate].
  intros _. now exists s.
Qed.

Lemma forEach_vulnerabilities_ok (vulns : list JsValue) :
  forall acc acc',
    has_severity_keys acc ->
    forEach_items bucket_vulnerability vulns acc = Ok acc' ->
    Forall recognized vulns.
Proof.
  induction vulns as [|v vulns IH]; intros acc acc' Hacc; [constructor|].
  cbn [forEach_items].
  destruct (bucket_vulnerability acc v) as [acc1|] eqn:E; [|discriminate]. cbn [bind].
  intros H. constructor.
  - eapply bucket_vulnerability_ok; eassumption.
  - eapply IH; [|exact H]. eapply bucket_vulnerability_keys; eassumption.
Qed.

Lemma forEach_results_ok (results : list JsValue) :
  forall acc acc',
    has_severity_keys acc ->
    forEach_items bucket_result results acc = Ok acc' ->
    Forall (fun res => exists vulns, get "vulnerabilities" res = Ok (JsArray vulns)) results
    /\ Forall recognized (findings_of_response results).
Proof.
  induction results as [|res results IH]; intros acc acc' Hacc.
  - intros _. split; constructor.
  - cbn [forEach_items].
    destruct (bucket_result acc res) as [acc1|] eqn:E; [|discriminate]. cbn [bind].
    intros H.
    destruct (IH acc1 acc' (bucket_result_keys _ _ _ Hacc E) H) as [Hshape Hall].
    unfold bucket_result in E.
    destruct (get "vulnerabilities" res) as [vulns|] eqn:Eget; [|discriminate].
    cbn [bind] in E. destruct vulns as [| | | | | |vulns|]; try discriminate.
    cbn [forEach] in E. split.
    + constructor; [now exists vulns | exact Hshape].
    + unfold findings_of_response. cbn [flat_map]. apply Forall_app. split; [|exact Hall].
      unfold vulnerabilities_of. rewrite Eget.
      eapply forEach_vulnerabilities_ok; eassumption.
Qed.

Lemma parseVulnerabilities_returns (response : JsValue)
    (buckets : gmap string (list Finding)) :
  parseVulnerabilities response = Ok buckets ->
  (buckets = empty_buckets
   /\ (truthy response = false
       \/ exists r, get "result" response = Ok r /\ truthy r = false))
  \/ (exists results,
        get "result" response = Ok (JsArray results)
        /\ Forall (fun res => exists vulns, get "vulnerabilities" res = Ok (JsArray vulns))
                  results
        /\ Forall recognized (findings_of_response results)
        /\ forall key, In key severities ->
             buckets !! key = Some (expected_bucket key (findings_of_response results))).
Proof.
  unfold parseVulnerabilities.
  destruct (truthy response) eqn:Et; [|intros [= <-]; left; auto].
  destruct (get "result" response) as [r|] eqn:Eget; [|discriminate]. cbn [bind].
  destruct (truthy r) eqn:Er; [|intros [= <-]; left; split; [reflexivity | right; eauto]].
  destruct r as [| | | | | |results|]; try discriminate. cbn [forEach].
  intros Hrun. right. exists results.
  assert (Hkeys : has_severity_keys empty_buckets) by (exists (fun _ => []); apply empty_buckets_are).
  destruct (forEach_results_ok results _ _ Hkeys Hrun) as [Hshape Hall].
  split; [reflexivity|]. split; [exact Hshape|]. split; [exact Hall|].
  destruct (forEach_results_recognized results empty_buckets _ empty_buckets_are Hshape Hall)
    as (buckets' & Hrun' & Hbuckets).
  rewrite Hrun in Hrun'. injection Hrun' as <-.
  intros key Hkey. rewrite Hbuckets.
  assert (is_severity key = true) as ->; [|reflexivity].
  unfold is_severity. apply existsb_exists. exists key. split; [exact Hkey|].
  apply String.eqb_refl.
Qed.


(** X5.  [parseVulnerabilities] returns all or nothing.  When it returns
    normally, either the guard failed (the argument or its [result] is falsy)
    and the buckets are empty, or [result] is an array in which every entry has
    a [vulnerabilities] array and every finding a severity string that
    lower-cases to one of the four keys, and each bucket holds exactly the
    findings of its severity in response order.  A truthy [result] that is no
    array, an entry without a [vulnerabilities] array and a finding without
    such a severity all make it throw. *)
Theorem parseVulnerabilities_all_or_nothing (response : JsValue)
    (buckets : gmap string (list Finding)) :
  parseVulnerabilities response = Ok buckets ->
  (buckets = empty_buckets
   /\ (truthy response = false
       \/ exists r, get "result" response = Ok r /\ truthy r = false))
  \/ (exists results,
        get "result" response = Ok (JsArray results)
        /\ Forall (fun res => exists vulns, get "vulnerabilities" res = Ok (JsArray vulns))
                  results
        /\ Forall recognized (findings_of_response results)
        /\ forall key, In key severities ->
             buckets !! key = Some (expected_bucket key (findings_of_response results))).
Proof. exact (parseVulnerabilities_returns response buckets). Qed.

Lemma parseVulnerabilities_all_or_nothing_witness :
  Forall recognized
         [api_finding "CVE-A" "HIGH" (7 # 1); api_finding "CVE-B" "low" (2 # 1);
          api_finding "CVE-C" "High" (8 # 1)].
Proof.
  pose (buckets := match parseVulnerabilities sample_response with
                   | Ok b => b
                   | Throw _ => ∅
                   end).
  destruct (parseVulnerabilities_all_or_nothing sample_response buckets eq_refl)
    as [(_ & [Hfalsy | (r & Hget & Hfalsy)]) | (results & Hget & _ & Hall & _)].
  - discriminate Hfalsy.
  - injection Hget as <-. discriminate Hfalsy.
  - injection Hget as <-. exact Hall.
Defined.

Lemma expected_bucket_in (key : string) (vulns : list JsValue) (finding : Finding) :
  In finding (expected_bucket key vulns) ->
  exists s, cvss_severity finding = JsStr s /\ JsString.toLowerCase s = key.
Proof.
  induction vulns as [|v vulns IH]; cbn [expected_bucket]; [intros []|].
  unfold severity_key.
  destruct (severity_of v) as [raw|] eqn:Esev; [|exact IH].
  destruct raw; try exact IH.
  destruct (finding_of_ok _ _ Esev) as (f & Hf & Hraw). rewrite Hf.
  destruct (String.eqb_spec (JsString.toLowerCase s) key) as [Hkey|]; [|exact IH].
  intros [<- | Hin]; [now exists s | now apply IH].
Qed.

(** X6.  In every result of [parseVulnerabilities] a finding lies in the
    bucket named by its own severity: the stored [cvss_severity] is a string
    and its lower case is the key of the bucket, and no key beyond the four
    is ever bound. *)
Theorem parseVulnerabilities_bucket_keys (response : JsValue)
    (buckets : gmap string (list Finding)) (key : string) (bucket : list Finding) :
  parseVulnerabilities response = Ok buckets ->
  buckets !! key = Some bucket ->
  In key severities
  /\ forall finding, In finding bucket ->
       exists s, cvss_severity finding = JsStr s /\ JsString.toLowerCase s = key.
Proof.
  intros Hparse Hbucket.
  assert (Hkey : In key severities).
  { assert (Hkeys : has_severity_keys buckets).
    { unfold parseVulnerabilities in Hparse.
      assert (Hempty : has_severity_keys empty_buckets)
        by (exists (fun _ => []); apply empty_buckets_are).
      destruct (truthy response); [|injection Hparse as <-; exact Hempty].
      destruct (get "result" response) as [r|]; [|discriminate]. cbn [bind] in Hparse.
      destruct (truthy r); [|injection Hparse as <-; exact Hempty].
      destruct r; try discriminate. cbn [forEach] in Hparse.
      apply (forEach_items_keeps has_severity_keys bucket_result) with (3 := Hparse);
        [|exact Hempty].
      intros a x a'. apply bucket_result_keys. }
    destruct Hkeys as [f Hf]. rewrite Hf in Hbucket.
    destruct (is_severity key) eqn:E; [|discriminate].
    unfold is_severity in E. apply existsb_exists in E as (k & Hin & Heq).
    apply String.eqb_eq in Heq as ->. exact Hin. }
  split; [exact Hkey|].
  destruct (parseVulnerabilities_returns response buckets Hparse)
    as [[-> _] | (results & _ & _ & _ & Hall)].
  - rewrite empty_buckets_are in Hbucket.
    destruct (is_severity key); [|discriminate]. injection Hbucket as <-. intros ? [].
  - rewrite (Hall key Hkey) in Hbucket. injection Hbucket as <-.
    intros finding. apply expected_bucket_in.
Qed.

Lemma parseVulnerabilities_bucket_keys_witness :
  exists s, JsStr "HIGH" = JsStr s /\ JsString.toLowerCase s = "high".
Proof.
  pose (buckets := match parseVulnerabilities sample_response with
                   | Ok b => b
                   | Throw _ => ∅
                   end).
  pose (bucket := default [] (buckets !! "high")).
  destruct (parseVulnerabilities_bucket_keys sample_response buckets "high" bucket
              eq_refl eq_refl) as [_ Hbucket].
  apply (Hbucket {| title := JsStr "CVE-A";
                    description := JsStr "CVE-A (summary)";
                    ai_score := JsObject [("value", JsNumber (7 # 1))];
                    cvss_score := JsNumber (7 # 1);
                    cvss_severity := JsStr "HIGH" |}).
  left. reflexivity.
Defined.

(** ** Banner inference: what every result looks like *)

(** Every capture of a match lies in the class of its group. *)
Lemma exec_captured (i : bool) (r : Regex.t) :
  forall caps s m, Regex.exec i r caps s = Some m ->
  exists captured, m = caps ++ captured /\ Forall2 captured_by (group_classes r) captured.
Proof.
  induction r as [|a r IH]; intros caps s m; simpl.
  - intros [= <-]. exists []. rewrite app_nil_r. split; [reflexivity | constructor].
  - destruct a as [c|cls|cls|cls].
    + destruct s as [|d s]; [discriminate|].
      destruct (Regex.char_eq i c d); [apply IH | discriminate].
    + destruct s as [|d s]; [apply IH|]. destruct (cls d); [|apply IH].
      destruct (Regex.exec i r caps s) eqn:E; [intros [= <-]; eapply IH; eassumption | apply IH].
    + intros H. apply plus_some in H as (run & rest & _ & _ & _ & Hk). eapply IH; eassumption.
    + intros H. apply plus_some in H as (run & rest & Hne & Hall & _ & Hk).
      destruct (IH _ _ _ Hk) as (captured & -> & Hcaptured).
      exists (run :: captured). rewrite <- app_assoc. split; [reflexivity|].
      constructor; [split; assumption | exact Hcaptured].
Qed.

Lemma search_captured (i : bool) (r : Regex.t) (s : string) (m : list string) :
  Regex.search i r s = Some m -> Forall2 captured_by (group_classes r) m.
Proof.
  induction s as [|c s IH]; simpl.
  - destruct (Regex.exec i r [] "") eqn:E; [|discriminate].
    intros [= <-]. apply exec_captured in E as (captured & -> & H). exact H.
  - destruct (Regex.exec i r [] (String c s)) eqn:E; [|exact IH].
    intros [= <-]. apply exec_captured in E as (captured & -> & H). exact H.
Qed.

Lemma group_classes_app (r1 r2 : Regex.t) :
  group_classes (r1 ++ r2) = group_classes r1 ++ group_classes r2.
Proof. induction r1 as [|[] r1 IH]; simpl; congruence. Qed.

Lemma group_classes_literal (s : string) : group_classes (Regex.literal s) = [].
Proof. induction s as [|c s IH]; [reflexivity | exact IH]. Qed.

Lemma os_version_digits (product banner : string) :
  os_version product banner = Some "unknown"
  \/ exists v, os_version product banner = Some v /\ captured_by Regex.digit_or_dot v.
Proof.
  unfold os_version.
  destruct (Regex.search true (os_version_regex product) banner) as [groups|] eqn:E;
    [|now left].
  apply search_captured in E. unfold os_version_regex in E.
  rewrite group_classes_app, group_classes_literal in E. cbn in E.
  inversion E as [|cls v l1 l2 Hv Hrest]; subst. inversion Hrest; subst.
  right. exists v. split; [reflexivity | exact Hv].
Qed.

(** X7.  Whatever the banner, the operating-system identity is the
    all-"unknown" default or names a row of the vendor table, and its version
    is either "unknown" or a non-empty run of digits and dots. *)
Theorem operating_system_well_formed (banner : string) :
  let os := operating_system (inferSystemDetails banner) in
  part os = "o"
  /\ ((vendor os = "unknown" /\ product os = "unknown")
      \/ In (product os, vendor os) vendor_table)
  /\ (version os = Some "unknown"
      \/ exists v, version os = Some v /\ v <> ""
                   /\ JsString.all_chars Regex.digit_or_dot v = true).
Proof.
  cbv zeta.
  change (operating_system (inferSystemDetails banner)) with (infer_os vendor_table banner).
  generalize vendor_table. intros table.
  induction table as [|[p v] table IH]; cbn [infer_os].
  - split; [reflexivity|]. split; [left; split; reflexivity | left; reflexivity].
  - destruct (JsString.includes (JsString.toLowerCase banner) p).
    + cbn [part vendor product version]. split; [reflexivity|].
      split; [right; left; reflexivity|].
      destruct (os_version_digits p banner) as [-> | (w & -> & Hne & Hall)]; [now left|].
      right. now exists w.
    + destruct IH as (Hpart & Hrow & Hversion). split; [exact Hpart|].
      split; [|exact Hversion]. destruct Hrow as [Hrow | Hrow]; [now left | right; now right].
Qed.

Lemma toLowerChar_idempotent (c : ascii) :
  JsString.toLowerChar (JsString.toLowerChar c) = JsString.toLowerChar c.
Proof. destruct c as [[] [] [] [] [] [] [] []]; reflexivity. Qed.

Lemma toLowerChar_token (c : ascii) : token_char (JsString.toLowerChar c) = token_char c.
Proof. destruct c as [[] [] [] [] [] [] [] []]; reflexivity. Qed.

Lemma toLowerCase_idempotent (s : string) :
  JsString.toLowerCase (JsString.toLowerCase s) = JsString.toLowerCase s.
Proof.
  induction s as [|c s IH]; simpl; [reflexivity|].
  now rewrite toLowerChar_idempotent, IH.
Qed.

Lemma toLowerCase_token (s : string) :
  JsString.all_chars token_char (JsString.toLowerCase s) = JsString.all_chars token_char s.
Proof.
  induction s as [|c s IH]; simpl; [reflexivity|]. now rewrite toLowerChar_token, IH.
Qed.

(** The pieces of [split('_')] hold the characters of the text without the
    underscores. *)
Lemma split_pieces (s : string) :
  JsString.all_chars Regex.non_space s = true ->
  Forall (fun piece => JsString.all_chars token_char piece = true) (JsString.split "_" s).
Proof.
  induction s as [|c s IH]; cbn [JsString.split JsString.all_chars].
  - intros _. repeat constructor.
  - intros H. apply andb_true_iff in H as [Hc Hs]. specialize (IH Hs).
    destruct (Ascii.eqb c "_") eqn:E.
    + constructor; [reflexivity | exact IH].
    + destruct (JsString.split "_" s) as [|piece pieces]; [repeat constructor|].
      * cbn. unfold token_char. now rewrite Hc, E.
      * inversion IH; subst. constructor; [|assumption].
        cbn. unfold token_char at 1. now rewrite Hc, E.
Qed.

Lemma ssh_token_non_space (banner token : string) :
  sshSoftwareMatch banner = Some [token] ->
  token <> "" /\ JsString.all_chars Regex.non_space token = true.
Proof.
  intros H. apply search_captured in H. cbn in H.
  inversion H as [|cls v l1 l2 Hv Hrest]; subst. exact Hv.
Qed.

(** X8.  Whatever the banner, the software sequence has at most one entry,
    with part "a" and vendor "openbsd"; its product is in lower case and
    neither its product nor its version, when there is one, contains white
    space or an underscore. *)
Theorem software_well_formed (banner : string) :
  length (software (inferSystemDetails banner)) <= 1
  /\ forall entry, In entry (software (inferSystemDetails banner)) ->
       part entry = "a" /\ vendor entry = "openbsd"
       /\ JsString.toLowerCase (product entry) = product entry
       /\ JsString.all_chars token_char (product entry) = true
       /\ forall v, version entry = Some v -> JsString.all_chars token_char v = true.
Proof.
  change (software (inferSystemDetails banner)) with (infer_software banner).
  destruct (sshSoftwareMatch banner) as [groups|] eqn:E.
  - destruct (ssh_match_token _ _ E) as [token ->].
    destruct (infer_software_match _ _ E) as (first & more & Hsplit & ->).
    split; [simpl; lia|]. intros entry [<- | []]. cbn [part vendor product version].
    destruct (ssh_token_non_space _ _ E) as [_ Htoken].
    pose proof (split_pieces token Htoken) as Hpieces. rewrite Hsplit in Hpieces.
    inversion Hpieces as [|? ? Hfirst Hmore]; subst.
    split; [reflexivity|]. split; [reflexivity|].
    split; [apply toLowerCase_idempotent|]. split; [now rewrite toLowerCase_token|].
    intros v Hv. destruct more as [|second more]; [discriminate|].
    injection Hv as <-. now inversion Hmore.
  - unfold infer_software. rewrite E. split; [simpl; lia | intros ? []].
Qed.

(** ** The operating system is inferred without regard to case *)

Lemma canonicalize_lower (c : ascii) :
  Regex.canonicalize (JsString.toLowerChar c) = Regex.canonicalize c.
Proof. destruct c as [[] [] [] [] [] [] [] []]; reflexivity. Qed.

Lemma dash_or_space_lower (c : ascii) :
  Regex.dash_or_space (JsString.toLowerChar c) = Regex.dash_or_space c.
Proof. destruct c as [[] [] [] [] [] [] [] []]; reflexivity. Qed.

Lemma digit_or_dot_lower (c : ascii) :
  Regex.digit_or_dot (JsString.toLowerChar c) = Regex.digit_or_dot c.
Proof. destruct c as [[] [] [] [] [] [] [] []]; reflexivity. Qed.

Lemma digit_or_dot_fixed (c : ascii) :
  Regex.digit_or_dot c = true -> JsString.toLowerChar c = c.
Proof. destruct c as [[] [] [] [] [] [] [] []]; (reflexivity || discriminate). Qed.

Lemma digits_fixed (s : string) :
  JsString.all_chars Regex.digit_or_dot s = true -> JsString.toLowerCase s = s.
Proof.
  induction s as [|c s IH]; simpl; [reflexivity|].
  intros H. apply andb_true_iff in H as [Hc Hs].
  now rewrite (digit_or_dot_fixed c Hc), (IH Hs).
Qed.

Lemma plus_lower {R : Type} (cls : ascii -> bool) (f : R -> R)
    (k k' : string -> string -> option R) :
  (forall c, cls (JsString.toLowerChar c) = cls c) ->
  (forall t rest, k' (JsString.toLowerCase t) (JsString.toLowerCase rest)
                  = option_map f (k t rest)) ->
  forall s taken,
    Regex.plus cls k' (JsString.toLowerCase taken) (JsString.toLowerCase s)
    = option_map f (Regex.plus cls k taken s).
Proof.
  intros Hcls Hk. induction s as [|c s IH]; intros taken; cbn [JsString.toLowerCase Regex.plus];
    [reflexivity|].
  rewrite Hcls. destruct (cls c); [|reflexivity].
  change (String (JsString.toLowerChar c) "") with (JsString.toLowerCase (String c "")).
  rewrite <- toLowerCase_app, IH.
  destruct (Regex.plus cls k (taken +:+ String c "") s); [reflexivity | apply Hk].
Qed.

Lemma exec_lower (r : Regex.t) :
  case_blind r ->
  forall caps s,
    Regex.exec true r (map JsString.toLowerCase caps) (JsString.toLowerCase s)
    = option_map (map JsString.toLowerCase) (Regex.exec true r caps s).
Proof.
  induction r as [|a r IH]; intros Hblind caps s; [reflexivity|].
  destruct a as [c|cls|cls|cls]; cbn [case_blind] in Hblind.
  - destruct s as [|d s]; [reflexivity|]. cbn [JsString.toLowerCase]. rewrite !exec_chr.
    unfold Regex.char_eq. rewrite canonicalize_lower.
    destruct (Ascii.eqb _ _); [now apply IH | reflexivity].
  - destruct Hblind as [Hcls Hblind]. rewrite !exec_opt.
    destruct s as [|d s]; cbn [JsString.toLowerCase]; [exact (IH Hblind caps "")|].
    rewrite Hcls. destruct (cls d).
    + rewrite (IH Hblind caps s).
      destruct (Regex.exec true r caps s); [reflexivity|].
      exact (IH Hblind caps (String d s)).
    + exact (IH Hblind caps (String d s)).
  - destruct Hblind as [Hcls Hblind]. cbn [Regex.exec].
    apply (plus_lower cls (map JsString.toLowerCase)
             (fun _ rest => Regex.exec true r caps rest)
             (fun _ rest => Regex.exec true r (map JsString.toLowerCase caps) rest)
             Hcls) with (taken := "").
    intros _ rest. exact (IH Hblind caps rest).
  - destruct Hblind as [Hcls Hblind]. cbn [Regex.exec].
    apply (plus_lower cls (map JsString.toLowerCase)
             (fun taken rest => Regex.exec true r (caps ++ [taken]) rest)
             (fun taken rest => Regex.exec true r (map JsString.toLowerCase caps ++ [taken]) rest)
             Hcls) with (taken := "").
    intros t rest. rewrite <- (IH Hblind (caps ++ [t]) rest), map_app. reflexivity.
Qed.

Lemma search_lower (r : Regex.t) (s : string) :
  case_blind r ->
  Regex.search true r (JsString.toLowerCase s)
  = option_map (map JsString.toLowerCase) (Regex.search true r s).
Proof.
  intros Hblind. induction s as [|c s IH].
  - cbn [JsString.toLowerCase Regex.search].
    pose proof (exec_lower r Hblind [] "") as H. cbn [map JsString.toLowerCase] in H.
    destruct (Regex.exec true r [] ""); [exact H | reflexivity].
  - cbn [JsString.toLowerCase Regex.search].
    change (String (JsString.toLowerChar c) (JsString.toLowerCase s))
      with (JsString.toLowerCase (String c s)).
    pose proof (exec_lower r Hblind [] (String c s)) as H. cbn [map] in H. rewrite H.
    destruct (Regex.exec true r [] (String c s)); [reflexivity | exact IH].
Qed.

Lemma os_version_regex_blind (product : string) : case_blind (os_version_regex product).
Proof.
  unfold os_version_regex. induction product as [|c product IH]; cbn.
  - split; [exact dash_or_space_lower|]. split; [exact digit_or_dot_lower | exact I].
  - exact IH.
Qed.

Lemma os_version_lower (product banner : string) :
  os_version product (JsString.toLowerCase banner) = os_version product banner.
Proof.
  destruct (os_version_digits product banner) as [Hu | (v & Hv & _ & Hall)].
  - unfold os_version in *. rewrite (search_lower _ _ (os_version_regex_blind product)).
    destruct (Regex.search true (os_version_regex product) banner) as [groups|];
      [|reflexivity].
    cbn [option_map]. destruct groups as [|g groups]; [discriminate|].
    cbn in Hu |- *. injection Hu as ->. reflexivity.
  - unfold os_version in *. rewrite (search_lower _ _ (os_version_regex_blind product)).
    destruct (Regex.search true (os_version_regex product) banner) as [groups|];
      [|reflexivity].
    cbn [option_map]. destruct groups as [|g groups]; [discriminate|].
    cbn in Hv |- *. injection Hv as ->. now rewrite (digits_fixed v Hall).
Qed.

Lemma infer_os_lower (table : list (string * string)) (banner : string) :
  infer_os table (JsString.toLowerCase banner) = infer_os table banner.
Proof.
  induction table as [|[p v] table IH]; cbn [infer_os]; [reflexivity|].
  rewrite toLowerCase_idempotent, os_version_lower, IH. reflexivity.
Qed.

(** X9.  Operating-system inference does not look at the case of the banner:
    two banners that agree up to the case of their letters get the same
    operating-system identity, version included (the keyword test on the
    lower-cased banner and the [i] flag of the version pattern fit
    together). *)
Theorem operating_system_ignores_case (banner1 banner2 : string) :
  JsString.toLowerCase banner1 = JsString.toLowerCase banner2 ->
  operating_system (inferSystemDetails banner1)
  = operating_system (inferSystemDetails banner2).
Proof.
  intros H.
  change (infer_os vendor_table banner1 = infer_os vendor_table banner2).
  rewrite <- (infer_os_lower vendor_table banner1), <- (infer_os_lower vendor_table banner2).
  now rewrite H.
Qed.

Lemma operating_system_ignores_case_witness :
  operating_system (inferSystemDetails "Welcome to UBUNTU 22.04 lts")
  = operating_system (inferSystemDetails "welcome to Ubuntu 22.04 LTS").
Proof. apply operating_system_ignores_case. reflexivity. Defined.

(** ** The banner prober: what decides its outcome *)

Lemma run_app {A : Type} (l : Socket.Listeners A) (p : Probe A)
    (events more : list SocketEvent) :
  Socket.run l p (events ++ more) = Socket.run l (Socket.run l p events) more.
Proof. unfold Socket.run. apply fold_left_app. Qed.

(** X10.  The outcome of a banner probe is final: once [getHostBanner] has
    settled, with a banner, an error or its timeout, no later event of the
    socket changes its promise, its socket or anything else of the probe. *)
Theorem getHostBanner_final (host : string) (port : N) (events more : list SocketEvent) :
  settled (getHostBanner host port events) <> Pending ->
  getHostBanner host port (events ++ more) = getHostBanner host port events.
Proof.
  intros Hsettled. unfold getHostBanner at 1. rewrite run_app. apply run_destroyed.
  pose proof (getHostBanner_closed host port events) as H. unfold closed_when_settled in H.
  fold (getHostBanner host port events).
  destruct (settled (getHostBanner host port events)); [congruence | exact H | exact H].
Qed.

Lemma getHostBanner_final_witness :
  getHostBanner "203.0.113.7" 22
    ([Connect; Data "SSH-2.0-OpenSSH_9.6"] ++ [Data "more"; Error connection_reset; Idle 9000])
  = getHostBanner "203.0.113.7" 22 [Connect; Data "SSH-2.0-OpenSSH_9.6"].
Proof. apply getHostBanner_final. discriminate. Defined.

Lemma getHostBanner_provenance (events : list SocketEvent) :
  forall p : Probe string,
    destroyed (socket p) = false -> settled p = Pending ->
    match settled (Socket.run getHostBanner_listeners p events) with
    | Pending => True
    | Fulfilled banner =>
        exists before after,
          events = before ++ Data banner :: after
          /\ (once_data p = false -> In Connect before)
    | Rejected error =>
        In (Error error) events \/ error = mkError None "Connection timed out"
    end.
Proof.
  induction events as [|ev events IH]; intros p Hopen Hpending.
  - cbn. now rewrite Hpending.
  - rewrite run_cons. destruct p as [[t i d e] st out od]. cbn in Hopen, Hpending. subst d st.
    destruct ev as [|chunk|err|ms].
    + specialize (IH (Socket.deliver getHostBanner_listeners
                        (mkProbe (mkSocket t i false e) Pending out od) Connect)
                     eq_refl eq_refl).
      destruct (settled (Socket.run getHostBanner_listeners _ events)) as [|banner|error];
        [exact I | | ].
      * destruct IH as (before & after & -> & _).
        exists (Connect :: before), after. split; [reflexivity | intros _; now left].
      * destruct IH as [IH | IH]; [left; now right | now right].
    + destruct od.
      * rewrite run_destroyed by reflexivity. cbn.
        exists [], events. split; [reflexivity | discriminate].
      * specialize (IH (Socket.deliver getHostBanner_listeners
                          (mkProbe (mkSocket t i false e) Pending out false) (Data chunk))
                       eq_refl eq_refl).
        destruct (settled (Socket.run getHostBanner_listeners _ events)) as [|banner|error];
          [exact I | | ].
        -- destruct IH as (before & after & -> & Hconnect).
           exists (Data chunk :: before), after. split; [reflexivity|].
           intros _. right. now apply Hconnect.
        -- destruct IH as [IH | IH]; [left; now right | now right].
    + rewrite run_destroyed by reflexivity. cbn. left. now left.
    + unfold Socket.deliver. cbn [socket destroyed timeout idle].
      destruct t as [limit|];
        [destruct ((i <? limit)%N && (limit <=? i + ms)%N) eqn:Efire|].
      * cbn [getHostBanner_listeners Socket.on_timeout].
        rewrite run_destroyed by reflexivity. cbn. now right.
      * cbn [getHostBanner_listeners Socket.on_timeout].
        specialize (IH (Socket.set_idle (i + ms) (mkProbe (mkSocket (Some limit) i false e)
                                                          Pending out od)) eq_refl eq_refl).
        destruct (settled (Socket.run getHostBanner_listeners _ events)) as [|banner|error];
          [exact I | | ].
        -- destruct IH as (before & after & -> & Hconnect).
           exists (Idle ms :: before), after. split; [reflexivity|].
           intros Hod. right. now apply Hconnect.
        -- destruct IH as [IH | IH]; [left; now right | now right].
      * cbn [getHostBanner_listeners Socket.on_timeout].
        specialize (IH (Socket.set_idle (i + ms) (mkProbe (mkSocket None i false e)
                                                          Pending out od)) eq_refl eq_refl).
        destruct (settled (Socket.run getHostBanner_listeners _ events)) as [|banner|error];
          [exact I | | ].
        -- destruct IH as (before & after & -> & Hconnect).
           exists (Idle ms :: before), after. split; [reflexivity|].
           intros Hod. right. now apply Hconnect.
        -- destruct IH as [IH | IH]; [left; now right | now right].
Qed.

(** X11.  [getHostBanner] resolves only with a chunk that arrived after the
    connection was established, and it rejects only with an error the socket
    raised or with its own "Connection timed out"; it invents no banner and
    no other error. *)
Theorem getHostBanner_outcome_origin (host : string) (port : N)
    (events : list SocketEvent) :
  (forall banner,
     settled (getHostBanner host port events) = Fulfilled banner ->
     exists before after,
       events = before ++ Data banner :: after /\ In Connect before)
  /\ (forall error,
        settled (getHostBanner host port events) = Rejected error ->
        In (Error error) events \/ error = mkError None "Connection timed out").
Proof.
  pose proof (getHostBanner_provenance events (Socket.start (Some 5000%N)) eq_refl eq_refl) as H.
  fold (getHostBanner host port events) in H. split.
  - intros banner Hb. rewrite Hb in H. destruct H as (before & after & Hev & Hc).
    exists before, after. split; [exact Hev | now apply Hc].
  - intros error He. now rewrite He in H.
Qed.

Lemma getHostBanner_outcome_origin_witness :
  exists before after,
    [Idle 1200; Connect; Idle 300; Data "220 mx ESMTP"; Data "250 ok"]
    = before ++ Data "220 mx ESMTP" :: after /\ In Connect before.
Proof.
  destruct (getHostBanner_outcome_origin "203.0.113.7" 25
              [Idle 1200; Connect; Idle 300; Data "220 mx ESMTP"; Data "250 ok"])
    as [Hbanner _].
  apply Hbanner. reflexivity.
Defined.

(** ** The mail check in its two revisions *)

Lemma mail_simulation (host : string) (port : N) (events : list SocketEvent) :
  forall (old : Probe bool) (new : Probe string),
    socket old = socket new -> once_data old = once_data new ->
    settled old = mail_outcome (settled new) ->
    settled (Socket.run (BinNetwork.testEmailServiceWithoutTLS_listeners host port) old events)
    = mail_outcome (settled (Socket.run getHostBanner_listeners new events)).
Proof.
  induction events as [|ev events IH]; intros old new Hsocket Honce Hsettled; [exact Hsettled|].
  rewrite !run_cons. apply IH;
    destruct old as [[t i d e] st out od], new as [[t' i' d' e'] st' out' od'];
    cbn in Hsocket, Honce, Hsettled; injection Hsocket as -> -> -> ->; subst od st;
    unfold Socket.deliver; cbn [socket destroyed timeout idle once_data];
    (destruct d'; [reflexivity|]);
    destruct ev as [|chunk|err|ms];
    cbn [BinNetwork.testEmailServiceWithoutTLS_listeners getHostBanner_listeners
         Socket.on_connect Socket.on_data Socket.on_error Socket.on_timeout];
    try (destruct od');
    try (destruct t' as [limit|]; [destruct ((i' <? limit)%N && (limit <=? i' + ms)%N)|]);
    destruct st'; cbn -[JsString.includes mail_verdict]; unfold mail_verdict;
    try (destruct (JsString.includes chunk "ESMTP"
                   && negb (JsString.includes chunk "STARTTLS")));
    reflexivity.
Qed.

(** X12.  The two revisions of the mail check give the same verdict on every
    run of socket events except one case: when the probe fails with an error
    that is neither a timeout nor a refusal, bin/network.js reports secure and
    the current module reports insecure. *)
Theorem mail_check_revisions (host : string) (port : N) (events : list SocketEvent) :
  snd (testEmailServiceWithoutTLS host port events)
  = settled (BinNetwork.testEmailServiceWithoutTLS host port events)
  \/ exists error,
       settled (getHostBanner host port events) = Rejected error
       /\ timed_out_or_refused error = false
       /\ snd (testEmailServiceWithoutTLS host port events) = Fulfilled false
       /\ settled (BinNetwork.testEmailServiceWithoutTLS host port events) = Fulfilled true.
Proof.
  pose proof (mail_simulation host port events (Socket.start (Some 5000%N))
                (Socket.start (Some 5000%N)) eq_refl eq_refl eq_refl) as Hsim.
  fold (BinNetwork.testEmailServiceWithoutTLS host port events) in Hsim.
  fold (getHostBanner host port events) in Hsim.
  unfold testEmailServiceWithoutTLS.
  destruct (settled (getHostBanner host port events)) as [|banner|error] eqn:E;
    cbn [mail_outcome] in Hsim.
  - left. now rewrite Hsim.
  - left. rewrite Hsim. unfold mail_verdict.
    destruct (JsString.includes banner "ESMTP" && negb (JsString.includes banner "STARTTLS"));
      reflexivity.
  - destruct (timed_out_or_refused error) eqn:Et.
    + left. now rewrite Hsim.
    + right. exists error. repeat split; [exact Et | exact Hsim].
Qed.

Example mail_check_revisions_differ :
  snd (testEmailServiceWithoutTLS "203.0.113.7" 25 [Connect; Error connection_reset])
  = Fulfilled false
  /\ settled (BinNetwork.testEmailServiceWithoutTLS "203.0.113.7" 25
                [Connect; Error connection_reset]) = Fulfilled true.
Proof. split; reflexivity. Qed.

(** ** The version check of bin/network.js *)

Lemma openssh_version_digits (banner : string) (groups : list string) :
  Regex.search false BinNetwork.openssh_regex banner = Some groups ->
  groups !! 0 <> Some "8.9p1".
Proof.
  intros H. apply search_captured in H. cbn in H.
  inversion H as [|cls v l1 l2 [_ Hv] Hrest]; subst. cbn. intros [= ->]. discriminate Hv.
Qed.

Lemma openssh_deliver_quiet (host : string) (port : N) (p : Probe bool) (ev : SocketEvent) :
  Forall (fun line => reports_vulnerable line = false) (console p) ->
  Forall (fun line => reports_vulnerable line = false)
         (console (Socket.deliver (BinNetwork.testOpenSSHVersion_listeners host port) p ev)).
Proof.
  intros Hp. destruct p as [[t i d e] st out od]. cbn in Hp.
  assert (Hprint : forall to msg,
    reports_vulnerable (mkLine to msg) = false ->
    Forall (fun line => reports_vulnerable line = false) (out ++ [mkLine to msg])).
  { intros to msg Hline. apply Forall_app. split; [exact Hp | now repeat constructor]. }
  unfold Socket.deliver. cbn [socket destroyed timeout idle once_data].
  destruct d; [exact Hp|].
  destruct ev as [|chunk|err|ms];
    cbn [BinNetwork.testOpenSSHVersion_listeners Socket.on_connect Socket.on_data
         Socket.on_error Socket.on_timeout].
  - exact Hp.
  - destruct od; [|exact Hp].
    destruct (Regex.search false BinNetwork.openssh_regex chunk) as [groups|] eqn:E.
    + destruct (decide (groups !! 0 = Some "8.9p1")) as [Hbad|_].
      * now apply openssh_version_digits in E.
      * destruct st; cbn; try exact Hp; now apply Hprint.
    + destruct st; cbn; try exact Hp; now apply Hprint.
  - destruct st; cbn; try exact Hp; now apply Hprint.
  - destruct t as [limit|]; [|exact Hp].
    destruct ((i <? limit)%N && (limit <=? i + ms)%N); [|exact Hp].
    destruct st; cbn; try exact Hp; now apply Hprint.
Qed.

(** X13.  The version check of bin/network.js never reports a vulnerable
    version: the pattern [OpenSSH_([\d.]+)] captures digits and dots only, so
    the comparison with ["8.9p1"] always fails.  On every run of socket
    events no "Vulnerable OpenSSH version" warning is written, and a banner is
    reported secure exactly when the pattern matches it. *)
Theorem legacy_version_check_never_vulnerable (host : string) (port : N) :
  (forall events,
     Forall (fun line => reports_vulnerable line = false)
            (console (BinNetwork.testOpenSSHVersion host port events)))
  /\ (forall banner rest,
        settled (BinNetwork.testOpenSSHVersion host port (Connect :: Data banner :: rest))
        = Fulfilled (match Regex.search false BinNetwork.openssh_regex banner with
                     | Some _ => true
                     | None => false
                     end)).
Proof.
  split.
  - intros events. unfold BinNetwork.testOpenSSHVersion, Socket.run.
    assert (H : Forall (fun line => reports_vulnerable line = false)
                       (console (Socket.start (A := bool) (Some 5000%N)))) by constructor.
    revert H. generalize (Socket.start (A := bool) (Some 5000%N)).
    induction events as [|ev events IH]; intros p Hp; [exact Hp|].
    cbn [fold_left]. apply IH, openssh_deliver_quiet, Hp.
  - intros banner rest. unfold BinNetwork.testOpenSSHVersion.
    rewrite !run_cons, run_destroyed.
    + unfold Socket.deliver. cbn -[Regex.search BinNetwork.openssh_regex].
      destruct (Regex.search false BinNetwork.openssh_regex banner) as [groups|] eqn:E;
        [|reflexivity].
      destruct (decide (groups !! 0 = Some "8.9p1")) as [Hbad|_]; [|reflexivity].
      now apply openssh_version_digits in E.
    + unfold Socket.deliver. cbn -[Regex.search BinNetwork.openssh_regex].
      destruct (Regex.search false BinNetwork.openssh_regex banner) as [groups|];
        [destruct (decide (groups !! 0 = Some "8.9p1"))|]; reflexivity.
Qed.

Example legacy_version_check_8_9p1 :
  let probe := BinNetwork.testOpenSSHVersion "203.0.113.7" 22
                 [Connect; Data "SSH-2.0-OpenSSH_8.9p1 Ubuntu-3ubuntu0.1"] in
  settled probe = Fulfilled true
  /\ console probe = [mkLine StdLog "OpenSSH version on 203.0.113.7:22 is secure: 8.9"].
Proof. split; reflexivity. Qed.

(** ** The certificate check *)

Lemma certificate_deliver_settled (host : string) (port : N) (cert : PeerCertificate)
    (p : Probe bool) (ev : SocketEvent) :
  settled p <> Pending ->
  settled (Socket.deliver (testSelfSignedCertificate_listeners host port cert) p ev)
  = settled p.
Proof.
  intros Hp. destruct p as [[t i d e] st out od]. cbn in Hp.
  unfold Socket.deliver. cbn [socket destroyed timeout idle once_data].
  destruct d; [reflexivity|].
  destruct ev as [|chunk|err|ms]; cbn [testSelfSignedCertificate_listeners Socket.on_connect
    Socket.on_data Socket.on_error Socket.on_timeout].
  - destruct cert as [|issuer subject]; [|destruct (strict_equals issuer subject)];
      destruct st; cbn; congruence.
  - destruct od; reflexivity.
  - destruct st; cbn; congruence.
  - destruct t; reflexivity.
Qed.

Lemma certificate_run_settled (host : string) (port : N) (cert : PeerCertificate)
    (events : list SocketEvent) :
  forall p : Probe bool,
    settled p <> Pending ->
    settled (Socket.run (testSelfSignedCertificate_listeners host port cert) p events)
    = settled p.
Proof.
  induction events as [|ev events IH]; intros p Hp; [reflexivity|].
  rewrite run_cons, IH; rewrite certificate_deliver_settled; auto.
Qed.

(** X14.  The certificate check takes its verdict when the TLS session is
    established and keeps it whatever the socket does afterwards: insecure
    when issuer and subject carry the same [CN] (also when both lack one),
    secure otherwise, and secure as well when the peer presented no
    certificate at all. *)
Theorem certificate_verdict_at_handshake (host : string) (port : N)
    (cert : PeerCertificate) (rest : list SocketEvent) :
  settled (testSelfSignedCertificate host port cert (Connect :: rest))
  = Fulfilled (certificate_verdict cert)
  /\ certificate_verdict NoCertificate = true
  /\ certificate_verdict (Certificate JsUndefined JsUndefined) = false
  /\ (forall cn, certificate_verdict (Certificate (JsStr cn) (JsStr cn)) = false).
Proof.
  split; [|split; [reflexivity | split; [reflexivity|]]].
  - unfold testSelfSignedCertificate. rewrite run_cons, certificate_run_settled.
    + destruct cert as [|issuer subject]; [reflexivity|].
      cbn. destruct (strict_equals issuer subject); reflexivity.
    + destruct cert as [|issuer subject]; [discriminate|].
      cbn. destruct (strict_equals issuer subject); discriminate.
  - intros cn. cbn. now rewrite String.eqb_refl.
Qed.

Example certificate_error_after_handshake :
  let probe := testSelfSignedCertificate "203.0.113.7" 443
                 (Certificate (JsStr "R3") (JsStr "example.org"))
                 [Connect; Error connection_reset] in
  settled probe = Fulfilled true /\ length (console probe) = 2.
Proof. split; reflexivity. Qed.

(** ** The SSH check and the scan of a host *)

Lemma for_each_count {A : Type} (body : A -> Printed unit) (size : A -> nat)
    (good : A -> bool) :
  (forall x, good x = true ->
     exists lines, body x = (lines, Ok tt) /\ length lines = size x) ->
  (forall x, good x = false ->
     exists lines error, body x = (lines, Throw error) /\ length lines < size x) ->
  forall xs,
    (forallb good xs = true ->
     exists lines, for_each body xs = (lines, Ok tt)
                   /\ length lines = list_sum (map size xs))
    /\ (forallb good xs = false ->
        exists lines error, for_each body xs = (lines, Throw error)
                            /\ length lines < list_sum (map size xs)).
Proof.
  intros Hgood Hbad. induction xs as [|x xs [IHgood IHbad]].
  - split; [|discriminate]. intros _. now exists [].
  - cbn [forallb for_each map list_sum foldr].
    change (foldr Nat.add 0 (map size xs)) with (list_sum (map size xs)).
    destruct (good x) eqn:Ex; cbn [andb].
    + destruct (Hgood x Ex) as (lines & -> & Hlines). cbn [and_then_print].
      split; intros Hrest.
      * destruct (IHgood Hrest) as (more & -> & Hmore). eexists. split; [reflexivity|].
        rewrite length_app. lia.
      * destruct (IHbad Hrest) as (more & error & -> & Hmore). eexists _, _.
        split; [reflexivity|]. rewrite length_app. lia.
    + split; [discriminate|]. intros _.
      destruct (Hbad x Ex) as (lines & error & -> & Hlines). cbn [and_then_print].
      eexists _, _. split; [reflexivity|]. lia.
Qed.

Lemma forallb_flat_map {A B : Type} (p : B -> bool) (f : A -> list B) (xs : list A) :
  forallb p (flat_map f xs) = forallb (fun x => forallb p (f x)) xs.
Proof.
  induction xs as [|x xs IH]; cbn [flat_map forallb]; [reflexivity|].
  now rewrite forallb_app, IH.
Qed.

Lemma list_sum_ones {A : Type} (xs : list A) : list_sum (map (fun _ => 1) xs) = length xs.
Proof.
  induction xs as [|x xs IH]; [reflexivity|]. cbn [map list_sum foldr length].
  change (foldr Nat.add 0 (map (fun _ : A => 1) xs)) with (list_sum (map (fun _ : A => 1) xs)).
  now rewrite IH.
Qed.

Lemma map_result_ok {A B : Type} (f : A -> Result B) (xs : list A) :
  Forall (fun x => exists y, f x = Ok y) xs ->
  exists ys, map_result f xs = Ok ys /\ length ys = length xs.
Proof.
  induction 1 as [|x xs [y Hy] _ (ys & Hys & Hlen)]; [now exists []|].
  exists (y :: ys). cbn [map_result]. rewrite Hy, Hys. cbn. now rewrite Hlen.
Qed.

Section Pipeline.

Variable table : list (list JsValue) -> Result string.
Variable NumberToString : Q -> string.


Lemma testOpenSSHVersion_cases (host : string) (port : N) (events : list SocketEvent)
    (api : VulnerabilityQuery -> Fetched) :
  let scan := testOpenSSHVersion table NumberToString host port events api in
  (forall error, finished scan <> Rejected error)
  /\ (requests scan = []
      \/ exists banner,
           settled (getHostBanner host port events) = Fulfilled banner
           /\ requests scan = [ssh_query banner]).
Proof.
  cbv zeta. unfold testOpenSSHVersion.
  destruct (settled (getHostBanner host port events)) as [|banner|error] eqn:E.
  - split; [discriminate | now left].
  - destruct (queryVulnersAPI (api (ssh_query banner))) as [[lines [result|error]]|].
    + destruct (report table NumberToString host port result) as [reported [[]|error]];
        (split; [discriminate | right; now exists banner]).
    + split; [discriminate | right; now exists banner].
    + split; [discriminate | right; now exists banner].
  - split; [discriminate | now left].
Qed.

(** X15.  The SSH check of the current module never rejects its promise and
    sends at most one query: none unless a banner was read (a refused
    connection and a timeout are reported like any other error, with one
    "Error processing" line), and otherwise the one built by
    [inferSystemDetails] from the chunk that arrived after the connection was
    established. *)
Theorem testOpenSSHVersion_queries (host : string) (port : N) (events : list SocketEvent)
    (api : VulnerabilityQuery -> Fetched) :
  let scan := testOpenSSHVersion table NumberToString host port events api in
  (forall error, finished scan <> Rejected error)
  /\ (forall error,
        settled (getHostBanner host port events) = Rejected error ->
        scan = mkScan [processing_error host port error] [] (Fulfilled tt))
  /\ (requests scan = []
      \/ exists banner before after,
           events = before ++ Data banner :: after /\ In Connect before
           /\ requests scan
              = [ {| query_software := software (inferSystemDetails banner);
                     query_operating_system := operating_system (inferSystemDetails banner);
                     query_fields := ["title"; "short_description"; "cvelist"; "ai_score";
                                      "metrics"] |} ]).
Proof.
  cbv zeta. destruct (testOpenSSHVersion_cases host port events api) as [Hnever Hquery].
  split; [exact Hnever|]. split.
  - intros error He. unfold testOpenSSHVersion. now rewrite He.
  - destruct Hquery as [Hnone | (banner & Hbanner & Hrequests)]; [now left | right].
    pose proof (getHostBanner_provenance events (Socket.start (Some 5000%N)) eq_refl eq_refl) as H.
    fold (getHostBanner host port events) in H. rewrite Hbanner in H.
    destruct H as (before & after & Hev & Hconnect).
    exists banner, before, after. split; [exact Hev|]. split; [now apply Hconnect|].
    exact Hrequests.
Qed.

(** X16.  A failure of the lookup stays inside the SSH check: when [fetch]
    fails, when the service answers with a status that is not ok, and when the
    body is no JSON, the check writes the error twice (once in
    [queryVulnersAPI], once in its own [catch], with the same message),
    writes nothing else and fulfils its promise. *)
Theorem testOpenSSHVersion_lookup_failure (host : string) (port : N)
    (events : list SocketEvent) (api : VulnerabilityQuery -> Fetched) (banner : string)
    (error : JsError) :
  settled (getHostBanner host port events) = Fulfilled banner ->
  (api (ssh_query banner) = FetchFailed error
   \/ (exists status, api (ssh_query banner) = Answered true status (Throw error))
   \/ (exists status json,
         api (ssh_query banner) = Answered false status json
         /\ error = mkError None ("Vulners API request failed with status "
                                  +:+ show_N status))) ->
  testOpenSSHVersion table NumberToString host port events api
  = mkScan [ mkLine StdError ("Error querying Vulners API: " +:+ message error);
             mkLine StdError ("Error processing OpenSSH version for " +:+ endpoint host port
                              +:+ ": " +:+ message error) ]
           [ssh_query banner] (Fulfilled tt).
Proof.
  intros Hbanner Hapi. unfold testOpenSSHVersion. rewrite Hbanner.
  destruct Hapi as [-> | [[status ->] | (status & json & -> & ->)]]; reflexivity.
Qed.

Lemma report_unrecognized (host : string) (port : N)
    (response : JsValue) (results vulns : list JsValue) (res v : JsValue) (s : string) :
  get "result" response = Ok (JsArray results) ->
  In res results ->
  get "vulnerabilities" res = Ok (JsArray vulns) ->
  In v vulns ->
  severity_of v = Ok (JsStr s) ->
  is_severity (JsString.toLowerCase s) = false ->
  exists error, report table NumberToString host port response = ([], Throw error).
Proof.
  intros Hresult Hres Hvulns Hv Hsev Hrec.
  assert (Hthrows : throws (parseVulnerabilities response)).
  { unfold parseVulnerabilities.
    rewrite (get_array_truthy _ _ _ Hresult), Hresult. cbn [bind truthy forEach].
    apply (forEach_items_throws has_severity_keys bucket_result res).
    - intros a x a'. apply bucket_result_keys.
    - intros a Ha. unfold bucket_result. rewrite Hvulns. cbn [bind forEach].
      apply (forEach_items_throws has_severity_keys bucket_vulnerability v).
      + intros b x b'. apply bucket_vulnerability_keys.
      + intros b Hb. exact (bucket_vulnerability_unrecognized b v s Hb Hsev Hrec).
      + exact Ha.
      + exact Hv.
    - exists (fun _ => []). apply empty_buckets_are.
    - exact Hres. }
  destruct Hthrows as [error Herror]. exists error.
  unfold report. rewrite (get_array_truthy _ _ _ Hresult), Hresult. cbn [truthy].
  rewrite Herror. reflexivity.
Qed.

(** X17.  A response with a finding of unrecognized severity gives no partial
    report: the SSH check writes neither the table nor any finding, only one
    "Error processing" line, and still fulfils its promise. *)
Theorem testOpenSSHVersion_unrecognized_severity (host : string) (port : N)
    (events : list SocketEvent) (api : VulnerabilityQuery -> Fetched) (banner : string)
    (status : N) (response : JsValue) (results vulns : list JsValue) (res v : JsValue)
    (s : string) :
  settled (getHostBanner host port events) = Fulfilled banner ->
  api (ssh_query banner) = Answered true status (Ok response) ->
  get "result" response = Ok (JsArray results) ->
  In res results ->
  get "vulnerabilities" res = Ok (JsArray vulns) ->
  In v vulns ->
  severity_of v = Ok (JsStr s) ->
  is_severity (JsString.toLowerCase s) = false ->
  exists error,
    testOpenSSHVersion table NumberToString host port events api
    = mkScan [processing_error host port error] [ssh_query banner] (Fulfilled tt).
Proof.
  intros Hbanner Hapi Hresult Hres Hvulns Hv Hsev Hrec.
  destruct (report_unrecognized host port response results vulns res v s
              Hresult Hres Hvulns Hv Hsev Hrec) as [error Herror].
  exists error. unfold testOpenSSHVersion. rewrite Hbanner, Hapi. cbn [queryVulnersAPI].
  rewrite Herror. reflexivity.
Qed.

End Pipeline.

Lemma testOpenSSHVersion_lookup_failure_witness :
  testOpenSSHVersion plain_table plain_number "203.0.113.7" 22
    [Connect; Data "SSH-2.0-OpenSSH_9.6"]
    (fun _ => Answered false 429 (Ok JsNull))
  = mkScan [ mkLine StdError
               "Error querying Vulners API: Vulners API request failed with status 429";
             mkLine StdError
               "Error processing OpenSSH version for 203.0.113.7:22: Vulners API request failed with status 429" ]
           [ssh_query "SSH-2.0-OpenSSH_9.6"] (Fulfilled tt).
Proof.
  apply (testOpenSSHVersion_lookup_failure plain_table plain_number "203.0.113.7" 22
           [Connect; Data "SSH-2.0-OpenSSH_9.6"] (fun _ => Answered false 429 (Ok JsNull))
           "SSH-2.0-OpenSSH_9.6"
           (mkError None "Vulners API request failed with status 429")).
  - reflexivity.
  - right. right. exists 429%N, (Ok JsNull). split; reflexivity.
Defined.

Lemma testOpenSSHVersion_unrecognized_severity_witness :
  exists error,
    testOpenSSHVersion plain_table plain_number "203.0.113.7" 22
      [Connect; Data "SSH-2.0-OpenSSH_9.6"]
      (answering (api_response [ [ api_finding "CVE-A" "high" (7 # 1);
                                   api_finding "CVE-D" "None" (0 # 1) ] ]))
    = mkScan [processing_error "203.0.113.7" 22 error]
             [ssh_query "SSH-2.0-OpenSSH_9.6"] (Fulfilled tt).
Proof.
  apply (testOpenSSHVersion_unrecognized_severity plain_table plain_number
           "203.0.113.7" 22 [Connect; Data "SSH-2.0-OpenSSH_9.6"] _ "SSH-2.0-OpenSSH_9.6" 200
           (api_response [ [ api_finding "CVE-A" "high" (7 # 1);
                             api_finding "CVE-D" "None" (0 # 1) ] ])
           [ JsObject [("vulnerabilities",
                        JsArray [api_finding "CVE-A" "high" (7 # 1);
                                 api_finding "CVE-D" "None" (0 # 1)])] ]
           [api_finding "CVE-A" "high" (7 # 1); api_finding "CVE-D" "None" (0 # 1)]
           (JsObject [("vulnerabilities",
                       JsArray [api_finding "CVE-A" "high" (7 # 1);
                                api_finding "CVE-D" "None" (0 # 1)])])
           (api_finding "CVE-D" "None" (0 # 1)) "None").
  - reflexivity.
  - reflexivity.
  - reflexivity.
  - simpl. tauto.
  - reflexivity.
  - simpl. tauto.
  - reflexivity.
  - reflexivity.
Defined.

Section Report.

Variable table : list (list JsValue) -> Result string.
Variable NumberToString : Q -> string.

(** The listing of one finding: its line, or nothing and the exception of
    the conversion. *)
Lemma finding_line_printable (vuln : Finding) :
  let body := fun vuln =>
    do* text := evaluate (finding_text NumberToString vuln) in
    emit StdLog (default "" (Wrap.wrapText text 100%Q "")) in
  (printable NumberToString vuln = true ->
   exists lines, body vuln = (lines, Ok tt) /\ length lines = 1)
  /\ (printable NumberToString vuln = false ->
      exists lines error, body vuln = (lines, Throw error) /\ length lines < 1).
Proof.
  cbv zeta. unfold printable, evaluate, and_then_print, emit.
  destruct (finding_text NumberToString vuln) as [text|error].
  - split; [|discriminate]. intros _. eexists. split; reflexivity.
  - split; [discriminate|]. intros _. eexists _, _. split; [reflexivity | cbn; lia].
Qed.

Lemma severity_lines_count (host : string) (port : N) (entry : string * list Finding) :
  (forallb (printable NumberToString) (snd entry) = true ->
   exists lines, severity_lines NumberToString host port entry = (lines, Ok tt)
                 /\ length lines = 1 + length (snd entry))
  /\ (forallb (printable NumberToString) (snd entry) = false ->
      exists lines error,
        severity_lines NumberToString host port entry = (lines, Throw error)
        /\ length lines < 1 + length (snd entry)).
Proof.
  destruct entry as [severity vulns]. cbn [snd severity_lines].
  destruct vulns as [|vuln vulns].
  - split; [|discriminate]. intros _. eexists. split; reflexivity.
  - pose proof (for_each_count
                  (fun vuln =>
                     do* text := evaluate (finding_text NumberToString vuln) in
                     emit StdLog (default "" (Wrap.wrapText text 100%Q "")))
                  (fun _ => 1) (printable NumberToString)
                  (fun x => proj1 (finding_line_printable x))
                  (fun x => proj2 (finding_line_printable x))
                  (vuln :: vulns)) as [Hgood Hbad].
    rewrite list_sum_ones in Hgood, Hbad.
    unfold emit at 1. cbn [and_then_print].
    split; intros Hall.
    + destruct (Hgood Hall) as (lines & -> & Hlines). eexists. split; [reflexivity|].
      cbn [app length] in *. lia.
    + destruct (Hbad Hall) as (lines & error & -> & Hlines). eexists _, _.
      split; [reflexivity|]. cbn [app length] in *. lia.
Qed.

(** X18.  For a response whose findings all have a recognized severity the
    table gets one row per finding below its header row, and when the table
    renders, the report starts with it.  If the title, the description and
    the score of every finding convert to a string, the report runs to its
    end and has five console lines more than the response has findings (the
    table, and for each of the four severities its heading or its "No ...
    found" line).  If one of them does not, as an object with a property
    [toString] does not, the conversion throws in the second loop: the
    table and the lines written so far stay on the console, the report is
    shorter, and the exception reaches the [catch]. *)
Theorem report_covers_findings (host : string) (port : N) (response : JsValue)
    (results : list JsValue) :
  get "result" response = Ok (JsArray results) ->
  Forall (fun res => exists vulns, get "vulnerabilities" res = Ok (JsArray vulns)) results ->
  Forall recognized (findings_of_response results) ->
  exists vulnerabilities data,
    parseVulnerabilities response = Ok vulnerabilities
    /\ table_data NumberToString vulnerabilities = Ok data
    /\ length data = 1 + length (findings_of_response results)
    /\ forall rendered,
         table data = Ok rendered ->
         exists lines,
           fst (report table NumberToString host port response)
           = mkLine StdLog (trim rendered) :: lines
           /\ (forallb (printable NumberToString) (listed vulnerabilities) = true ->
               snd (report table NumberToString host port response) = Ok tt
               /\ length lines = 4 + length (findings_of_response results))
           /\ (forallb (printable NumberToString) (listed vulnerabilities) = false ->
               (exists error,
                  snd (report table NumberToString host port response) = Throw error)
               /\ length lines < 4 + length (findings_of_response results)).
Proof.
  intros Hresult Hshape Hall.
  destruct (forEach_results_recognized results empty_buckets _ empty_buckets_are Hshape Hall)
    as (buckets & Hrun & Hbuckets).
  assert (Hparse : parseVulnerabilities response = Ok buckets).
  { unfold parseVulnerabilities.
    rewrite (get_array_truthy _ _ _ Hresult), Hresult. cbn [bind truthy forEach]. exact Hrun. }
  assert (Hentries : entries buckets
                     = map (fun severity =>
                              (severity, expected_bucket severity (findings_of_response results)))
                           severities).
  { unfold entries, severities. cbn [map]. rewrite !Hbuckets. reflexivity. }
  pose proof (expected_buckets_total _ Hall) as Htotal.
  assert (Hlisted : length (listed buckets) = length (findings_of_response results)).
  { unfold listed. rewrite Hentries. unfold severities. cbn [map flat_map snd].
    rewrite !length_app. cbn [length]. lia. }
  assert (Hrows : Forall (fun vuln => exists row, table_row NumberToString vuln = Ok row)
                         (listed buckets)).
  { apply List.Forall_forall. intros vuln Hin. unfold listed in Hin. rewrite Hentries in Hin.
    unfold severities in Hin. cbn [map flat_map snd] in Hin.
    assert (Hkey : exists key, In vuln (expected_bucket key (findings_of_response results))).
    { rewrite !in_app_iff in Hin. cbn [In] in Hin.
      destruct Hin as [H | [H | [H | [H | []]]]]; eauto. }
    destruct Hkey as [key Hkey].
    destruct (expected_bucket_in _ _ _ Hkey) as (s & Hs & _).
    unfold table_row. rewrite Hs. cbn. eauto. }
  destruct (map_result_ok _ _ Hrows) as (rows & Hdata & Hlength).
  exists buckets, (table_headers :: rows).
  split; [exact Hparse|]. split.
  { unfold table_data. fold (listed buckets). now rewrite Hdata. }
  split; [cbn [length]; lia|].
  intros rendered Hrendered.
  pose proof (for_each_count (severity_lines NumberToString host port)
                (fun entry => 1 + length (snd entry))
                (fun entry => forallb (printable NumberToString) (snd entry))
                (fun entry => proj1 (severity_lines_count host port entry))
                (fun entry => proj2 (severity_lines_count host port entry))
                (entries buckets)) as [Hgood Hbad].
  rewrite <- forallb_flat_map in Hgood, Hbad. fold (listed buckets) in Hgood, Hbad.
  assert (Hsum : list_sum (map (fun entry : string * list Finding => 1 + length (snd entry))
                               (entries buckets))
                 = 4 + length (findings_of_response results)).
  { rewrite Hentries. unfold severities. cbn [map list_sum foldr snd]. lia. }
  rewrite Hsum in Hgood, Hbad.
  assert (Hreport : report table NumberToString host port response
                    = do* _ := emit StdLog (trim rendered) in
                      for_each (severity_lines NumberToString host port) (entries buckets)).
  { unfold report. rewrite (get_array_truthy _ _ _ Hresult), Hresult. cbn [truthy].
    rewrite Hparse. unfold evaluate at 1. cbn [and_then_print].
    unfold table_data. fold (listed buckets). rewrite Hdata. cbn [bind].
    unfold evaluate at 1. cbn [and_then_print]. rewrite Hrendered.
    unfold evaluate. cbn [and_then_print].
    destruct (do* _ := emit StdLog (trim rendered) in
              for_each (severity_lines NumberToString host port) (entries buckets))
      as [lines outcome]. now rewrite !app_nil_l. }
  rewrite Hreport. unfold emit. cbn [and_then_print].
  destruct (for_each (severity_lines NumberToString host port) (entries buckets))
    as [lines outcome] eqn:Hloop.
  exists lines. cbn [fst snd app]. split; [reflexivity|]. split; intros Hprintable.
  - destruct (Hgood Hprintable) as (lines' & [= <- <-] & Hlines). now split.
  - destruct (Hbad Hprintable) as (lines' & error & [= <- ->] & Hlines).
    split; [now exists error | exact Hlines].
Qed.




End Report.

Lemma report_covers_findings_witness :
  snd (report plain_table plain_number "203.0.113.7" 22 sample_response) = Ok tt
  /\ length (fst (report plain_table plain_number "203.0.113.7" 22 sample_response)) = 8.
Proof.
  destruct (report_covers_findings plain_table plain_number "203.0.113.7" 22 sample_response
              [ JsObject [("vulnerabilities",
                           JsArray [api_finding "CVE-A" "HIGH" (7 # 1);
                                    api_finding "CVE-B" "low" (2 # 1)])];
                JsObject [("vulnerabilities", JsArray [])];
                JsObject [("vulnerabilities", JsArray [api_finding "CVE-C" "High" (8 # 1)])] ])
    as (vulnerabilities & data & Hparse & Hdata & _ & Hreport).
  - reflexivity.
  - repeat constructor; eexists; reflexivity.
  - repeat constructor; eexists; split; reflexivity.
  - injection Hparse as <-.
    destruct (Hreport (match plain_table data with
                       | Ok rendered => rendered
                       | Throw _ => ""
                       end) eq_refl) as (lines & Hlines & Hgood & _).
    destruct (Hgood eq_refl) as [Hend Hlength].
    split; [exact Hend|]. rewrite Hlines. cbn [length]. now rewrite Hlength.
Defined.

(** A description that is an object with a property [toString] ends the
    report behind the table and the headings written so far. *)
Example report_cut_short :
  let scan := testOpenSSHVersion plain_table plain_number "203.0.113.7" 22
                [Connect; Data "SSH-2.0-OpenSSH_9.6"] (answering odd_response) in
  tl (output scan)
  = [ mkLine StdLog "No low severity vulnerabilities found for 203.0.113.7:22";
      mkLine StdLog "No medium severity vulnerabilities found for 203.0.113.7:22";
      mkLine StdLog (String "010" "Found 1 high severity vulnerabilities:");
      mkLine StdError
        "Error processing OpenSSH version for 203.0.113.7:22: Cannot convert object to primitive value" ]
  /\ finished scan = Fulfilled tt.
Proof. split; reflexivity. Qed.


(** ** Other socket faults *)

(** C8, as stated, fails: the database check answers a fault that is neither
    a timeout nor a refusal with [false], the very value it returns for an
    exposed service; no third outcome exists. *)
Lemma indeterminate_outcome_counterexample :
  snd (testMySQLService "203.0.113.7" 3306 [Connect; Error connection_reset])
  = Fulfilled false
  /\ snd (testMySQLService "203.0.113.7" 3306 [Connect; Data "5.7.44-log"])
     = Fulfilled false
  /\ ~ (forall host port error banner,
          timed_out_or_refused error = false ->
          snd (testMySQLService host port [Error error])
          <> snd (testMySQLService host port [Connect; Data banner])).
Proof.
  split; [reflexivity|]. split; [reflexivity|].
  intros H.
  exact (H "203.0.113.7" 3306%N connection_reset "5.7.44-log" eq_refl eq_refl).
Qed.

Lemma testMySQLService_never_rejects (host : string) (port : N) (events : list SocketEvent)
    (error : JsError) :
  snd (testMySQLService host port events) <> Rejected error.
Proof.
  unfold testMySQLService.
  destruct (settled (getHostBanner host port events)) as [|banner|e]; [discriminate| |].
  - destruct (truthy (JsStr banner)); discriminate.
  - destruct (timed_out_or_refused e); discriminate.
Qed.

Lemma certificate_deliver_never_rejects (host : string) (port : N) (cert : PeerCertificate)
    (p : Probe bool) (ev : SocketEvent) :
  (forall e, settled p <> Rejected e) ->
  forall e, settled (Socket.deliver (testSelfSignedCertificate_listeners host port cert) p ev)
            <> Rejected e.
Proof.
  intros Hp. destruct p as [[t i d e] st out od]. cbn in Hp.
  unfold Socket.deliver. cbn [socket destroyed timeout idle once_data].
  destruct d; [exact Hp|].
  destruct ev as [|chunk|err|ms]; cbn [testSelfSignedCertificate_listeners Socket.on_connect
    Socket.on_data Socket.on_error Socket.on_timeout].
  - destruct cert as [|issuer subject]; [|destruct (strict_equals issuer subject)];
      destruct st; cbn; solve [discriminate | exact Hp].
  - destruct od; exact Hp.
  - destruct st; cbn; solve [discriminate | exact Hp].
  - destruct t; exact Hp.
Qed.

Lemma certificate_never_rejects (host : string) (port : N) (cert : PeerCertificate)
    (events : list SocketEvent) (e : JsError) :
  settled (testSelfSignedCertificate host port cert events) <> Rejected e.
Proof.
  unfold testSelfSignedCertificate.
  assert (H : forall p : Probe bool,
             (forall e, settled p <> Rejected e) ->
             forall e, settled (Socket.run (testSelfSignedCertificate_listeners host port cert)
                                           p events) <> Rejected e).
  { induction events as [|ev events IH]; intros p Hp; [exact Hp|].
    rewrite run_cons. apply IH. now apply certificate_deliver_never_rejects. }
  apply H. discriminate.
Qed.

Lemma testEmailServiceWithoutTLS_never_rejects (host : string) (port : N)
    (events : list SocketEvent) (error : JsError) :
  snd (testEmailServiceWithoutTLS host port events) <> Rejected error.
Proof.
  unfold testEmailServiceWithoutTLS.
  destruct (settled (getHostBanner host port events)) as [|banner|e]; [discriminate| |].
  - destruct (JsString.includes banner "ESMTP" && negb (JsString.includes banner "STARTTLS"));
      discriminate.
  - destruct (timed_out_or_refused e); discriminate.
Qed.

(** C8 (amended).  The database, the mail and the certificate check resolve
    with [true] or [false], and [testOpenSSHVersion] of the current module
    resolves with [undefined]; no check has a third, indeterminate value, and
    none rejects its promise, so the scan goes on.  When the banner probe
    fails with a socket error that is neither the timeout nor a refusal,
    before or after the connection is established, the database and the mail
    check of the current module write the error to [console.error] and
    resolve with [false], the value of their insecure outcome, and
    [testOpenSSHVersion] writes one "Error processing" line and resolves.
    The certificate check writes the error and resolves with [false] when
    the socket fails before the TLS session is established, however long
    that takes; once the session is established its verdict is taken, and a
    later socket error does not change it.  The database check of
    bin/network.js resolves with [true] when such a fault comes before the
    connection is established and reports it as "not exposed"; after the
    connection is established it has already resolved with [false]. *)
Theorem fault_reported_as_insecure (host : string) (port : N) (error : JsError)
    (rest : list SocketEvent) :
  timed_out_or_refused error = false ->
  let line := mkLine StdError ("Error connecting to " +:+ endpoint host port +:+ ": "
                               +:+ message error) in
  testMySQLService host port (Error error :: rest) = ([line], Fulfilled false)
  /\ testMySQLService host port (Connect :: Error error :: rest) = ([line], Fulfilled false)
  /\ testEmailServiceWithoutTLS host port (Error error :: rest) = ([line], Fulfilled false)
  /\ testEmailServiceWithoutTLS host port (Connect :: Error error :: rest)
     = ([line], Fulfilled false)
  /\ (forall events,
        settled (getHostBanner host port events) = Rejected error ->
        testMySQLService host port events = ([line], Fulfilled false)
        /\ testEmailServiceWithoutTLS host port events = ([line], Fulfilled false)
        /\ forall table NumberToString api,
             testOpenSSHVersion table NumberToString host port events api
             = mkScan [processing_error host port error] [] (Fulfilled tt))
  /\ (forall cert waits,
        let probe := testSelfSignedCertificate host port cert
                       (map Idle waits ++ Error error :: rest) in
        settled probe = Fulfilled false /\ console probe = [line])
  /\ (forall cert events,
        settled (testSelfSignedCertificate host port cert (Connect :: events))
        = Fulfilled (certificate_verdict cert))
  /\ (forall events cert table NumberToString api rejection,
        snd (testMySQLService host port events) <> Rejected rejection
        /\ snd (testEmailServiceWithoutTLS host port events) <> Rejected rejection
        /\ settled (testSelfSignedCertificate host port cert events) <> Rejected rejection
        /\ finished (testOpenSSHVersion table NumberToString host port events api)
           <> Rejected rejection)
  /\ (let probe := BinNetwork.testMySQLService host port (Error error :: rest) in
      settled probe = Fulfilled true
      /\ console probe
         = [mkLine StdLog ("MySQL service is not exposed on " +:+ endpoint host port)])
  /\ settled (BinNetwork.testMySQLService host port (Connect :: Error error :: rest))
     = Fulfilled false.
Proof.
  intros Hother line. repeat apply conj.
  - unfold testMySQLService. rewrite getHostBanner_error, Hother. reflexivity.
  - unfold testMySQLService. rewrite getHostBanner_connect_error, Hother. reflexivity.
  - unfold testEmailServiceWithoutTLS. rewrite getHostBanner_error, Hother. reflexivity.
  - unfold testEmailServiceWithoutTLS. rewrite getHostBanner_connect_error, Hother.
    reflexivity.
  - intros events Hprobe. repeat apply conj.
    + unfold testMySQLService. rewrite Hprobe, Hother. reflexivity.
    + unfold testEmailServiceWithoutTLS. rewrite Hprobe, Hother. reflexivity.
    + intros table NumberToString api. unfold testOpenSSHVersion. now rewrite Hprobe.
  - intros cert waits. cbv zeta. unfold testSelfSignedCertificate. rewrite run_app.
    destruct (testSelfSignedCertificate_waits host port cert waits (Socket.start None) eq_refl)
      as [-> | Hbad]; [|discriminate Hbad].
    rewrite run_cons, run_destroyed; [split|]; reflexivity.
  - intros cert events. unfold testSelfSignedCertificate.
    rewrite run_cons, certificate_run_settled.
    + destruct cert as [|issuer subject]; [reflexivity|].
      cbn. destruct (strict_equals issuer subject); reflexivity.
    + destruct cert as [|issuer subject]; [discriminate|].
      cbn. destruct (strict_equals issuer subject); discriminate.
  - intros events cert table NumberToString api rejection. repeat apply conj.
    + apply testMySQLService_never_rejects.
    + apply testEmailServiceWithoutTLS_never_rejects.
    + apply certificate_never_rejects.
    + apply testOpenSSHVersion_cases.
  - unfold BinNetwork.testMySQLService. rewrite run_cons, run_destroyed; reflexivity.
  - unfold BinNetwork.testMySQLService. rewrite run_cons, run_destroyed; reflexivity.
  - unfold BinNetwork.testMySQLService. rewrite run_cons, run_destroyed; reflexivity.
Qed.

Lemma fault_reported_as_insecure_witness :
  testMySQLService "203.0.113.7" 3306 [Connect; Error connection_reset]
  = ([mkLine StdError "Error connecting to 203.0.113.7:3306: read ECONNRESET"],
     Fulfilled false).
Proof.
  exact (proj1 (proj2 (fault_reported_as_insecure "203.0.113.7" 3306 connection_reset []
                         eq_refl))).
Defined.

(** ** Text wrapping: the revision with an indent *)

Lemma indent_wrapPoint_room (width : Q) (linePrefix currentText : string)
    (isFirstLine : bool) (lines : list string) :
  (0 < width - inject_Z (Wrap.len linePrefix))%Q ->
  WrapIndent.wrapPoint width linePrefix currentText isFirstLine lines
  = (lines, Wrap.wrapPoint (width - inject_Z (Wrap.len linePrefix)) currentText).
Proof.
  intros Hroom. unfold WrapIndent.wrapPoint, Wrap.wrapPoint.
  assert (Wrap.positive (width - inject_Z (Wrap.len linePrefix)) = true) as ->
    by now apply positive_spec.
  destruct (Wrap.lastIndexOf " " _ currentText <=? 0)%Z; [|reflexivity].
  assert (Qle_bool (width - inject_Z (Wrap.len linePrefix)) 0 = false) as ->
    by now apply Qle_bool_false.
  reflexivity.
Qed.

Lemma indent_wrapPoint_bounds (width : Q) (linePrefix currentText : string)
    (isFirstLine : bool) (lines : list string) :
  Wrap.room width linePrefix ->
  1 <= Wrap.index (snd (WrapIndent.wrapPoint width linePrefix currentText isFirstLine lines)).
Proof.
  intros Hroom.
  destruct (Qlt_le_dec 0 (width - inject_Z (Wrap.len linePrefix))) as [Hsome | Hnone].
  - rewrite (indent_wrapPoint_room _ _ _ _ _ Hsome). cbn [snd].
    now apply wrapPoint_bounds.
  - unfold WrapIndent.wrapPoint.
    assert (Wrap.positive (width - inject_Z (Wrap.len linePrefix)) = false) as ->
      by now apply positive_false.
    cbn. destruct isFirstLine; cbn; apply le_n.
Qed.

Lemma indent_loop_total (width : Q) (subsequentIndent : string) :
  Wrap.room width "" ->
  Wrap.room width subsequentIndent ->
  forall fuel currentText lines,
    String.length currentText <= fuel ->
    exists out, WrapIndent.loop fuel width subsequentIndent currentText lines = Some out.
Proof.
  intros Hfirst Hlater.
  induction fuel as [|fuel IH]; intros currentText lines Hfuel.
  - destruct currentText; [now eexists | simpl in Hfuel; lia].
  - destruct currentText as [|c rest]; [now eexists|].
    cbn [WrapIndent.loop].
    set (linePrefix := if WrapIndent.is_empty lines then "" else subsequentIndent).
    assert (Hroom : Wrap.room width linePrefix)
      by (subst linePrefix; now destruct (WrapIndent.is_empty lines)).
    destruct (Qle_bool _ width); [now eexists|].
    pose proof (indent_wrapPoint_bounds width linePrefix (String c rest)
                  (WrapIndent.is_empty lines) lines Hroom) as Hcut.
    destruct (WrapIndent.wrapPoint width linePrefix (String c rest)
                (WrapIndent.is_empty lines) lines) as [lines' point].
    cbn [snd] in Hcut. apply IH.
    destruct (Wrap.index point) as [|n] eqn:En; [lia|].
    pose proof (length_drop n c rest).
    pose proof (length_trimStart (Wrap.drop (S n) (String c rest))).
    simpl in Hfuel. lia.
Qed.

Lemma indent_loop_plain (width : Q) :
  (0 < width)%Q ->
  forall fuel currentText lines,
    WrapIndent.loop fuel width "" currentText lines = Wrap.loop fuel width "" currentText lines.
Proof.
  intros Hwidth. induction fuel as [|fuel IH]; intros currentText lines.
  - destruct currentText as [|c rest]; [reflexivity|]. cbn [WrapIndent.loop Wrap.loop].
    destruct (WrapIndent.is_empty lines); reflexivity.
  - destruct currentText as [|c rest]; [reflexivity|]. cbn [WrapIndent.loop Wrap.loop].
    assert (Hprefix : (if WrapIndent.is_empty lines then "" else "") = "")
      by (destruct (WrapIndent.is_empty lines); reflexivity).
    rewrite Hprefix.
    destruct (Qle_bool _ width); [reflexivity|].
    rewrite indent_wrapPoint_room by (change (inject_Z (Wrap.len "")) with 0%Q; lra).
    apply IH.
Qed.

(** X20.  The revision of [wrapText] with an indent terminates whenever
    neither the width nor the room behind the indent is a fraction between 0
    and 1, so for every whole width.  With an empty indent and a width of at
    least one the two revisions return the same text, so a caller that passes
    [''] as its third argument, as the SSH check does with width 100, gets
    the same lines from either.  With an empty indent and a width between 0
    and 1 this revision, too, never returns on a text that is not only white
    space. *)
Theorem wrapText_revisions_agree (text : string) (width : Q) :
  (forall subsequentIndent,
     Wrap.room width "" -> Wrap.room width subsequentIndent ->
     exists lines, WrapIndent.wrapLines text width subsequentIndent = Some lines)
  /\ (forall (whole : Z) subsequentIndent,
        exists lines,
          WrapIndent.wrapLines text (inject_Z whole) subsequentIndent = Some lines)
  /\ ((1 <= width)%Q ->
      WrapIndent.wrapText text width "" = Wrap.wrapText text width "")
  /\ ((0 < width < 1)%Q -> Wrap.trimStart text <> "" ->
      forall fuel lines, WrapIndent.loop fuel width "" text lines = None).
Proof.
  split; [|split; [|split]].
  - intros subsequentIndent Hfirst Hlater. now apply indent_loop_total.
  - intros whole subsequentIndent.
    apply indent_loop_total; [apply integer_room | apply integer_room | apply le_n].
  - intros Hwidth. unfold WrapIndent.wrapText, Wrap.wrapText, WrapIndent.wrapLines,
      Wrap.wrapLines. now rewrite (indent_loop_plain width) by lra.
  - intros Hwidth Htext fuel lines. rewrite (indent_loop_plain width) by lra.
    apply loop_stuck; [|exact Htext].
    change (inject_Z (Wrap.len "")) with 0%Q. lra.
Qed.

Lemma wrapText_revisions_agree_witness :
  WrapIndent.wrapText "- CVE-A: heap overflow in the parser (CVSS: 7)" 20 ""
  = Wrap.wrapText "- CVE-A: heap overflow in the parser (CVSS: 7)" 20 "".
Proof.
  destruct (wrapText_revisions_agree "- CVE-A: heap overflow in the parser (CVSS: 7)" 20)
    as (_ & _ & H & _).
  apply H. vm_compute. discriminate.
Defined.

Example wrapText_revisions_differ :
  Wrap.wrapLines "abc" 0 "" = Some ["a"; "b"; "c"]
  /\ WrapIndent.wrapLines "abc" 0 "" = Some ["a"; ""; "b"; ""; "c"].
Proof. split; reflexivity. Qed.

Lemma indent_loop_width (width : Q) (subsequentIndent : string) :
  (inject_Z (Wrap.len subsequentIndent) < width)%Q ->
  forall fuel currentText lines out,
    Forall (fun line => (inject_Z (Wrap.len line) <= width)%Q) lines ->
    WrapIndent.loop fuel width subsequentIndent currentText lines = Some out ->
    Forall (fun line => (inject_Z (Wrap.len line) <= width)%Q) out.
Proof.
  intros Hroom.
  assert (Hprefix : forall lines : list string,
    (0 < width - inject_Z (Wrap.len (if WrapIndent.is_empty lines
                                     then "" else subsequentIndent)))%Q).
  { intros lines. destruct (WrapIndent.is_empty lines); [|lra].
    change (inject_Z (Wrap.len "")) with 0%Q.
    assert (0 <= inject_Z (Wrap.len subsequentIndent))%Q; [|lra].
    change 0%Q with (inject_Z 0). rewrite <- Zle_Qle. unfold Wrap.len. lia. }
  induction fuel as [|fuel IH]; intros currentText lines out Hlines.
  - destruct currentText as [|c rest]; cbn [WrapIndent.loop]; [now intros [= <-]|].
    destruct (Qle_bool _ width) eqn:E; [|discriminate].
    intros [= <-]. apply Forall_app. split; [exact Hlines|].
    constructor; [now apply Qle_bool_iff | constructor].
  - destruct currentText as [|c rest]; cbn [WrapIndent.loop]; [now intros [= <-]|].
    destruct (Qle_bool _ width) eqn:E.
    + intros [= <-]. apply Forall_app. split; [exact Hlines|].
      constructor; [now apply Qle_bool_iff | constructor].
    + rewrite (indent_wrapPoint_room _ _ _ _ _ (Hprefix lines)).
      apply IH. apply Forall_app. split; [exact Hlines|].
      constructor; [|constructor].
      set (linePrefix := if WrapIndent.is_empty lines then "" else subsequentIndent) in *.
      pose proof (wrapPoint_bounds (width - inject_Z (Wrap.len linePrefix)) (String c rest))
        as (_ & _ & Hhi).
      cbv zeta in Hhi. specialize (Hhi (Hprefix lines)).
      set (cut := Wrap.index _) in *.
      pose proof (length_take cut (String c rest)) as Htake.
      rewrite len_append, inject_Z_plus.
      assert (inject_Z (Wrap.len (Wrap.take cut (String c rest))) <= inject_Z (Z.of_nat cut))%Q.
      { rewrite <- Zle_Qle. unfold Wrap.len. lia. }
      lra.
Qed.

(** X21.  In the revision of [wrapText] with an indent too, no line is longer
    than the width (indent included) when the indent is shorter than the
    width. *)
Theorem indent_wrapLines_width (text : string) (width : Q) (subsequentIndent : string)
    (lines : list string) :
  (inject_Z (Wrap.len subsequentIndent) < width)%Q ->
  WrapIndent.wrapLines text width subsequentIndent = Some lines ->
  Forall (fun line => (inject_Z (Wrap.len line) <= width)%Q) lines.
Proof.
  intros Hroom. apply (indent_loop_width width subsequentIndent Hroom). constructor.
Qed.

Lemma indent_wrapLines_width_witness :
  Forall (fun line => (inject_Z (Wrap.len line) <= 10)%Q)
         ["the quick"; "  brown"; "  fox"; "  jumps"; "  over the"; "  lazy dog"].
Proof.
  apply (indent_wrapLines_width "the quick brown fox jumps over the lazy dog" 10 "  ");
    reflexivity.
Defined.

(** ** The network tests of one address *)

Section NetworkTestsFacts.

Variable table : list (list JsValue) -> Result string.
Variable NumberToString : Q -> string.

(** X22.  A peer that stays silent on port 443 stalls the network tests of
    its address at the certificate check: whatever the database check found
    and however long the silence lasts, the tests never finish, the mail and
    the SSH check are never started and no query is sent. *)
Theorem network_tests_stall_at_certificate (ipAddress : string) (traffic : Traffic)
    (api : VulnerabilityQuery -> Fetched) (waits : list N) :
  certificate_events traffic = map Idle waits ->
  let tests := network_tests table NumberToString ipAddress traffic api in
  finished tests = Pending
  /\ requests tests = []
  /\ forall secure,
       snd (testMySQLService ipAddress 3306 (database_events traffic)) = Fulfilled secure ->
       output tests
       = mkLine StdLog (String "010" ("Network Tests for " +:+ ipAddress +:+ "..."))
         :: fst (testMySQLService ipAddress 3306 (database_events traffic)).
Proof.
  intros Hsilent. cbv zeta. unfold network_tests. rewrite Hsilent.
  destruct (testSelfSignedCertificate_waits ipAddress 443 (peer_certificate traffic) waits
              (Socket.start None) eq_refl) as [Hrun | Hbad]; [|discriminate Hbad].
  unfold testSelfSignedCertificate. rewrite Hrun.
  pose proof (testMySQLService_never_rejects ipAddress 3306 (database_events traffic)) as Hnever.
  destruct (snd (testMySQLService ipAddress 3306 (database_events traffic))) as [|b|e].
  - split; [reflexivity|]. split; [reflexivity | discriminate].
  - cbn. rewrite app_nil_r. split; [reflexivity|]. split; [reflexivity|]. reflexivity.
  - now destruct (Hnever e).
Qed.

End NetworkTestsFacts.

Lemma network_tests_stall_at_certificate_witness :
  finished (network_tests plain_table plain_number "203.0.113.7"
              {| database_events := [Error connection_refused];
                 peer_certificate := NoCertificate;
                 certificate_events := map Idle [5000%N; 60000%N];
                 mail_events := [Connect; Data "220 mx ESMTP"];
                 ssh_events := [Connect; Data "SSH-2.0-OpenSSH_9.6"] |}
              (answering sample_response))
  = Pending.
Proof.
  refine (proj1 (network_tests_stall_at_certificate plain_table plain_number "203.0.113.7"
           {| database_events := [Error connection_refused];
              peer_certificate := NoCertificate;
              certificate_events := map Idle [5000%N; 60000%N];
              mail_events := [Connect; Data "220 mx ESMTP"];
              ssh_events := [Connect; Data "SSH-2.0-OpenSSH_9.6"] |}
           (answering sample_response) [5000%N; 60000%N] _)).
  reflexivity.
Defined.

(** ** The content-security-policy check *)

Lemma startsWith_prefix (p q s : string) :
  JsString.startsWith s (p +:+ q) = true -> JsString.startsWith s p = true.
Proof.
  revert s. induction p as [|a p IH]; intros s H; [reflexivity|].
  destruct s as [|b s]; [discriminate H|].
  cbn in H |- *. apply andb_true_iff in H as [Hab H].
  rewrite Hab. cbn. now apply IH.
Qed.

Lemma includes_prefix (p q s : string) :
  JsString.includes s (p +:+ q) = true -> JsString.includes s p = true.
Proof.
  induction s as [|c s IH]; intros H.
  - cbn in H |- *. rewrite orb_false_r in H |- *. now apply startsWith_prefix with q.
  - cbn [JsString.includes] in H |- *.
    apply orb_true_iff in H as [H | H].
    + apply startsWith_prefix in H. now rewrite H.
    + rewrite (IH H). apply orb_true_r.
Qed.

(** X23.  The policy check looks for the names of the directives only.  The
    test for [script-src 'self'] (and for [object-src 'self']) never decides
    anything, because a policy with that text contains [script-src] as well:
    the "broad" warning is written exactly when the name occurs nowhere in
    the policy.  So a policy is reported without any warning exactly when it
    has [frame-ancestors 'self'] or [frame-ancestors 'none'], mentions
    [script-src] and [object-src], whatever their sources, and contains
    neither ['unsafe-inline'] nor ['unsafe-eval']. *)
Theorem testCSP_names_only (response : Security.Response) (csp : string) :
  Security.header response "content-security-policy" = Some csp ->
  csp <> "" ->
  (clean (Security.testCSP response) = true
   <-> (JsString.includes csp "frame-ancestors 'self'"
        || JsString.includes csp "frame-ancestors 'none'")
       && JsString.includes csp "script-src"
       && JsString.includes csp "object-src"
       && negb (JsString.includes csp "'unsafe-inline'")
       && negb (JsString.includes csp "'unsafe-eval'") = true)
  /\ (In (mkLine StdWarn "Content-Security-Policy contains broad script-src directive")
         (Security.testCSP response)
      <-> JsString.includes csp "script-src" = false)
  /\ (In (mkLine StdWarn "Content-Security-Policy contains broad object-src directive")
         (Security.testCSP response)
      <-> JsString.includes csp "object-src" = false).
Proof.
  intros Hheader Hcsp.
  unfold Security.testCSP. rewrite Hheader.
  destruct csp as [|c csp']; [congruence|].
  pose proof (includes_prefix "script-src" " 'self'" (String c csp')) as Hscript.
  pose proof (includes_prefix "object-src" " 'self'" (String c csp')) as Hobject.
  change ("script-src" +:+ " 'self'") with "script-src 'self'" in Hscript.
  change ("object-src" +:+ " 'self'") with "object-src 'self'" in Hobject.
  cbv beta iota zeta.
  set (csp := String c csp') in *.
  destruct (JsString.includes csp "script-src 'self'"), (JsString.includes csp "script-src");
    try (specialize (Hscript eq_refl); discriminate Hscript);
    destruct (JsString.includes csp "object-src 'self'"), (JsString.includes csp "object-src");
    try (specialize (Hobject eq_refl); discriminate Hobject);
    destruct (JsString.includes csp "frame-ancestors 'self'"),
             (JsString.includes csp "frame-ancestors 'none'"),
             (JsString.includes csp "'unsafe-inline'"),
             (JsString.includes csp "'unsafe-eval'");
    cbn; repeat split; intros; try reflexivity; try discriminate;
    try (left; reflexivity); intuition (try discriminate; try congruence).
Qed.

Lemma testCSP_names_only_witness :
  clean (Security.testCSP
           (response_with 200
              [("content-security-policy",
                "frame-ancestors 'none'; script-src *; object-src *")]))
  = true.
Proof.
  refine (proj2 (proj1 (testCSP_names_only
                          (response_with 200
                             [("content-security-policy",
                               "frame-ancestors 'none'; script-src *; object-src *")])
                          "frame-ancestors 'none'; script-src *; object-src *"
                          eq_refl _)) eq_refl).
  discriminate.
Defined.

(** ** The cookie check *)

Lemma count_stream_app (s : Stream) (xs ys : list LogLine) :
  count_stream s (xs ++ ys) = count_stream s xs + count_stream s ys.
Proof. unfold count_stream. now rewrite List.filter_app, length_app. Qed.

Lemma clean_counts (lines : list LogLine) :
  clean lines = true
  <-> count_stream StdWarn lines = 0 /\ count_stream StdError lines = 0.
Proof.
  unfold clean, count_stream.
  induction lines as [|[[] text] rest IH]; cbn; rewrite ?IH; intuition (try discriminate; lia).
Qed.

Section CookieFacts.

Variable parsed_keys : string -> list string.

Lemma check_cookie_counts (lines : list LogLine) (issues : bool) (header : string)
    (index : nat) :
  let state := Security.check_cookie parsed_keys (lines, issues) header index in
  count_stream StdWarn (fst state) = count_stream StdWarn lines + missing_flags header
  /\ count_stream StdLog (fst state) = count_stream StdLog lines
  /\ count_stream StdError (fst state) = count_stream StdError lines
  /\ snd state = issues || negb (missing_flags header =? 0).
Proof.
  unfold Security.check_cookie, missing_flags.
  destruct (JsString.includes (JsString.toLowerCase header) "httponly"),
           (JsString.includes (JsString.toLowerCase header) "secure");
    cbn [negb fst snd]; rewrite ?count_stream_app; cbn; destruct issues; cbn;
    repeat split; lia.
Qed.

Lemma forEach_cookie_counts (headers : list string) (index : nat)
    (lines : list LogLine) (issues : bool) :
  let state := Security.forEach_cookie parsed_keys headers index (lines, issues) in
  count_stream StdWarn (fst state)
  = count_stream StdWarn lines + total_missing_flags headers
  /\ count_stream StdLog (fst state) = count_stream StdLog lines
  /\ count_stream StdError (fst state) = count_stream StdError lines
  /\ snd state = issues || negb (total_missing_flags headers =? 0).
Proof.
  revert index lines issues.
  induction headers as [|header rest IH]; intros index lines issues.
  - cbn [Security.forEach_cookie fst snd]. unfold total_missing_flags. cbn [map list_sum foldr].
    rewrite orb_false_r. repeat split; lia.
  - cbn [Security.forEach_cookie].
    pose proof (check_cookie_counts lines issues header index) as Hstep.
    destruct (Security.check_cookie parsed_keys (lines, issues) header index)
      as [lines' issues'].
    cbn [fst snd] in Hstep. destruct Hstep as (Hwarn & Hlog & Herr & Hissues).
    specialize (IH (S index) lines' issues').
    cbv zeta in IH |- *. destruct IH as (IHwarn & IHlog & IHerr & IHissues).
    rewrite IHwarn, IHlog, IHerr, IHissues, Hwarn, Hlog, Herr, Hissues.
    unfold total_missing_flags. cbn [map list_sum foldr].
    change (foldr Nat.add 0 (map missing_flags rest)) with (list_sum (map missing_flags rest)).
    repeat split; try lia.
    destruct issues; [reflexivity|]. cbn [orb].
    destruct (missing_flags header) as [|n]; cbn; [reflexivity|].
    reflexivity.
Qed.

Lemma total_missing_flags_zero (headers : list string) :
  total_missing_flags headers = 0
  <-> Forall (fun header =>
                JsString.includes (JsString.toLowerCase header) "httponly" = true
                /\ JsString.includes (JsString.toLowerCase header) "secure" = true)
             headers.
Proof.
  unfold total_missing_flags.
  induction headers as [|h t IH]; cbn [map list_sum foldr].
  - split; [constructor | reflexivity].
  - change (foldr Nat.add 0 (map missing_flags t)) with (list_sum (map missing_flags t)).
    rewrite Forall_cons_iff, <- IH. unfold missing_flags at 1.
    destruct (JsString.includes (JsString.toLowerCase h) "httponly"),
             (JsString.includes (JsString.toLowerCase h) "secure"); cbn;
      intuition (try discriminate; try lia).
Qed.

(** X24.  The cookie check writes one warning for each of the two flag names
    that occurs nowhere in a [Set-Cookie] header, in whatever case, and the
    line that all cookies carry both flags exactly when it wrote no warning:
    the [issues] flag gets through the loop from every cookie to the end.
    Nothing of this depends on what [cookie.parse] makes of a header, and
    nothing is written with [console.error]. *)
Theorem testCookies_counts (response : Security.Response) :
  Security.set_cookie response <> [] ->
  let lines := Security.testCookies parsed_keys response in
  count_stream StdWarn lines = total_missing_flags (Security.set_cookie response)
  /\ count_stream StdError lines = 0
  /\ count_stream StdLog lines
     = (if total_missing_flags (Security.set_cookie response) =? 0 then 2 else 1)
  /\ (clean lines = true
      <-> Forall (fun header =>
                    JsString.includes (JsString.toLowerCase header) "httponly" = true
                    /\ JsString.includes (JsString.toLowerCase header) "secure" = true)
                 (Security.set_cookie response)).
Proof.
  intros Hcookies. unfold Security.testCookies.
  pose proof (forEach_cookie_counts (Security.set_cookie response) 0 [] false) as Hloop.
  pose proof (total_missing_flags_zero (Security.set_cookie response)) as Hzero.
  destruct (Security.set_cookie response) as [|header rest] eqn:Hraw; [congruence|].
  rewrite <- Hraw in *. clear Hraw.
  destruct (Security.forEach_cookie parsed_keys (Security.set_cookie response) 0 ([], false))
    as [lines issues].
  cbn [fst snd orb] in Hloop. destruct Hloop as (Hwarn & Hlog & Herr & Hissues).
  cbv zeta.
  rewrite clean_counts, <- Hzero.
  change (Security.group "Cookies" :: ?l) with ([Security.group "Cookies"] ++ l).
  rewrite !count_stream_app, Hwarn, Hlog, Herr, Hissues.
  destruct (total_missing_flags (Security.set_cookie response)) as [|n]; cbn; lia.
Qed.

End CookieFacts.

Lemma testCookies_counts_witness :
  count_stream StdWarn (Security.testCookies (fun _ => []) cookies_response) = 3.
Proof.
  refine (proj1 (testCookies_counts (fun _ => []) cookies_response _)).
  discriminate.
Defined.

(** ** The header checks *)

(** A code unit that upper-cases to a capital letter of [A-Z] lower-cases to
    the small one, and the other way round; only the sharp s upper-cases to
    more than one unit. *)
Lemma toUpperUnits_letter (c : ascii) :
  (exists n, Security.toUpperUnits c = [n]
             /\ ((65 <= n <= 90)%N -> N_of_ascii (JsString.toLowerChar c) = (n + 32)%N))
  \/ Security.toUpperUnits c = [83%N; 83%N].
Proof.
  destruct c as [[] [] [] [] [] [] [] []];
    first [ right; reflexivity
          | left; eexists; split; [vm_compute; reflexivity|]; intros H;
            first [ reflexivity | exfalso; lia ] ].
Qed.

Lemma toLowerChar_letter (c : ascii) :
  (97 <= N_of_ascii (JsString.toLowerChar c) <= 122)%N ->
  Security.toUpperUnits c = [(N_of_ascii (JsString.toLowerChar c) - 32)%N].
Proof.
  destruct c as [[] [] [] [] [] [] [] []]; intros [H1 H2];
    first [ reflexivity
          | exfalso; first [ apply H1; reflexivity | apply H2; reflexivity ] ].
Qed.

Lemma toUpperCase_nil (s : string) : Security.toUpperCase s = [] -> s = "".
Proof.
  destruct s as [|c s]; [reflexivity|]. cbn.
  destruct (toUpperUnits_letter c) as [(n & -> & _) | ->]; discriminate.
Qed.

Lemma toUpperCase_cons (s : string) (n : N) (rest : list N) :
  (65 <= n <= 90)%N ->
  Security.toUpperCase s = n :: rest ->
  (exists c s', s = String c s'
                /\ JsString.toLowerChar c = ascii_of_N (n + 32)
                /\ Security.toUpperCase s' = rest)
  \/ (n = 83%N /\ exists rest', rest = 83%N :: rest').
Proof.
  intros Hn H. destruct s as [|c s']; [discriminate H|].
  cbn in H. destruct (toUpperUnits_letter c) as [(m & Hm & Hlow) | Hss]. 
  - rewrite Hm in H. injection H as -> Hrest. left. exists c, s'.
    split; [reflexivity|]. split; [|exact Hrest].
    rewrite <- (Hlow Hn). now rewrite ascii_N_embedding.
  - rewrite Hss in H. injection H as <- <-. right. split; [reflexivity|]. now eexists.
Qed.

Lemma toLowerCase_cons (s : string) (c : ascii) (rest : string) :
  JsString.toLowerCase s = String c rest ->
  exists d s', s = String d s' /\ JsString.toLowerChar d = c
               /\ JsString.toLowerCase s' = rest.
Proof.
  destruct s as [|d s']; [discriminate|]. cbn. intros H. injection H as <- <-.
  now exists d, s'.
Qed.


Lemma capital_lower (c : ascii) :
  JsString.between 65 90 (N_of_ascii c) = true ->
  JsString.toLowerChar c = ascii_of_N (N_of_ascii c + 32)
  /\ (65 <= N_of_ascii c <= 90)%N.
Proof.
  intros H. unfold JsString.toLowerChar. rewrite H. cbn [orb]. split; [reflexivity|].
  unfold JsString.between in H. apply andb_true_iff in H as [H1 H2].
  apply N.leb_le in H1, H2. lia.
Qed.

Lemma upper_equals_lower (target : string) :
  plain_capitals target = true ->
  forall v, Security.toUpperCase v = Security.units target
            <-> JsString.toLowerCase v = JsString.toLowerCase target.
Proof.
  induction target as [|C t IH]; intros Hgood v.
  - cbn. split; intros H.
    + now apply toUpperCase_nil in H as ->.
    + destruct v; [reflexivity | discriminate H].
  - cbn [plain_capitals] in Hgood.
    apply andb_true_iff in Hgood as [Hgood Ht].
    apply andb_true_iff in Hgood as [HC Hss].
    destruct (capital_lower C HC) as [HlowC HrangeC].
    cbn [Security.units JsString.toLowerCase]. split; intros H.
    + apply toUpperCase_cons in H; [|exact HrangeC].
      destruct H as [(c & v' & -> & Hc & H) | (HS & rest & Hrest)].
      * cbn [JsString.toLowerCase]. rewrite Hc, HlowC. f_equal. now apply IH.
      * exfalso. rewrite HS in Hss. destruct t as [|d t']; [discriminate Hrest|].
        cbn in Hrest. injection Hrest as Hd _. cbn in Hss. rewrite Hd in Hss.
        discriminate Hss.
    + apply toLowerCase_cons in H as (c & v' & -> & Hc & H).
      cbn [Security.toUpperCase].
      assert (Hunit : N_of_ascii (JsString.toLowerChar c) = (N_of_ascii C + 32)%N).
      { rewrite Hc, HlowC. apply N_ascii_embedding. lia. }
      rewrite toLowerChar_letter by (rewrite Hunit; lia).
      rewrite Hunit. apply IH in H; [|exact Ht]. rewrite H. cbn. f_equal. lia.
Qed.

Lemma one_of_In (values : list string) (v : string) :
  Security.one_of values v = true <-> In v values.
Proof.
  unfold Security.one_of. rewrite existsb_exists. split.
  - intros (x & Hx & Heq). apply String.eqb_eq in Heq. now subst.
  - intros H. exists v. split; [exact H | apply String.eqb_refl].
Qed.

Lemma upper_one_of_lower (v : string) :
  Security.upper_one_of ["SAMEORIGIN"; "DENY"] v = true
  <-> In (JsString.toLowerCase v) ["sameorigin"; "deny"].
Proof.
  unfold Security.upper_one_of. cbn [existsb In].
  rewrite orb_true_iff, orb_false_r, !bool_decide_eq_true.
  rewrite (upper_equals_lower "SAMEORIGIN" eq_refl v).
  rewrite (upper_equals_lower "DENY" eq_refl v).
  change (JsString.toLowerCase "SAMEORIGIN") with "sameorigin".
  change (JsString.toLowerCase "DENY") with "deny".
  intuition congruence.
Qed.

(** X25.  The header check writes one line for each of its four headers,
    and none of them is a warning exactly when [Referrer-Policy] is one of
    the three accepted values as written (its case matters),
    [X-Frame-Options] is [sameorigin] or [deny] in any case (the comparison of
    the upper-cased value amounts to one of the lower-cased value),
    [X-Content-Type-Options] is [nosniff] in any case, and the
    [Strict-Transport-Security] value contains [max-age=31536000] and
    [includeSubDomains] somewhere.  An empty header counts as missing. *)
Theorem testSecurityHeaders_clean (response : Security.Response) :
  length (Security.testSecurityHeaders response) = 5
  /\ (clean (Security.testSecurityHeaders response) = true
      <-> (exists v, Security.header response "referrer-policy" = Some v
                     /\ In v ["strict-origin-when-cross-origin"; "same-origin";
                              "no-referrer"])
          /\ (exists v, Security.header response "x-frame-options" = Some v
                        /\ In (JsString.toLowerCase v) ["sameorigin"; "deny"])
          /\ (exists v, Security.header response "x-content-type-options" = Some v
                        /\ JsString.toLowerCase v = "nosniff")
          /\ (exists v, Security.header response "strict-transport-security" = Some v
                        /\ JsString.includes v "max-age=31536000" = true
                        /\ JsString.includes v "includeSubDomains" = true))
  /\ (forall name label,
        In (name, label)
           [ ("referrer-policy", "Referrer-Policy");
             ("x-frame-options", "X-Frame-Options");
             ("x-content-type-options", "X-Content-Type-Options");
             ("strict-transport-security", "Strict-Transport-Security (HSTS)") ] ->
        Security.header response name = None \/ Security.header response name = Some "" ->
        In (mkLine StdWarn ("Missing " +:+ label +:+ " header"))
           (Security.testSecurityHeaders response)).
Proof.
  split; [reflexivity|]. split; cycle 1.
  { intros name label Hin Hmissing. unfold Security.testSecurityHeaders.
    cbn [In] in Hin.
    destruct Hin as [[= <- <-] | [[= <- <-] | [[= <- <-] | [[= <- <-] | []]]]];
      destruct Hmissing as [-> | ->]; cbn [In]; auto 6. }
  unfold clean, Security.testSecurityHeaders. cbn [forallb].
  rewrite !andb_true_iff.
  assert (Hheading : on_stream StdLog (Security.group "Security Headers") = true)
    by reflexivity.
  match goal with
  | |- _ /\ ?A1 /\ ?A2 /\ ?A3 /\ ?A4 /\ _ <-> ?C1 /\ ?C2 /\ ?C3 /\ ?C4 =>
      assert (E1 : A1 <-> C1);
      [| assert (E2 : A2 <-> C2);
         [| assert (E3 : A3 <-> C3);
            [| assert (E4 : A4 <-> C4); [| tauto ] ] ] ]
  end.
  - destruct (Security.header response "referrer-policy") as [[|c v]|].
    + split; [discriminate|]. intros (v & [= <-] & H). cbn in H. intuition discriminate.
    + pose proof (one_of_In ["strict-origin-when-cross-origin"; "same-origin"; "no-referrer"]
                            (String c v)) as Hin.
      destruct (Security.one_of _ (String c v)); cbn [negb on_stream stream].
      * split; [intros _; eexists; split; [reflexivity | now apply Hin] | reflexivity].
      * split; [discriminate|]. intros (v' & [= <-] & Hv). apply Hin in Hv.
        discriminate Hv.
    + split; [discriminate|]. intros (v & [=] & _).
  - destruct (Security.header response "x-frame-options") as [[|c v]|].
    + split; [discriminate|]. intros (v & [= <-] & H). cbn in H. intuition discriminate.
    + pose proof (upper_one_of_lower (String c v)) as Hin.
      destruct (Security.upper_one_of _ (String c v)); cbn [negb on_stream stream].
      * split; [intros _; eexists; split; [reflexivity | now apply Hin] | reflexivity].
      * split; [discriminate|]. intros (v' & [= <-] & Hv). apply Hin in Hv.
        discriminate Hv.
    + split; [discriminate|]. intros (v & [=] & _).
  - destruct (Security.header response "x-content-type-options") as [[|c v]|].
    + split; [discriminate|]. intros (v & [= <-] & H). discriminate H.
    + destruct (String.eqb_spec (JsString.toLowerCase (String c v)) "nosniff") as [Heq | Hne];
        cbn [negb on_stream stream].
      * split; [intros _; eexists; split; [reflexivity | exact Heq] | reflexivity].
      * split; [discriminate|]. intros (v' & [= <-] & Hv). contradiction.
    + split; [discriminate|]. intros (v & [=] & _).
  - destruct (Security.header response "strict-transport-security") as [[|c v]|].
    + split; [discriminate|]. intros (v & [= <-] & H & _). discriminate H.
    + destruct (JsString.includes (String c v) "max-age=31536000") eqn:Hage,
               (JsString.includes (String c v) "includeSubDomains") eqn:Hsub;
        cbn [negb orb on_stream stream];
        (split; [ first [ discriminate | intros _; eexists; split; [reflexivity|]; now rewrite Hage, Hsub ]
                | first [ reflexivity | intros (v' & [= <-] & Hv1 & Hv2); congruence ] ]).
    + split; [discriminate|]. intros (v & [=] & _).
Qed.

Example header_case_matters :
  clean (Security.testSecurityHeaders
           (response_with 200
              [("referrer-policy", "same-origin"); ("x-frame-options", "SameOrigin");
               ("x-content-type-options", "NoSniff");
               ("strict-transport-security", "max-age=31536000; includeSubDomains")]))
  = true
  /\ clean (Security.testSecurityHeaders
              (response_with 200
                 [("referrer-policy", "Same-Origin"); ("x-frame-options", "SameOrigin");
                  ("x-content-type-options", "NoSniff");
                  ("strict-transport-security", "max-age=31536000; includeSubDomains")]))
     = false.
Proof. split; reflexivity. Qed.

(** ** The redirect walk *)

Section RedirectFacts.

Variable href : string -> string -> Result string.
Variable hostname : string -> Result string.

Lemma follow_walk (responses : list (Result Security.Response)) (currentUrl : string)
    (redirectChain fetched : list string) :
  let walk := Security.follow href responses currentUrl redirectChain fetched in
  exists more,
    fst walk = fetched ++ currentUrl :: more
    /\ length more <= length responses
    /\ (snd walk = Pending ->
        forallb redirecting responses = true /\ length more = length responses)
    /\ (forallb redirecting responses = true -> forall outcome, snd walk <> Fulfilled outcome)
    /\ (forall outcome, snd walk = Fulfilled outcome ->
        exists followed last rest,
          responses = followed ++ last :: rest
          /\ forallb redirecting followed = true
          /\ redirecting last = false
          /\ length more = length followed).
Proof.
  revert currentUrl redirectChain fetched.
  induction responses as [|answer rest IH]; intros currentUrl redirectChain fetched.
  - exists []. cbn. repeat split; try lia; try discriminate.
  - destruct answer as [response | error].
    + cbn [Security.follow redirecting forallb].
      destruct (Security.header response "location") as [[|c location]|] eqn:Hlocation.
      * exists []. cbn [fst snd length]. repeat split; try lia; try discriminate.
        intros outcome _. exists [], (Ok response), rest. cbn. now rewrite Hlocation.
      * destruct (href (String c location) currentUrl) as [next | error].
        -- destruct ((300 <=? Security.status response)%N
                     && (Security.status response <? 400)%N) eqn:Hstatus.
           ++ destruct (IH next (redirectChain ++ [String c location]) (fetched ++ [currentUrl]))
                as (more & Hfetched & Hlength & Hpending & Hnever & Hdone).
              exists (next :: more). cbn [length andb].
              rewrite Hfetched, <- app_assoc. cbn [app].
              repeat split; try lia.
              ** now apply Hpending.
              ** apply Hpending in H. lia.
              ** exact Hnever.
              ** intros outcome Houtcome.
                 destruct (Hdone outcome Houtcome) as (followed & last & rest' & -> & Hf & Hl & Hn).
                 exists (Ok response :: followed), last, rest'. cbn [forallb redirecting length app].
                 rewrite Hlocation, Hstatus, Hf, Hl, Hn. repeat split.
           ++ exists []. cbn [fst snd length andb]. repeat split; try lia; try discriminate.
              intros outcome _. exists [], (Ok response), rest. cbn.
              now rewrite Hlocation, Hstatus.
        -- exists []. cbn [fst snd length andb]. repeat split; try lia; try discriminate.
      * exists []. cbn [fst snd length]. repeat split; try lia; try discriminate.
        intros outcome _. exists [], (Ok response), rest. cbn. now rewrite Hlocation.
    + exists []. cbn. repeat split; try lia; try discriminate.
Qed.

(** X26.  The redirect walk has no limit on the number of hops.  It starts
    at the given address and fetches once more for every response with a
    non-empty [Location] and a status from 300 to 399.  While the responses
    keep redirecting it never completes and prints nothing but its heading;
    it is waiting only when every response so far redirected; and when it
    completes, it has fetched once for every redirect it followed and once
    for the response that ended the walk. *)
Theorem redirects_followed_without_limit (url : string)
    (responses : list (Result Security.Response)) :
  let run := Security.testRedirectChainAndHTTPS href hostname url responses in
  head (Security.fetches run) = Some url
  /\ length (Security.fetches run) <= S (length responses)
  /\ (forallb redirecting responses = true ->
      Security.done run <> Fulfilled tt /\ Security.printed run = [Security.group "Redirect Chain and HTTPS Tests"])
  /\ (Security.done run = Pending ->
      forallb redirecting responses = true
      /\ length (Security.fetches run) = S (length responses))
  /\ (Security.done run = Fulfilled tt ->
      exists followed last rest,
        responses = followed ++ last :: rest
        /\ forallb redirecting followed = true
        /\ redirecting last = false
        /\ length (Security.fetches run) = S (length followed)).
Proof.
  unfold Security.testRedirectChainAndHTTPS.
  destruct (follow_walk responses url [] []) as (more & Hfetched & Hlength & Hpending & Hnever & Hdone).
  destruct (Security.follow href responses url [] []) as [fetched walked].
  cbn [fst snd app] in *. subst fetched.
  destruct walked as [|[redirectChain currentUrl]|error].
  - cbn. destruct (Hpending eq_refl) as [Hall Hmore]. repeat split; try lia; try discriminate.
    exact Hall.
  - destruct (Hdone _ eq_refl) as (followed & last & rest & Hresponses & Hf & Hl & Hn).
    assert (Hno : forallb redirecting responses = true -> False).
    { intros Hall. now apply (Hnever Hall (redirectChain, currentUrl)). }
    destruct (Security.pattern_line hostname url redirectChain) as [line | error];
      cbn [Security.fetches Security.done Security.printed length head];
      repeat split; try lia; try discriminate; try (intros; exfalso; now apply Hno).
    intros _. exists followed, last, rest. repeat split; try assumption. lia.
  - cbn. repeat split; try lia; try discriminate.
Qed.

End RedirectFacts.

Example redirect_cycle :
  let back_and_forth :=
    Ok (response_with 302 [("location", "http://a.example/")]) in
  let run :=
    Security.testRedirectChainAndHTTPS (fun location _ => Ok location) Ok
      "http://a.example/" [back_and_forth; back_and_forth; back_and_forth] in
  Security.done run = Pending /\ length (Security.fetches run) = 4.
Proof. split; reflexivity. Qed.
